(** * Winscope trace ingestion and diff engine: a shallow embedding

    The development follows the TypeScript sources:
    - [parsers/parser_factory.ts]: [ParserFactory], [ParserError],
      [ParserErrorType];
    - the class [TracePipeline]: [loadTraceFiles], [removeTrace],
      [clear];
    - [viewers/viewer_surface_flinger/presenter.ts]: the three
      modification checks of the diff engine;
    - [parsers/transitions/operations/add_root_properties.ts]:
      [AddRootProperties.makeProperties].

    JavaScript objects are records, [Map] is a [gmap], arrays are lists,
    [undefined] is [None], numbers that are array lengths are [nat], the
    progress percentage is a binary64 float, and code that can throw runs
    in a small state-and-exception monad. *)

From Stdlib Require Import String Ascii List Bool Arith Lia.
From Stdlib Require Import PrimFloat Uint63 Sorted.
From stdpp Require Import base option list gmap strings pretty.

Set Warnings "-register-all,-clear-no-such-hyp".
Local Open Scope string_scope.
Local Open Scope list_scope.
Local Open Scope nat_scope.
Local Open Scope stdpp_scope.

(** ** Exceptions and results *)

(** A JavaScript exception value; only its message is kept. *)
Inductive Exn : Type :=
| Error (message : string).

(** The outcome of running a piece of code that may throw. *)
Inductive Outcome (A : Type) : Type :=
| Returns (a : A)
| Throws (e : Exn).

Arguments Returns {A} a.
Arguments Throws {A} e.

(** [assertDefined] of [common/assert_utils]: throws on [undefined]. *)
Definition assertDefined {A : Type} (value : option A) : Outcome A :=
  match value with
  | Some a => Returns a
  | None => Throws (Error "Expected value, but found 'undefined'")
  end.

(** [a ?? b]: nullish coalescing on optional values. *)
Definition nullish {A : Type} (a b : option A) : option A :=
  match a with
  | Some x => Some x
  | None => b
  end.

Infix "??" := nullish (at level 45, right associativity).

(** ** Trace files, trace types, parsers *)

(** [TraceType] is a numeric TypeScript enum declared in [trace/trace_type];
    a member is represented by its number. *)
Abbreviation TraceType := nat (only parsing).

(** [TraceFile]: the part the factory reads, [getDescriptor()] and
    [file.name]. *)
Record TraceFile : Type := mkTraceFile {
  fileName : string;
  getDescriptor : string
}.

(** A parsed [Parser<object>] as the factory observes it. *)
Record Parser : Type := mkParser {
  getTraceType : TraceType;
  getDescriptors : list string;
  getLengthEntries : nat
}.

(** [Array.prototype.join()] with the default separator. *)
Definition join (parts : list string) : string := String.concat "," parts.

Inductive ParserErrorType : Type :=
| CORRUPTED_ARCHIVE
| NO_INPUT_FILES
| UNSUPPORTED_FORMAT
| OVERRIDE.

Record ParserError : Type := mkParserError {
  type : ParserErrorType;
  trace : option string;
  traceType : option TraceType
}.

#[global] Instance ParserErrorType_eq_dec : EqDecision ParserErrorType.
Proof. solve_decision. Defined.

(** The members of [ParserFactory.PARSERS]. *)
Inductive ParserType : Type :=
| ParserAccessibility
| ParserInputMethodClients
| ParserInputMethodManagerService
| ParserInputMethodService
| ParserProtoLog
| ParserScreenRecording
| ParserScreenRecordingLegacy
| ParserSurfaceFlinger
| ParserTransactions
| ParserWindowManager
| ParserWindowManagerDump
| ParserEventLog
| ParserTransitionsWm
| ParserTransitionsShell
| ParserViewCapture.

#[global] Instance ParserType_eq_dec : EqDecision ParserType.
Proof. solve_decision. Defined.

Definition PARSERS : list ParserType :=
  [ ParserAccessibility;
    ParserInputMethodClients;
    ParserInputMethodManagerService;
    ParserInputMethodService;
    ParserProtoLog;
    ParserScreenRecording;
    ParserScreenRecordingLegacy;
    ParserSurfaceFlinger;
    ParserTransactions;
    ParserWindowManager;
    ParserWindowManagerDump;
    ParserEventLog;
    ParserTransitionsWm;
    ParserTransitionsShell;
    ParserViewCapture ].

(** An object built by [new ParserType(traceFile)]: either an ordinary
    parser, or an instance of [ParserViewCapture], which carries one
    parser per captured window ([windowParsers]).  The constructor tag
    is what [parser instanceof ParserViewCapture] tests. *)
Inductive ParserInstance : Type :=
| PlainParser (parser : Parser)
| ViewCaptureParser (windowParsers : list Parser).

(** The progress percentage [(index / traceFiles.length) * 100], computed
    on IEEE 754 binary64 numbers as JavaScript does.  The conversion is
    exact for every index and length an array can have (below 2^32). *)
Definition number_of_nat (n : nat) : float :=
  PrimFloat.of_uint63 (Uint63.of_Z (Z.of_nat n)).

Definition percentage (index len : nat) : float :=
  PrimFloat.mul (PrimFloat.div (number_of_nat index) (number_of_nat len))
                (number_of_nat 100).


(** ** The factory's mutable state and its effect monad *)

Module Factory.

Section WithEnvironment.

(** Whatever a progress listener may change (a progress bar, a log). *)
Variable World : Type.

(** [ProgressListener] of [interfaces/progress_listener]. *)
Record ProgressListener : Type := mkProgressListener {
  onProgressUpdate : string -> float -> World -> World
}.

(** [new ParserType(traceFile)] and [await parser.parse()]: both may
    throw; [parse] yields the instance with its entries decoded. *)
Variable construct : ParserType -> TraceFile -> Outcome ParserInstance.
Variable parse : ParserInstance -> Outcome ParserInstance.

(** The objects [createParsers] mutates: the factory's [this.parsers]
    map, the local arrays [errors] and [parsers] (shared by reference
    with [shouldUseParser] and [maybeAddParser]), and the listener's
    world. *)
Record Store : Type := mkStore {
  this_parsers : gmap nat Parser;
  errors : list ParserError;
  parsers : list (TraceFile * Parser);
  world : World
}.

(** State and exceptions: a mutation made before a throw persists. *)
Definition M (A : Type) : Type := Store -> Outcome A * Store.

Definition ret {A : Type} (a : A) : M A := fun s => (Returns a, s).

Definition bind {A B : Type} (m : M A) (k : A -> M B) : M B :=
  fun s =>
    match m s with
    | (Returns a, s') => k a s'
    | (Throws e, s') => (Throws e, s')
    end.

Definition lift {A : Type} (o : Outcome A) : M A := fun s => (o, s).

Definition try_catch {A : Type} (body : M A) (handler : Exn -> M A) : M A :=
  fun s =>
    match body s with
    | (Returns a, s') => (Returns a, s')
    | (Throws e, s') => handler e s'
    end.

Definition get : M Store := fun s => (Returns s, s).
Definition modify (f : Store -> Store) : M unit := fun s => (Returns tt, f s).

Notation "x <- m ;; k" := (bind m (fun x => k))
  (at level 100, m at next level, right associativity).
Notation "m ;;; k" := (bind m (fun _ => k))
  (at level 100, right associativity).

Definition errors_push (e : ParserError) : M unit :=
  modify (fun s => mkStore (this_parsers s) (errors s ++ [e]) (parsers s) (world s)).

Definition parsers_push (f : TraceFile) (p : Parser) : M unit :=
  modify (fun s => mkStore (this_parsers s) (errors s) (parsers s ++ [(f, p)]) (world s)).

Definition this_parsers_set (t : nat) (p : Parser) : M unit :=
  modify (fun s => mkStore (<[t := p]> (this_parsers s)) (errors s) (parsers s) (world s)).

Definition this_parsers_get (t : nat) : M (option Parser) :=
  fun s => (Returns (this_parsers s !! t), s).

(** [removeParser(type)]. *)
Definition removeParser (t : nat) : M unit :=
  modify (fun s => mkStore (delete t (this_parsers s)) (errors s) (parsers s) (world s)).

(** [shouldUseParser(newParser, errors)]; the [console.log] calls are
    not modelled. *)
Definition shouldUseParser (newParser : Parser) : M bool :=
  oldParser <- this_parsers_get (getTraceType newParser) ;;
  match oldParser with
  | None => ret true
  | Some oldParser =>
      if (getLengthEntries oldParser <? getLengthEntries newParser)%nat then
        errors_push
          (mkParserError OVERRIDE
             (Some (join (getDescriptors oldParser)))
             (Some (getTraceType oldParser))) ;;;
        ret true
      else
        errors_push
          (mkParserError OVERRIDE
             (Some (join (getDescriptors newParser)))
             (Some (getTraceType newParser))) ;;;
        ret false
  end.

(** The closure [maybeAddParser] of [createParsers]. *)
Definition maybeAddParser (p : Parser) (f : TraceFile) : M unit :=
  use <- shouldUseParser p ;;
  if use then
    this_parsers_set (getTraceType p) p ;;;
    parsers_push f p
  else ret tt.

(** [array.forEach(body)]. *)
Fixpoint forEach {A : Type} (items : list A) (body : A -> M unit) : M unit :=
  match items with
  | [] => ret tt
  | it :: rest => body it ;;; forEach rest body
  end.

(** The inner loop [for (const ParserType of ParserFactory.PARSERS)]
    over the variants still to try.  The result is the final value of
    the local [hasFoundParser]; returning [true] from the [try] body
    stands for [break].  Only the constructor and [parse()] can throw:
    the getters read by [maybeAddParser] are fields here, so that
    [hasFoundParser = true] and the additions that follow it always
    run together. *)
Fixpoint tryParserTypes (types : list ParserType) (traceFile : TraceFile)
  : M bool :=
  match types with
  | [] => ret false
  | ParserType :: rest =>
      hasFoundParser <-
        try_catch
          (parser <- lift (construct ParserType traceFile) ;;
           parser <- lift (parse parser) ;;
           match parser with
           | ViewCaptureParser windowParsers =>
               forEach windowParsers (fun it => maybeAddParser it traceFile)
           | PlainParser parser => maybeAddParser parser traceFile
           end ;;;
           ret true)
          (fun error => (* skip current parser *) ret false) ;;
      if hasFoundParser then ret true else tryParserTypes rest traceFile
  end.

(** [progressListener?.onProgressUpdate(label, percentage)]. *)
Definition notifyProgress (progressListener : option ProgressListener)
    (label : string) (percent : float) : M unit :=
  match progressListener with
  | None => ret tt
  | Some listener =>
      modify (fun s => mkStore (this_parsers s) (errors s) (parsers s)
                         (onProgressUpdate listener label percent (world s)))
  end.

(** One iteration of [for (const [index, traceFile] of traceFiles.entries())]. *)
Definition processTraceFile (progressListener : option ProgressListener)
    (len index : nat) (traceFile : TraceFile) : M unit :=
  notifyProgress progressListener "Parsing proto files" (percentage index len) ;;;
  hasFoundParser <- tryParserTypes PARSERS traceFile ;;
  if negb hasFoundParser then
    errors_push
      (mkParserError UNSUPPORTED_FORMAT (Some (getDescriptor traceFile)) None)
  else ret tt.

(** The outer loop from position [index] on. *)
Fixpoint forEachTraceFile (progressListener : option ProgressListener)
    (len index : nat) (traceFiles : list TraceFile) : M unit :=
  match traceFiles with
  | [] => ret tt
  | traceFile :: rest =>
      processTraceFile progressListener len index traceFile ;;;
      forEachTraceFile progressListener len (S index) rest
  end.

(** [createParsers(traceFiles, progressListener)]. *)
Definition createParsers (traceFiles : list TraceFile)
    (progressListener : option ProgressListener)
  : M (list (TraceFile * Parser) * list ParserError) :=
  modify (fun s => mkStore (this_parsers s) [] [] (world s)) ;;;
  forEachTraceFile progressListener (length traceFiles) 0 traceFiles ;;;
  s <- get ;;
  ret (parsers s, errors s).

(** A factory right after [new ParserFactory()]. *)
Definition newStore (w : World) : Store := mkStore ∅ [] [] w.

End WithEnvironment.

Arguments mkStore {World}.
Arguments this_parsers {World}.
Arguments errors {World}.
Arguments parsers {World}.
Arguments world {World}.
Arguments onProgressUpdate {World}.
Arguments mkProgressListener {World}.
Arguments ret {World A}.
Arguments bind {World A B}.
Arguments lift {World A}.
Arguments try_catch {World A}.
Arguments get {World}.
Arguments modify {World}.
Arguments errors_push {World}.
Arguments parsers_push {World}.
Arguments this_parsers_set {World}.
Arguments this_parsers_get {World}.
Arguments removeParser {World}.
Arguments shouldUseParser {World}.
Arguments maybeAddParser {World}.
Arguments forEach {World A}.
Arguments tryParserTypes {World}.
Arguments notifyProgress {World}.
Arguments processTraceFile {World}.
Arguments forEachTraceFile {World}.
Arguments createParsers {World}.
Arguments newStore {World}.

End Factory.

(** ** The trace pipeline ([app/trace_pipeline.ts]) *)

Module Pipeline.

Inductive TimestampType : Type :=
| REAL
| ELAPSED.

(** The result of [TraceFileFilter.filter]. *)
Record FilterResult : Type := mkFilterResult {
  perfetto : option TraceFile;
  legacy : list TraceFile;
  filterErrors : list ParserError
}.

(** The fields of a [TracePipeline].  [parserFactory] is the factory's
    [this.parsers] map; a [Trace] of [traces] is identified with the
    parser it wraps ([Trace.newUninitializedTrace(parser)]), so that
    [Traces] is a map from trace type to parser. *)
Record TracePipeline : Type := mkTracePipeline {
  parserFactory : gmap nat Parser;
  parsers : list Parser;
  files : gmap nat TraceFile;
  traces : gmap nat Parser;
  commonTimestampType : option TimestampType
}.

(** The field initialisers of the class. *)
Definition newTracePipeline : TracePipeline :=
  mkTracePipeline ∅ [] ∅ ∅ None.

(** [clear()]. *)
Definition clear (tp : TracePipeline) : TracePipeline :=
  mkTracePipeline ∅ [] ∅ ∅ None.

(** [removeTrace(trace)], by the trace's type. *)
Definition removeTrace (tp : TracePipeline) (traceType : nat) : TracePipeline :=
  mkTracePipeline (parserFactory tp)
    (List.filter (fun parser => negb (getTraceType parser =? traceType)%nat) (parsers tp))
    (files tp)
    (delete traceType (traces tp))
    (commonTimestampType tp).

Section WithCollaborators.

Variable World : Type.
Variable construct : ParserType -> TraceFile -> Outcome ParserInstance.
Variable parse : ParserInstance -> Outcome ParserInstance.

(** Collaborators declared in other files of the repository: the file
    classifier, the factory of the unified format and the factory of
    derived parsers. *)
Variable filter : list TraceFile -> FilterResult.
Variable perfettoCreateParsers : TraceFile -> Outcome (list Parser).
Variable tracesCreateParsers : list Parser -> Outcome (list Parser).

(** Members of the [TraceType] enum that [loadTraceFiles] names. *)
Variables TRANSITION WM_TRANSITION SHELL_TRANSITION : nat.

(** [allParsers.forEach(parser => traces.setTrace(parser.getTraceType(), ...))]. *)
Definition setTraces (allParsers : list Parser) : gmap nat Parser :=
  fold_left (fun traces parser => <[getTraceType parser := parser]> traces)
            allParsers ∅.

(** [for (fileAndParser of fileAndParsers) files.set(type, file)]. *)
Definition setFiles (files : gmap nat TraceFile)
    (fileAndParsers : list (TraceFile * Parser)) : gmap nat TraceFile :=
  fold_left (fun files fp => <[getTraceType (snd fp) := fst fp]> files)
            fileAndParsers files.

(** [loadTraceFiles(traceFiles, progressListener)]: the outcome, the
    pipeline and the listener's world afterwards. *)
Definition loadTraceFiles (tp : TracePipeline) (w : World)
    (traceFiles : list TraceFile)
    (progressListener : option (Factory.ProgressListener World))
  : Outcome (list ParserError) * (TracePipeline * World) :=
  let filterResult := filter traceFiles in
  if bool_decide (perfetto filterResult = None) &&
     (length (legacy filterResult) =? 0)%nat
  then (Returns [mkParserError NO_INPUT_FILES None None], (tp, w))
  else
    let errors := filterErrors filterResult in
    match
      match perfetto filterResult with
      | Some file =>
          match perfettoCreateParsers file with
          | Returns perfettoParsers => Returns (parsers tp ++ perfettoParsers)
          | Throws e => Throws e
          end
      | None => Returns (parsers tp)
      end
    with
    | Throws e => (Throws e, (tp, w))
    | Returns parsers1 =>
        let tp1 := mkTracePipeline (parserFactory tp) parsers1 (files tp)
                     (traces tp) (commonTimestampType tp) in
        match Factory.createParsers construct parse (legacy filterResult)
                progressListener
                (Factory.mkStore (parserFactory tp) [] [] w)
        with
        | (Throws e, s) => (Throws e, (tp1, Factory.world s))
        | (Returns (fileAndParsers, legacyErrors), s) =>
            let errors := errors ++ legacyErrors in
            let files' := setFiles (files tp) fileAndParsers in
            let newParsers := map snd fileAndParsers in
            let parsers2 := parsers1 ++ newParsers in
            let tp2 := mkTracePipeline (Factory.this_parsers s) parsers2 files'
                         (traces tp) (commonTimestampType tp) in
            match tracesCreateParsers parsers2 with
            | Throws e => (Throws e, (tp2, Factory.world s))
            | Returns tracesParsers =>
                let allParsers := parsers2 ++ tracesParsers in
                let traces' := setTraces allParsers in
                let hasTransitionTrace :=
                  bool_decide (is_Some (traces' !! TRANSITION)) in
                let traces'' :=
                  if hasTransitionTrace
                  then delete SHELL_TRANSITION (delete WM_TRANSITION traces')
                  else traces' in
                (Returns errors,
                 (mkTracePipeline (Factory.this_parsers s) parsers2 files'
                    traces'' (commonTimestampType tp),
                  Factory.world s))
            end
        end
    end.

End WithCollaborators.

Arguments loadTraceFiles {World}.

End Pipeline.

(** ** Property and hierarchy trees *)

(** [PropertySource] of [trace/tree_node/property_tree_node]. *)
Inductive PropertySource : Type :=
| PROTO
| DEFAULT
| CALCULATED.

#[global] Instance PropertySource_eq_dec : EqDecision PropertySource.
Proof. solve_decision. Defined.

(** The raw value a property node holds, before rendering. *)
Inductive PropertyValue : Type :=
| VUndefined
| VNumber (n : Z)
| VString (s : string)
| VBoolean (b : bool).

(** [PropertyTreeNode]: id, name, source, value and children. *)
Inductive PropertyTreeNode : Type :=
| mkPropertyTreeNode (id name : string) (source : PropertySource)
    (value : PropertyValue) (children : list PropertyTreeNode).

Definition node_id (node : PropertyTreeNode) : string :=
  match node with mkPropertyTreeNode id _ _ _ _ => id end.
Definition name (node : PropertyTreeNode) : string :=
  match node with mkPropertyTreeNode _ name _ _ _ => name end.
Definition source (node : PropertyTreeNode) : PropertySource :=
  match node with mkPropertyTreeNode _ _ source _ _ => source end.
Definition getValue (node : PropertyTreeNode) : PropertyValue :=
  match node with mkPropertyTreeNode _ _ _ value _ => value end.
Definition getAllChildren (node : PropertyTreeNode) : list PropertyTreeNode :=
  match node with mkPropertyTreeNode _ _ _ _ children => children end.

(** Modelled from the spec: [TreeNode.getChildByName], whose class is
    declared in [trace/tree_node].  A child is matched to "the child of the same
    name"; the first such child is returned, [undefined] when there is
    none. *)
Definition getChildByName (node : PropertyTreeNode) (n : string)
  : option PropertyTreeNode :=
  List.find (fun child => String.eqb (name child) n) (getAllChildren node).

(** [UiHierarchyTreeNode] as the diff engine reads it: [isRoot()],
    [getAllProperties()] and the child nodes. *)
Inductive HierarchyTreeNode : Type :=
| mkHierarchyTreeNode (id name : string) (isRoot : bool)
    (properties : PropertyTreeNode) (children : list HierarchyTreeNode).

Definition isRoot (node : HierarchyTreeNode) : bool :=
  match node with mkHierarchyTreeNode _ _ isRoot _ _ => isRoot end.
Definition getAllProperties (node : HierarchyTreeNode) : PropertyTreeNode :=
  match node with mkHierarchyTreeNode _ _ _ properties _ => properties end.
Definition hierarchyChildren (node : HierarchyTreeNode) : list HierarchyTreeNode :=
  match node with mkHierarchyTreeNode _ _ _ _ children => children end.

(** ** The diff engine of the SurfaceFlinger presenter *)

Module Presenter.

Definition DENYLIST_PROPERTY_NAMES : list string :=
  ["name"; "children"; "dpiX"; "dpiY"].

(** [array.includes(x)] on strings. *)
Definition includes (items : list string) (x : string) : bool :=
  existsb (String.eqb x) items.

Section WithFormatter.

(** [formattedValue()]: the rendering of a node by its formatter. *)
Variable formattedValue : PropertyTreeNode -> string.

(** [isPropertyNodeModified(newTree, oldTree)]. *)
Definition isPropertyNodeModified (newTree oldTree : option PropertyTreeNode)
  : bool :=
  match newTree, oldTree with
  | None, None => false
  | None, Some _ | Some _, None => true
  | Some newTree, Some oldTree =>
      let newValue := formattedValue newTree in
      let oldValue := formattedValue oldTree in
      negb (String.eqb oldValue newValue)
  end.

(** [isChildPropertyModified(newProperties, oldProperties)]: the [for]
    loop is the inner fixpoint, each [return true] ends it. *)
Fixpoint isChildPropertyModified (newProperties oldProperties : PropertyTreeNode)
    {struct newProperties} : bool :=
  match newProperties with
  | mkPropertyTreeNode _ _ _ _ newChildren =>
      (fix loop (rest : list PropertyTreeNode) : bool :=
         match rest with
         | [] => false
         | newProperty :: rest =>
             if includes DENYLIST_PROPERTY_NAMES (name newProperty) then
               loop rest
             else if bool_decide (source newProperty = CALCULATED) then
               loop rest
             else
               match getChildByName oldProperties (name newProperty) with
               | None => true
               | Some oldProperty =>
                   if (length (getAllChildren newProperty) =? 0)%nat then
                     if isPropertyNodeModified (Some newProperty) (Some oldProperty)
                     then true
                     else loop rest
                   else
                     let childrenModified :=
                       isChildPropertyModified newProperty oldProperty in
                     if childrenModified then true else loop rest
               end
         end) newChildren
  end.

(** [isHierarchyTreeModified(newTree, oldTree)]. *)
Definition isHierarchyTreeModified (newTree oldTree : option HierarchyTreeNode)
  : bool :=
  match newTree, oldTree with
  | None, None => false
  | None, Some _ | Some _, None => true
  | Some newTree, Some oldTree =>
      if isRoot newTree then false
      else
        let newProperties := getAllProperties newTree in
        let oldProperties := getAllProperties oldTree in
        isChildPropertyModified newProperties oldProperties
  end.

End WithFormatter.

End Presenter.

(** ** Root properties of a transition ([add_root_properties.ts]) *)

Module AddRootProperties.

Section WithFactory.

(** [DEFAULT_PROPERTY_TREE_NODE_FACTORY.makeCalculatedProperty(rootId,
    name, value)]; the factory is declared in
    [trace/tree_node/property_tree_node_factory]. *)
Variable makeCalculatedProperty :
  string -> string -> PropertyValue -> PropertyTreeNode.

Definition andThen {A B : Type} (o : Outcome A) (k : A -> Outcome B) : Outcome B :=
  match o with
  | Returns a => k a
  | Throws e => Throws e
  end.

Notation "x <- o ;; k" := (andThen o (fun x => k))
  (at level 100, o at next level, right associativity).

(** [makeProperties(value)]. *)
Definition makeProperties (value : PropertyTreeNode)
  : Outcome (list PropertyTreeNode) :=
  wmData <- assertDefined (getChildByName value "wmData") ;;
  shellData <- assertDefined (getChildByName value "shellData") ;;
  let id := getChildByName wmData "id" ?? getChildByName shellData "id" in
  idNode <- assertDefined id ;;
  let rootIdNode :=
    makeCalculatedProperty (node_id value) "id" (getValue idNode) in
  let realToElapsedTimeOffsetNs :=
    match getChildByName value "aborted" with
    | Some _ =>
        getChildByName wmData "realToElapsedTimeOffsetNs" ??
        getChildByName shellData "realToElapsedTimeOffsetNs"
    | None =>
        getChildByName shellData "realToElapsedTimeOffsetNs" ??
        getChildByName wmData "realToElapsedTimeOffsetNs"
    end in
  offsetNode <- assertDefined realToElapsedTimeOffsetNs ;;
  let realToElapsedTimeOffsetNsNode :=
    makeCalculatedProperty (node_id value) "realToElapsedTimeOffsetNs"
      (getValue offsetNode) in
  Returns [rootIdNode; realToElapsedTimeOffsetNsNode].

End WithFactory.

End AddRootProperties.

(** ** Notions used to state the properties *)

Module FactorySpec.

Section WithEnvironment.

Variable World : Type.
Variable construct : ParserType -> TraceFile -> Outcome ParserInstance.
Variable parse : ParserInstance -> Outcome ParserInstance.

(** A variant accepts a file when neither its construction nor its
    [parse()] throws; the parsed instance is the result. *)
Definition attempt (k : ParserType) (f : TraceFile) : option ParserInstance :=
  match construct k f with
  | Returns instance =>
      match parse instance with
      | Returns parsed => Some parsed
      | Throws _ => None
      end
  | Throws _ => None
  end.

(** The instance of the first variant of [types] that accepts [f]. *)
Fixpoint firstAccepted (types : list ParserType) (f : TraceFile)
  : option ParserInstance :=
  match types with
  | [] => None
  | k :: rest =>
      match attempt k f with
      | Some instance => Some instance
      | None => firstAccepted rest f
      end
  end.

(** The parsers an accepted instance puts forward. *)
Definition candidates (instance : ParserInstance) : list Parser :=
  match instance with
  | PlainParser parser => [parser]
  | ViewCaptureParser windowParsers => windowParsers
  end.

(** What accepting an instance does for file [f]: every candidate goes
    through [maybeAddParser], in order. *)
Definition addCandidates (instance : ParserInstance) (f : TraceFile)
  : Factory.M World unit :=
  Factory.forEach (candidates instance) (fun it => Factory.maybeAddParser it f).

(** Exactly one variant accepts [f], and [instance] is what it builds. *)
Definition acceptedByOne (f : TraceFile) (instance : ParserInstance) : Prop :=
  exists k, attempt k f = Some instance /\
            forall k', k' <> k -> attempt k' f = None.

(** The (file, parser) pairs a list of accepted instances stands for,
    in file order. *)
Definition pairsOf (files : list TraceFile) (instances : list ParserInstance)
  : list (TraceFile * Parser) :=
  concat (zip_with (fun f instance => map (pair f) (candidates instance))
                   files instances).

(** The store with the local arrays emptied, as at the start of
    [createParsers]. *)
Definition resetLocals (s : Factory.Store World) : Factory.Store World :=
  Factory.mkStore (Factory.this_parsers s) [] [] (Factory.world s).

Definition withErrors (s : Factory.Store World) (es : list ParserError)
  : Factory.Store World :=
  Factory.mkStore (Factory.this_parsers s) es (Factory.parsers s) (Factory.world s).

Definition withWorld (s : Factory.Store World) (w : World)
  : Factory.Store World :=
  Factory.mkStore (Factory.this_parsers s) (Factory.errors s) (Factory.parsers s) w.

(** The error a losing parser is reported with. *)
Definition overrideError (loser : Parser) : ParserError :=
  mkParserError OVERRIDE (Some (join (getDescriptors loser)))
                (Some (getTraceType loser)).

Definition unsupportedError (f : TraceFile) : ParserError :=
  mkParserError UNSUPPORTED_FORMAT (Some (getDescriptor f)) None.

(** *** The errors a run is due

    The policy by which errors arise: a file that no variant accepts is
    reported as UNSUPPORTED_FORMAT; a parser put forward for a type
    that is taken is arbitrated against the registered one, and the
    loser is reported as OVERRIDE. *)

(** Arbitration of [p] against the map [m]: the map afterwards and the
    errors reported.  A free type is taken without error; a strictly
    longer capture replaces the registered parser, which is reported;
    otherwise the map stays and [p] is reported. *)
Definition arbitrated (m : gmap nat Parser) (p : Parser)
  : gmap nat Parser * list ParserError :=
  match m !! getTraceType p with
  | None => (<[getTraceType p := p]> m, [])
  | Some old =>
      if decide (getLengthEntries old < getLengthEntries p)
      then (<[getTraceType p := p]> m, [overrideError old])
      else (m, [overrideError p])
  end.

(** The parsers of one accepted file, arbitrated in order. *)
Fixpoint dueForParsers (m : gmap nat Parser) (ps : list Parser)
  : gmap nat Parser * list ParserError :=
  match ps with
  | [] => (m, [])
  | p :: rest =>
      let (m1, reported) := arbitrated m p in
      let (m2, more) := dueForParsers m1 rest in
      (m2, reported ++ more)
  end.

Definition dueForFile (m : gmap nat Parser) (f : TraceFile)
  : gmap nat Parser * list ParserError :=
  match firstAccepted PARSERS f with
  | Some instance => dueForParsers m (candidates instance)
  | None => (m, [unsupportedError f])
  end.

(** The map after the files, met in order from the map [m], and every
    error they give rise to, in the order in which they arise. *)
Fixpoint dueForFiles (m : gmap nat Parser) (files : list TraceFile)
  : gmap nat Parser * list ParserError :=
  match files with
  | [] => (m, [])
  | f :: rest =>
      let (m1, reported) := dueForFile m f in
      let (m2, more) := dueForFiles m1 rest in
      (m2, reported ++ more)
  end.

(** *** The calls a listener is due *)

(** For [n] files: the label 'Parsing proto files' with the percentage
    [(index / n) * 100], in binary64 arithmetic, for [index = 0], ...,
    [n - 1]. *)
Definition expectedProgress (n : nat) : list (string * float) :=
  map (fun index =>
         ("Parsing proto files",
          PrimFloat.mul
            (PrimFloat.div (PrimFloat.of_uint63 (Uint63.of_Z (Z.of_nat index)))
                           (PrimFloat.of_uint63 (Uint63.of_Z (Z.of_nat n))))
            100%float))
      (seq 0 n).

(** The listener's world after it has been handed the calls, in order. *)
Definition delivered (listener : Factory.ProgressListener World)
    (calls : list (string * float)) (w : World) : World :=
  fold_left
    (fun w call => Factory.onProgressUpdate listener (fst call) (snd call) w)
    calls w.

(** The calls a listener receives for the files at positions [index],
    ..., [index + count - 1] of [len] files, applied in order. *)
Definition progressCallsFrom (listener : Factory.ProgressListener World)
    (len index count : nat) (w : World) : World :=
  fold_left
    (fun w index =>
       Factory.onProgressUpdate listener "Parsing proto files" (percentage index len) w)
    (seq index count) w.

(** The calls a listener receives for [n] files. *)
Definition progressCalls (listener : Factory.ProgressListener World)
    (n : nat) (w : World) : World :=
  progressCallsFrom listener n 0 n w.

(** The map after [this.parsers.set(p.getTraceType(), p)] for each
    parser of [ps] in turn. *)
Definition insertAll (ps : list Parser) (m : gmap nat Parser) : gmap nat Parser :=
  fold_left (fun m p => <[getTraceType p := p]> m) ps m.

(** A computation that returns from every store. *)
Definition never_throws {A : Type} (m : Factory.M World A) : Prop :=
  forall s, exists a s', m s = (Returns a, s').

(** The two arrays of the second store extend those of the first. *)
Definition grows (s s' : Factory.Store World) : Prop :=
  Factory.errors s `prefix_of` Factory.errors s' /\
  Factory.parsers s `prefix_of` Factory.parsers s'.

(** A computation that returns from every store and only appends. *)
Definition steady {A : Type} (m : Factory.M World A) : Prop :=
  forall s, exists a s', m s = (Returns a, s') /\ grows s s'.

(** A computation that neither reads nor writes the listener's world. *)
Definition world_blind {A : Type} (m : Factory.M World A) : Prop :=
  forall s w, m (withWorld s w) = (fst (m s), withWorld (snd (m s)) w).

End WithEnvironment.

Arguments insertAll : clear implicits.
Arguments never_throws {World A}.
Arguments grows {World}.
Arguments steady {World A}.
Arguments world_blind {World A}.
Arguments candidates : clear implicits.
Arguments addCandidates {World}.
Arguments pairsOf : clear implicits.
Arguments resetLocals {World}.
Arguments progressCallsFrom {World}.
Arguments progressCalls {World}.
Arguments delivered {World}.
Arguments withErrors {World}.
Arguments withWorld {World}.

End FactorySpec.

Module PipelineSpec.

Import Pipeline.

(** The classifier found neither a unified-format file nor any discrete
    file. *)
Definition noUsableInput (filter : list TraceFile -> FilterResult)
    (traceFiles : list TraceFile) : Prop :=
  perfetto (filter traceFiles) = None /\ legacy (filter traceFiles) = [].

(** The classifier partitions its input: what it hands on is among the
    files it was given (section 4.1 of the specification). *)
Definition classifies (filter : list TraceFile -> FilterResult) : Prop :=
  forall traceFiles,
    (forall f, perfetto (filter traceFiles) = Some f -> f ∈ traceFiles) /\
    (forall f, f ∈ legacy (filter traceFiles) -> f ∈ traceFiles).

End PipelineSpec.

Module PresenterSpec.

Import Presenter.

(** A property the comparison skips: its name is on the deny-list or
    its source is CALCULATED. *)
Definition isExcluded (c : PropertyTreeNode) : bool :=
  includes DENYLIST_PROPERTY_NAMES (name c) || bool_decide (source c = CALCULATED).

Section WithFormatter.

Variable formattedValue : PropertyTreeNode -> string.

(** The remaining iterations of the loop of [isChildPropertyModified],
    with the recursive call named. *)
Fixpoint childLoop (oldProperties : PropertyTreeNode)
    (rest : list PropertyTreeNode) : bool :=
  match rest with
  | [] => false
  | newProperty :: rest =>
      if includes DENYLIST_PROPERTY_NAMES (name newProperty) then
        childLoop oldProperties rest
      else if bool_decide (source newProperty = CALCULATED) then
        childLoop oldProperties rest
      else
        match getChildByName oldProperties (name newProperty) with
        | None => true
        | Some oldProperty =>
            if (length (getAllChildren newProperty) =? 0)%nat then
              if isPropertyNodeModified formattedValue
                   (Some newProperty) (Some oldProperty)
              then true
              else childLoop oldProperties rest
            else
              if isChildPropertyModified formattedValue newProperty oldProperty
              then true
              else childLoop oldProperties rest
        end
  end.

(** The child [c] of the new tree makes the loop answer [true]: it has
    no counterpart in [old], or it is a leaf rendered differently, or
    it is an inner node whose own comparison answers [true]. *)
Definition differsHere (old c : PropertyTreeNode) : Prop :=
  match getChildByName old (name c) with
  | None => True
  | Some c' =>
      (getAllChildren c = [] /\ formattedValue c <> formattedValue c') \/
      (getAllChildren c <> [] /\
       isChildPropertyModified formattedValue c c' = true)
  end.

(** Some descendant of [new], reached through properties that are not
    excluded, differs from its counterpart in [old]: it has none, or it
    is a leaf rendered differently. *)
Inductive Differs : PropertyTreeNode -> PropertyTreeNode -> Prop :=
| Differs_missing new old c :
    c ∈ getAllChildren new ->
    isExcluded c = false ->
    (forall c', c' ∈ getAllChildren old -> name c' <> name c) ->
    Differs new old
| Differs_leaf new old c c' :
    c ∈ getAllChildren new ->
    isExcluded c = false ->
    getChildByName old (name c) = Some c' ->
    getAllChildren c = [] ->
    formattedValue c <> formattedValue c' ->
    Differs new old
| Differs_inner new old c c' :
    c ∈ getAllChildren new ->
    isExcluded c = false ->
    getChildByName old (name c) = Some c' ->
    getAllChildren c <> [] ->
    Differs c c' ->
    Differs new old.

(** The properties of [new] that are not excluded render in [old] to
    the same values: each has exactly one child of [old] with its name,
    rendered alike, and so on below.  Excluded properties are free. *)
Inductive SameRendering : PropertyTreeNode -> PropertyTreeNode -> Prop :=
| SameRendering_intro new old :
    (forall c, c ∈ getAllChildren new -> isExcluded c = false ->
       exists c', c' ∈ getAllChildren old /\
                  name c' = name c /\
                  (forall c'', c'' ∈ getAllChildren old ->
                               name c'' = name c -> c'' = c') /\
                  formattedValue c' = formattedValue c /\
                  SameRendering c c') ->
    SameRendering new old.

(** Two hierarchy trees of the same shape whose nodes have properties
    of the same rendering. *)
Inductive HierarchyMatches : HierarchyTreeNode -> HierarchyTreeNode -> Prop :=
| HierarchyMatches_intro n o :
    SameRendering (getAllProperties n) (getAllProperties o) ->
    Forall2 HierarchyMatches (hierarchyChildren n) (hierarchyChildren o) ->
    HierarchyMatches n o.

End WithFormatter.

(** Sibling names are unique, at every depth of a property tree (the
    invariant of the data model). *)
Inductive UniqueNames : PropertyTreeNode -> Prop :=
| UniqueNames_intro node :
    NoDup (map name (getAllChildren node)) ->
    Forall UniqueNames (getAllChildren node) ->
    UniqueNames node.

Inductive WellNamed : HierarchyTreeNode -> Prop :=
| WellNamed_intro n :
    UniqueNames (getAllProperties n) ->
    Forall WellNamed (hierarchyChildren n) ->
    WellNamed n.

(** [PairedIn N O n o]: [n] and [o] sit at the same position, at any
    depth, of the hierarchy trees [N] and [O]. *)
Inductive PairedIn (N O : HierarchyTreeNode)
  : HierarchyTreeNode -> HierarchyTreeNode -> Prop :=
| PairedIn_here : PairedIn N O N O
| PairedIn_child n o i n' o' :
    PairedIn N O n o ->
    hierarchyChildren n !! i = Some n' ->
    hierarchyChildren o !! i = Some o' ->
    PairedIn N O n' o'.

End PresenterSpec.

(** ** Sample inputs *)

Module Samples.

(** The listener's world in the samples: the calls received so far. *)
Definition Log : Type := list (string * float).

Definition recorder : Factory.ProgressListener Log :=
  Factory.mkProgressListener (fun label percent log => log ++ [(label, percent)]).

Definition file (n : string) : TraceFile := mkTraceFile n n.

Definition SURFACE_FLINGER : nat := 4.
Definition WINDOW_MANAGER : nat := 9.
Definition VIEW_CAPTURE_LAUNCHER : nat := 20.
Definition VIEW_CAPTURE_TASKBAR : nat := 21.

(** Layer traces are named [sf_<entries>...], e.g. [sf_5.winscope]. *)
Definition layersEntries (n : string) : option nat :=
  if String.eqb n "sf_5.winscope" then Some 5
  else if String.eqb n "sf_8.winscope" then Some 8
  else if String.eqb n "sf_3_first.winscope" then Some 3
  else if String.eqb n "sf_3_second.winscope" then Some 3
  else None.

Definition construct (k : ParserType) (f : TraceFile) : Outcome ParserInstance :=
  match k with
  | ParserSurfaceFlinger =>
      match layersEntries (fileName f) with
      | Some n => Returns (PlainParser (mkParser SURFACE_FLINGER [getDescriptor f] n))
      | None => Throws (Error "wrong magic number")
      end
  | ParserProtoLog =>
      if String.eqb (fileName f) "truncated.winscope"
      then Returns (PlainParser (mkParser 7 [getDescriptor f] 0))
      else Throws (Error "wrong magic number")
  | ParserWindowManager =>
      if String.eqb (fileName f) "wm.winscope"
      then Returns (PlainParser (mkParser WINDOW_MANAGER [getDescriptor f] 2))
      else Throws (Error "wrong magic number")
  | ParserViewCapture =>
      if String.eqb (fileName f) "launcher.vc"
      then Returns (ViewCaptureParser
                      [mkParser VIEW_CAPTURE_LAUNCHER [getDescriptor f] 6;
                       mkParser VIEW_CAPTURE_TASKBAR [getDescriptor f] 6])
      else Throws (Error "wrong magic number")
  | _ => Throws (Error "wrong magic number")
  end.

(** Decoding fails on the truncated file only. *)
Definition parse (instance : ParserInstance) : Outcome ParserInstance :=
  match instance with
  | PlainParser (mkParser 7 _ _) => Throws (Error "unexpected end of file")
  | _ => Returns instance
  end.

Definition emptyStore : Factory.Store Log := Factory.newStore [].

(** The parsers the sample variants build. *)
Definition sf5 : Parser := mkParser SURFACE_FLINGER ["sf_5.winscope"] 5.
Definition sf8 : Parser := mkParser SURFACE_FLINGER ["sf_8.winscope"] 8.
Definition sf3a : Parser := mkParser SURFACE_FLINGER ["sf_3_first.winscope"] 3.
Definition sf3b : Parser := mkParser SURFACE_FLINGER ["sf_3_second.winscope"] 3.

Definition wm2 : Parser := mkParser WINDOW_MANAGER ["wm.winscope"] 2.
Definition launcherWindows : list Parser :=
  [mkParser VIEW_CAPTURE_LAUNCHER ["launcher.vc"] 6;
   mkParser VIEW_CAPTURE_TASKBAR ["launcher.vc"] 6].

(** A classifier for the samples: archives named [*.zip] here are
    corrupted and reported, [trace.perfetto-trace] is the unified
    format, everything else is a discrete file. *)
Definition isCorrupted (f : TraceFile) : bool :=
  String.eqb (fileName f) "bugreport.zip" || String.eqb (fileName f) "empty.zip".

Definition isPerfetto (f : TraceFile) : bool :=
  String.eqb (fileName f) "trace.perfetto-trace".

Definition filter (traceFiles : list TraceFile) : Pipeline.FilterResult :=
  Pipeline.mkFilterResult
    (List.find isPerfetto traceFiles)
    (List.filter (fun f => negb (isCorrupted f) && negb (isPerfetto f)) traceFiles)
    (map (fun f => mkParserError CORRUPTED_ARCHIVE (Some (getDescriptor f)) None)
         (List.filter isCorrupted traceFiles)).

Definition perfettoCreateParsers (f : TraceFile) : Outcome (list Parser) :=
  Returns [mkParser 30 [getDescriptor f] 12].

Definition tracesCreateParsers (accepted : list Parser) : Outcome (list Parser) :=
  Returns [].

(** A formatter for the samples: numbers 1 and 2 of a flag field are
    rendered by the flag's name, strings as they are. *)
Definition render (node : PropertyTreeNode) : string :=
  match getValue node with
  | VUndefined => ""
  | VNumber 0 => "0"
  | VNumber 1 => "FLAG_A"
  | VNumber 2 => "FLAG_B"
  | VNumber _ => "#"
  | VString s => s
  | VBoolean true => "true"
  | VBoolean false => "false"
  end.

Definition leaf (n : string) (src : PropertySource) (v : PropertyValue)
  : PropertyTreeNode :=
  mkPropertyTreeNode ("layer." ++ n)%string n src v [].

(** The properties of one layer in two consecutive entries.  They
    differ in the deny-listed [name] and [dpiX], in the calculated
    [isVisible], and in the raw value of [flags], which renders alike. *)
Definition layerNew : PropertyTreeNode :=
  mkPropertyTreeNode "layer" "layer" PROTO VUndefined
    [leaf "name" PROTO (VString "Task=7#42");
     leaf "dpiX" PROTO (VNumber 3);
     leaf "isVisible" CALCULATED (VBoolean true);
     leaf "flags" PROTO (VNumber 2);
     mkPropertyTreeNode "layer.bounds" "bounds" PROTO VUndefined
       [leaf "left" PROTO (VNumber 0); leaf "top" PROTO (VNumber 1)]].

Definition layerOld : PropertyTreeNode :=
  mkPropertyTreeNode "layer" "layer" PROTO VUndefined
    [leaf "name" PROTO (VString "Task=7#41");
     leaf "dpiX" PROTO (VNumber 0);
     leaf "isVisible" CALCULATED (VBoolean false);
     leaf "flags" PROTO (VString "FLAG_B");
     mkPropertyTreeNode "layer.bounds" "bounds" PROTO VUndefined
       [leaf "left" PROTO (VNumber 0); leaf "top" PROTO (VNumber 1)]].

(** The same layer with [bounds.top] moved. *)
Definition layerMoved : PropertyTreeNode :=
  mkPropertyTreeNode "layer" "layer" PROTO VUndefined
    [leaf "name" PROTO (VString "Task=7#42");
     leaf "flags" PROTO (VNumber 2);
     mkPropertyTreeNode "layer.bounds" "bounds" PROTO VUndefined
       [leaf "left" PROTO (VNumber 0); leaf "top" PROTO (VNumber 2)]].

(** A tree that breaks the invariant: two siblings named [flags]. *)
Definition twoFlags : PropertyTreeNode :=
  mkPropertyTreeNode "layer" "layer" PROTO VUndefined
    [leaf "flags" PROTO (VNumber 1); leaf "flags" PROTO (VNumber 2)].

Definition rootProperties : PropertyTreeNode :=
  mkPropertyTreeNode "root" "root" PROTO VUndefined [].

Definition hierarchyNew : HierarchyTreeNode :=
  mkHierarchyTreeNode "root" "root" true rootProperties
    [mkHierarchyTreeNode "layer" "layer" false layerNew []].

Definition hierarchyOld : HierarchyTreeNode :=
  mkHierarchyTreeNode "root" "root" true rootProperties
    [mkHierarchyTreeNode "layer" "layer" false layerOld []].

Definition layerNodeNew : HierarchyTreeNode :=
  mkHierarchyTreeNode "layer" "layer" false layerNew [].

Definition layerNodeOld : HierarchyTreeNode :=
  mkHierarchyTreeNode "layer" "layer" false layerOld [].

(** A root whose own properties changed between two entries. *)
Definition changedRootNew : HierarchyTreeNode :=
  mkHierarchyTreeNode "root" "root" true layerMoved [].

Definition changedRootOld : HierarchyTreeNode :=
  mkHierarchyTreeNode "root" "root" true layerOld [].

(** A calculated-property factory for the samples. *)
Definition makeCalculatedProperty (rootId n : string) (v : PropertyValue)
  : PropertyTreeNode :=
  mkPropertyTreeNode (rootId ++ "." ++ n)%string n CALCULATED v [].

Definition field (n : string) (v : Z) : PropertyTreeNode :=
  mkPropertyTreeNode n n PROTO (VNumber v) [].

Definition group (n : string) (children : list PropertyTreeNode)
  : PropertyTreeNode :=
  mkPropertyTreeNode n n PROTO VUndefined children.

(** A finished transition: both sides know the id and the offset. *)
Definition transitionPlayed : PropertyTreeNode :=
  group "transition"
    [group "wmData" [field "id" 35; field "realToElapsedTimeOffsetNs" 1000];
     group "shellData" [field "id" 36; field "realToElapsedTimeOffsetNs" 2000]].

(** The same transition, aborted. *)
Definition transitionAborted : PropertyTreeNode :=
  group "transition"
    [group "wmData" [field "id" 35; field "realToElapsedTimeOffsetNs" 1000];
     group "shellData" [field "id" 36; field "realToElapsedTimeOffsetNs" 2000];
     field "aborted" 1].

(** Only the shell side saw the transition. *)
Definition transitionShellOnly : PropertyTreeNode :=
  group "transition"
    [group "wmData" [];
     group "shellData" [field "id" 36; field "realToElapsedTimeOffsetNs" 2000]].

(** Nobody recorded an id. *)
Definition transitionNoId : PropertyTreeNode :=
  group "transition"
    [group "wmData" [field "realToElapsedTimeOffsetNs" 1000];
     group "shellData" []].

Definition TRANSITION : nat := 12.
Definition WM_TRANSITION : nat := 13.
Definition SHELL_TRANSITION : nat := 14.

End Samples.

(** ** Further notions for the factory *)

Module FactoryInvariants.

Section WithWorld.

Variable World : Type.

(** Every run of [m], returning or throwing, leaves a store related by
    [R] to the one it started from. *)
Definition follows (R : Factory.Store World -> Factory.Store World -> Prop)
    {A : Type} (m : Factory.M World A) : Prop :=
  forall s, R s (snd (m s)).

End WithWorld.

Arguments follows {World} R {A} m.

(** Every parser of the map is stored under its own trace type. *)
Definition keyed (m : gmap nat Parser) : Prop :=
  forall t p, m !! t = Some p -> getTraceType p = t.

(** The map holds, under the trace type of [p], a parser with at least
    as many entries as [p]. *)
Definition covers (m : gmap nat Parser) (p : Parser) : Prop :=
  exists q, m !! getTraceType p = Some q /\
            getLengthEntries p <= getLengthEntries q.

(** Every type of [m] is still in [m'], with at least as many entries. *)
Definition dominated (m m' : gmap nat Parser) : Prop :=
  forall t old, m !! t = Some old ->
    exists q, m' !! t = Some q /\ getLengthEntries old <= getLengthEntries q.

Definition isUnsupported (e : ParserError) : bool :=
  bool_decide (type e = UNSUPPORTED_FORMAT).

Definition isOverride (e : ParserError) : bool :=
  bool_decide (type e = OVERRIDE).

Section WithEnvironment.

Variable construct : ParserType -> TraceFile -> Outcome ParserInstance.
Variable parse : ParserInstance -> Outcome ParserInstance.

(** No variant of [PARSERS] accepts the file. *)
Definition rejected (f : TraceFile) : bool :=
  match FactorySpec.firstAccepted construct parse PARSERS f with
  | None => true
  | Some _ => false
  end.

(** What a file is reported with when nothing it puts forward is used:
    an OVERRIDE error per candidate, or UNSUPPORTED_FORMAT. *)
Definition reloadErrors (f : TraceFile) : list ParserError :=
  match FactorySpec.firstAccepted construct parse PARSERS f with
  | Some instance => map FactorySpec.overrideError (FactorySpec.candidates instance)
  | None => [FactorySpec.unsupportedError f]
  end.

(** The pair comes from one of [files]: its parser is a candidate of
    the instance of the first variant accepting its file. *)
Definition putForward (files : list TraceFile) (fp : TraceFile * Parser) : Prop :=
  fst fp ∈ files /\
  exists instance,
    FactorySpec.firstAccepted construct parse PARSERS (fst fp) = Some instance /\
    snd fp ∈ FactorySpec.candidates instance.

End WithEnvironment.

End FactoryInvariants.

(** ** The common timestamp type of a pipeline *)

Module PipelineTimestamps.

Import Pipeline.

Section WithTimestamps.

(** [Parser.getTimestamps(type)]: the timestamps of a parser in one
    domain, [undefined] when it has none there. *)
Variable Timestamps : Type.
Variable getTimestamps : Parser -> TimestampType -> option Timestamps.

Definition isDefined {A : Type} (value : option A) : bool :=
  match value with
  | Some _ => true
  | None => false
  end.

(** The assignment [this.commonTimestampType = type]. *)
Definition setCommonTimestampType (tp : TracePipeline) (t : TimestampType)
  : TracePipeline :=
  mkTracePipeline (parserFactory tp) (parsers tp) (files tp) (traces tp) (Some t).

(** The loop [for (const type of priorityOrder)] of
    [getCommonTimestampType], ending in the [throw]. *)
Fixpoint findCommonTimestampType (priorityOrder : list TimestampType)
    (tp : TracePipeline) : Outcome TimestampType * TracePipeline :=
  match priorityOrder with
  | [] =>
      (Throws (Error "Failed to find common timestamp type across all traces"), tp)
  | type :: rest =>
      if forallb (fun it => isDefined (getTimestamps it type)) (parsers tp)
      then (Returns type, setCommonTimestampType tp type)
      else findCommonTimestampType rest tp
  end.

(** [getCommonTimestampType()]. *)
Definition getCommonTimestampType (tp : TracePipeline)
  : Outcome TimestampType * TracePipeline :=
  match commonTimestampType tp with
  | Some t => (Returns t, tp)
  | None => findCommonTimestampType [REAL; ELAPSED] tp
  end.

(** All parsers of the pipeline have timestamps in the domain [t]. *)
Definition allHave (tp : TracePipeline) (t : TimestampType) : Prop :=
  forall p, p ∈ parsers tp -> is_Some (getTimestamps p t).

End WithTimestamps.

Arguments isDefined {A} value.

End PipelineTimestamps.

Module PipelineInvariants.

(** The last parser of trace type [t] in a list. *)
Definition lastOfType (t : nat) (ps : list Parser) : option Parser :=
  last (List.filter (fun p => (getTraceType p =? t)%nat) ps).

(** A parser of trace type [t] occurs in the list. *)
Definition hasType (t : nat) (ps : list Parser) : bool :=
  existsb (fun p => (getTraceType p =? t)%nat) ps.

End PipelineInvariants.

(** ** More of the SurfaceFlinger presenter *)

Module PresenterViews.

Definition hierarchyId (node : HierarchyTreeNode) : string :=
  match node with mkHierarchyTreeNode id _ _ _ _ => id end.

(** [updatePinnedIds(newId)], on the field [pinnedIds]. *)
Definition updatePinnedIds (pinnedIds : list string) (newId : string)
  : list string :=
  if Presenter.includes pinnedIds newId then
    List.filter (fun pinned => negb (String.eqb pinned newId)) pinnedIds
  else
    pinnedIds ++ [newId].

(** [getPinnedItems(tree)]: the inner fixpoint is the loop over the
    children. *)
Fixpoint getPinnedItems (pinnedIds : list string) (tree : HierarchyTreeNode)
  : list HierarchyTreeNode :=
  match tree with
  | mkHierarchyTreeNode id _ _ _ children =>
      let pinnedNodes :=
        if Presenter.includes pinnedIds id then [tree] else [] in
      (fix loop (pinnedNodes : list HierarchyTreeNode)
                (rest : list HierarchyTreeNode) : list HierarchyTreeNode :=
         match rest with
         | [] => pinnedNodes
         | child :: rest =>
             loop (pinnedNodes ++ getPinnedItems pinnedIds child) rest
         end) pinnedNodes children
  end.

(** The fields [onPinnedItemChange] works on: [pinnedItems],
    [pinnedIds], [uiData.pinnedItems], and the pinned items of each
    copy of the UI data handed to the view, latest last. *)
Record Pins : Type := mkPins {
  pinnedItems : list HierarchyTreeNode;
  pinnedIds : list string;
  uiData_pinnedItems : list HierarchyTreeNode;
  notified : list (list HierarchyTreeNode)
}.

(** [onPinnedItemChange(pinnedItem)]. *)
Definition onPinnedItemChange (st : Pins) (pinnedItem : HierarchyTreeNode) : Pins :=
  let pinnedId := hierarchyId pinnedItem in
  let pinnedItems' :=
    if Presenter.includes (map hierarchyId (pinnedItems st)) pinnedId then
      List.filter (fun pinned => negb (String.eqb (hierarchyId pinned) pinnedId))
                  (pinnedItems st)
    else pinnedItems st ++ [pinnedItem] in
  let pinnedIds' := updatePinnedIds (pinnedIds st) pinnedId in
  mkPins pinnedItems' pinnedIds' pinnedItems' (notified st ++ [pinnedItems']).

(** [String.prototype.split(separator)] for a separator of one
    character. *)
Fixpoint split (separator : ascii) (s : string) : list string :=
  match s with
  | EmptyString => [EmptyString]
  | String c rest =>
      if Ascii.eqb c separator then EmptyString :: split separator rest
      else
        match split separator rest with
        | [] => [String c EmptyString]
        | part :: parts => String c part :: parts
        end
  end.

(** [SfLayerSummary] and [SfSummaryProperty] of
    [viewers/common/curated_properties]. *)
Record SfLayerSummary : Type := mkSfLayerSummary {
  layerId : string;
  nodeId : string;
  summaryName : option string
}.

Record SfSummaryProperty : Type := mkSfSummaryProperty {
  key : string;
  simpleValue : option string;
  layerValues : option (list SfLayerSummary)
}.

Section WithFormatter.

Variable formattedValue : PropertyTreeNode -> string.

(** [mapNodeArrayToString(nodes)]. *)
Definition mapNodeArrayToString (nodes : list PropertyTreeNode) : string :=
  String.concat ", " (map formattedValue nodes).

(** [getLayerSummary(layer)]: [const [layerId, name] = nodeId.split(' ')]
    takes the first two parts; the first always exists. *)
Definition getLayerSummary (layer : PropertyTreeNode) : SfLayerSummary :=
  let nodeId := formattedValue layer in
  let parts := split " " nodeId in
  mkSfLayerSummary (nth 0 parts EmptyString) nodeId (parts !! 1).

(** One of the three blocks of [getSummaryOfVisibility] that list
    layers. *)
Definition pushLayers (tree : PropertyTreeNode) (property label : string)
    (summary : list SfSummaryProperty) : list SfSummaryProperty :=
  match getChildByName tree property with
  | Some node =>
      let layers := getAllChildren node in
      if (0 <? length layers)%nat then
        summary ++ [mkSfSummaryProperty label None
                      (Some (map getLayerSummary layers))]
      else summary
  | None => summary
  end.

(** [getSummaryOfVisibility(tree)]. *)
Definition getSummaryOfVisibility (tree : PropertyTreeNode)
  : list SfSummaryProperty :=
  let summary := [] in
  let summary :=
    match getChildByName tree "visibilityReason" with
    | Some visibilityReason =>
        if (0 <? length (getAllChildren visibilityReason))%nat then
          let reason := mapNodeArrayToString (getAllChildren visibilityReason) in
          summary ++ [mkSfSummaryProperty "Invisible due to" (Some reason) None]
        else summary
    | None => summary
    end in
  let summary := pushLayers tree "occludedBy" "Occluded by" summary in
  let summary :=
    pushLayers tree "partiallyOccludedBy" "Partially occluded by" summary in
  let summary := pushLayers tree "coveredBy" "Covered by" summary in
  summary.

End WithFormatter.

(** The strings [getDisplays] slices and compares are JavaScript
    strings: sequences of UTF-16 code units.  [slice] counts code units
    and [<] compares code unit by code unit, so they are kept as such
    here. *)
Definition JsString : Type := list N.

(** The code units of a string literal of the source; the literals of
    [getDisplays] are ASCII, one code unit per character. *)
Definition codeUnits (literal : string) : JsString :=
  map N_of_ascii (list_ascii_of_string literal).

(** [`${n}`] for a count: its decimal digits. *)
Definition numberToString (n : nat) : JsString := codeUnits (pretty n).

(** The fields of a [UiRect] that [getDisplays] reads. *)
Record UiRect : Type := mkUiRect {
  rectId : JsString;
  rectGroupId : nat;
  rectLabel : JsString;
  rectIsDisplay : bool
}.

(** [DisplayIdentifier.displayId] is a string or, for an offscreen
    display, the number [-1]. *)
Inductive DisplayId : Type :=
| DisplayIdString (id : JsString)
| DisplayIdNumber (n : Z).

Record DisplayIdentifier : Type := mkDisplayIdentifier {
  displayId : DisplayId;
  groupId : nat;
  displayName : JsString
}.

(** [s.slice(start, end)] for [0 <= start] and [0 <= end]: the code
    units at positions [start], ..., [end - 1], as far as they exist. *)
Definition slice (start finish : nat) (s : JsString) : JsString :=
  drop start (take finish s).

(** [a < b] on strings: the first code unit in which they differ
    decides; a proper prefix is smaller. *)
Fixpoint jsLtb (a b : JsString) : bool :=
  match a, b with
  | _, [] => false
  | [], _ :: _ => true
  | x :: a', y :: b' =>
      if (x <? y)%N then true
      else if (y <? x)%N then false
      else jsLtb a' b'
  end.

(** The comparator handed to [ids.sort]. *)
Definition byName (a b : DisplayIdentifier) : Z :=
  if jsLtb (displayName a) (displayName b) then -1
  else if jsLtb (displayName b) (displayName a) then 1
  else 0.

(** [ids.sort(byName)]: [Array.prototype.sort] is stable, so with this
    comparator the result is the stable ascending sort, here by
    insertion from the right: an element moves behind those the
    comparator puts strictly before it. *)
Fixpoint insertByName (x : DisplayIdentifier) (sorted : list DisplayIdentifier)
  : list DisplayIdentifier :=
  match sorted with
  | [] => [x]
  | y :: rest =>
      if (0 <? byName x y)%Z
      then y :: insertByName x rest
      else x :: y :: rest
  end.

Definition sortByName (ids : list DisplayIdentifier) : list DisplayIdentifier :=
  fold_right insertByName [] ids.

(** The first loop of [getDisplays]: one identifier per display rect. *)
Definition displayIdsOf (rects : list UiRect) : list DisplayIdentifier :=
  fold_left
    (fun ids rect =>
       if negb (rectIsDisplay rect) then ids
       else
         let displayId := slice 10 (List.length (rectId rect)) (rectId rect) in
         ids ++ [mkDisplayIdentifier (DisplayIdString displayId)
                   (rectGroupId rect) (rectLabel rect)])
    rects [].

(** The name given to the [count]-th offscreen display. *)
Definition offscreenName (count : nat) : JsString :=
  codeUnits "Offscreen Display"
  ++ (if (1 <? count)%nat then codeUnits " " ++ numberToString count else []).

(** The second loop: one identifier per group that has a rect but no
    identifier yet; the state is [ids] and [offscreenDisplayCount]. *)
Definition offscreenIdsOf (rects : list UiRect)
    (start : list DisplayIdentifier * nat) : list DisplayIdentifier * nat :=
  fold_left
    (fun (state : list DisplayIdentifier * nat) rect =>
       let (ids, offscreenDisplayCount) := state in
       if rectIsDisplay rect then state
       else if negb (existsb (fun identifier =>
                                (groupId identifier =? rectGroupId rect)%nat) ids)
       then
         let offscreenDisplayCount := S offscreenDisplayCount in
         (ids ++ [mkDisplayIdentifier (DisplayIdNumber (-1)) (rectGroupId rect)
                    (offscreenName offscreenDisplayCount)],
          offscreenDisplayCount)
       else state)
    rects start.

(** [getDisplays(rects)]. *)
Definition getDisplays (rects : list UiRect) : list DisplayIdentifier :=
  let ids := displayIdsOf rects in
  let (ids, _) := offscreenIdsOf rects (ids, 0) in
  sortByName ids.

End PresenterViews.

Module PresenterViewsSpec.

Import PresenterViews.

(** The nodes of a hierarchy tree, parents before children, children in
    order. *)
Fixpoint preorder (tree : HierarchyTreeNode) : list HierarchyTreeNode :=
  match tree with
  | mkHierarchyTreeNode _ _ _ _ children =>
      tree :: (fix all (rest : list HierarchyTreeNode) : list HierarchyTreeNode :=
                 match rest with
                 | [] => []
                 | child :: rest => preorder child ++ all rest
                 end) children
  end.

(** [NodeOf tree n]: [n] is [tree] or one of its descendants. *)
Inductive NodeOf (tree : HierarchyTreeNode) : HierarchyTreeNode -> Prop :=
| NodeOf_root : NodeOf tree tree
| NodeOf_child parent n :
    NodeOf tree parent -> n ∈ hierarchyChildren parent -> NodeOf tree n.

(** The dictionary order of strings by UTF-16 code units: the empty
    string comes first, and two strings that start alike are ordered by
    what follows. *)
Inductive CodeUnitsLe : JsString -> JsString -> Prop :=
| CodeUnitsLe_nil b : CodeUnitsLe [] b
| CodeUnitsLe_lt x y a b : (x < y)%N -> CodeUnitsLe (x :: a) (y :: b)
| CodeUnitsLe_eq x a b : CodeUnitsLe a b -> CodeUnitsLe (x :: a) (x :: b).




(** The character does not occur in the string. *)
Fixpoint lacks (c : ascii) (s : string) : Prop :=
  match s with
  | EmptyString => True
  | String c' rest => c' <> c /\ lacks c rest
  end.

(** The property exists in the tree and has at least one child. *)
Definition hasListed (tree : PropertyTreeNode) (property : string) : bool :=
  match getChildByName tree property with
  | Some node => (0 <? length (getAllChildren node))%nat
  | None => false
  end.



End PresenterViewsSpec.

(** ** Layer snapshots of the unified format
       ([parsers/perfetto/parser_surface_flinger.ts]) *)

Module ParserSurfaceFlingerPerfetto.

(** The argument columns of a row of the query result. *)
Record Arg : Type := mkArg {
  argKey : string;
  value_type : string;
  int_value : option Z;
  real_value : option float;
  string_value : option string
}.

(** A row of the layers query: its [layer_id] and its argument. *)
Record LayerRow : Type := mkLayerRow {
  layer_id : nat;
  rowArg : Arg
}.

(** A [FakeProtoBuilder] is known by the arguments added to it so far,
    in order; a [Map<number, FakeProtoBuilder>] keeps its keys in
    insertion order. *)
Abbreviation Builder := (list Arg) (only parsing).
Abbreviation BuilderMap := (list (nat * list Arg)) (only parsing).

Definition has (m : BuilderMap) (layerId : nat) : bool :=
  existsb (fun entry => (fst entry =? layerId)%nat) m.

(** [builder.addArg(...)] on the builder stored under [layerId]. *)
Fixpoint addArgTo (m : BuilderMap) (layerId : nat) (a : Arg) : BuilderMap :=
  match m with
  | [] => []
  | (k, builder) :: rest =>
      if (k =? layerId)%nat then (k, builder ++ [a]) :: rest
      else (k, builder) :: addArgTo rest layerId a
  end.

(** The closure [getBuilder] followed by [addArg], for one row. *)
Definition addRow (m : BuilderMap) (row : LayerRow) : BuilderMap :=
  let m := if negb (has m (layer_id row)) then m ++ [(layer_id row, [])] else m in
  addArgTo m (layer_id row) (rowArg row).

(** The loop over the rows of [querySnapshotLayers]. *)
Definition groupRows (rows : list LayerRow) : BuilderMap :=
  fold_left addRow rows [].

Section WithBuilder.

(** [FakeProto] and [FakeProtoBuilder.build()], declared in
    [parsers/perfetto/fake_proto_builder]. *)
Variable FakeProto : Type.
Variable build : list Arg -> FakeProto.

(** [querySnapshotLayers(index)], given the rows the query returns. *)
Definition querySnapshotLayers (rows : list LayerRow) : list FakeProto :=
  map (fun entry => build (snd entry)) (groupRows rows).

End WithBuilder.

(** The arguments of the rows of one layer, in row order. *)
Definition argsOfLayer (layerId : nat) (rows : list LayerRow) : list Arg :=
  map rowArg (List.filter (fun row => (layer_id row =? layerId)%nat) rows).

End ParserSurfaceFlingerPerfetto.

(** ** More sample inputs *)

Module MoreSamples.

Import Samples.

(** The sample variants, with the two transition parsers added. *)
Definition constructWithTransitions (k : ParserType) (f : TraceFile)
  : Outcome ParserInstance :=
  match k with
  | ParserTransitionsWm =>
      if String.eqb (fileName f) "wm_transition_trace.winscope"
      then Returns (PlainParser (mkParser WM_TRANSITION [getDescriptor f] 4))
      else Throws (Error "wrong magic number")
  | ParserTransitionsShell =>
      if String.eqb (fileName f) "shell_transition_trace.winscope"
      then Returns (PlainParser (mkParser SHELL_TRANSITION [getDescriptor f] 3))
      else Throws (Error "wrong magic number")
  | _ => construct k f
  end.

(** A factory of derived parsers: one transition parser when both
    sub-traces are there. *)
Definition deriveTransition (accepted : list Parser) : Outcome (list Parser) :=
  if PipelineInvariants.hasType WM_TRANSITION accepted
     && PipelineInvariants.hasType SHELL_TRANSITION accepted
  then Returns [mkParser TRANSITION ["transitions"] 4]
  else Returns [].

Definition transitionFiles : list TraceFile :=
  [file "wm_transition_trace.winscope"; file "sf_5.winscope";
   file "shell_transition_trace.winscope"].

(** Timestamps of the sample parsers: every parser has elapsed
    timestamps, only layer traces have real ones. *)
Definition sampleTimestamps (p : Parser) (t : Pipeline.TimestampType)
  : option (list nat) :=
  match t with
  | Pipeline.REAL =>
      if (getTraceType p =? SURFACE_FLINGER)%nat
      then Some (seq 1000 (getLengthEntries p)) else None
  | Pipeline.ELAPSED => Some (seq 0 (getLengthEntries p))
  end.

Definition loadedPipeline : Pipeline.TracePipeline :=
  Pipeline.mkTracePipeline {[SURFACE_FLINGER := sf5; WINDOW_MANAGER := wm2]}
    [sf5; wm2] ∅ {[SURFACE_FLINGER := sf5; WINDOW_MANAGER := wm2]} None.

(** A factory that has loaded the layer trace and the window-manager
    trace. *)
Definition loadedStore : Factory.Store Log :=
  Factory.mkStore {[SURFACE_FLINGER := sf5; WINDOW_MANAGER := wm2]} [] [] [].

Definition pinsOfLayer : PresenterViews.Pins :=
  PresenterViews.mkPins [layerNodeNew] ["layer"] [layerNodeNew] [].

(** The old layer with a property the new one no longer has. *)
Definition layerOldWithMore : PropertyTreeNode :=
  mkPropertyTreeNode "layer" "layer" PROTO VUndefined
    [leaf "name" PROTO (VString "Task=7#41");
     leaf "dpiX" PROTO (VNumber 0);
     leaf "isVisible" CALCULATED (VBoolean false);
     leaf "flags" PROTO (VString "FLAG_B");
     mkPropertyTreeNode "layer.bounds" "bounds" PROTO VUndefined
       [leaf "left" PROTO (VNumber 0); leaf "top" PROTO (VNumber 1)];
     leaf "cornerRadius" PROTO (VNumber 1)].

Definition rect (id : string) (group : nat) (label : string) (isDisplay : bool)
  : PresenterViews.UiRect :=
  PresenterViews.mkUiRect (PresenterViews.codeUnits id) group
    (PresenterViews.codeUnits label) isDisplay.

Definition sampleRects : list PresenterViews.UiRect :=
  [rect "Display - 4619827259835644672" 0 "Display - main" true;
   rect "42 Task=7#42" 0 "Task=7#42" false;
   rect "51 Mirror#51" 3 "Mirror#51" false;
   rect "52 Mirror#52" 3 "Mirror#52" false;
   rect "60 Cast#60" 5 "Cast#60" false].

(** Two displays whose labels are U+FF21 (one code unit, FF21) and
    U+1F600 (the surrogate pair D83D DE00): by code units the second
    label is the smaller one. *)
Definition wideLabelRects : list PresenterViews.UiRect :=
  [PresenterViews.mkUiRect (PresenterViews.codeUnits "Display - 1") 0
     [0xFF21%N] true;
   PresenterViews.mkUiRect (PresenterViews.codeUnits "Display - 2") 1
     [0xD83D%N; 0xDE00%N] true].

End MoreSamples.

(** Splits a membership hypothesis of a concrete list into its cases. *)
Ltac each_child H :=
  repeat (apply elem_of_cons in H as [-> | H]); [.. | now apply elem_of_nil in H].


(** * Properties *)

(** ** The parser factory *)

Module FactoryFacts.

Import Factory FactorySpec.

Section WithEnvironment.

Variable World : Type.
Variable construct : ParserType -> TraceFile -> Outcome ParserInstance.
Variable parse : ParserInstance -> Outcome ParserInstance.

Implicit Types (s : Store World) (p : Parser) (f : TraceFile).

Local Abbreviation never_throws := (FactorySpec.never_throws (World := World)).
Local Abbreviation steady := (FactorySpec.steady (World := World)).
Local Abbreviation world_blind := (FactorySpec.world_blind (World := World)).

Lemma shouldUseParser_fresh s p :
  this_parsers s !! getTraceType p = None ->
  shouldUseParser p s = (Returns true, s).
Proof.
  intros Hnone. unfold shouldUseParser, bind, this_parsers_get.
  now rewrite Hnone.
Qed.

Lemma shouldUseParser_longer s p old :
  this_parsers s !! getTraceType p = Some old ->
  getLengthEntries old < getLengthEntries p ->
  shouldUseParser p s
  = (Returns true, withErrors s (errors s ++ [overrideError old])).
Proof.
  intros Hold Hlt. unfold shouldUseParser, bind, this_parsers_get.
  rewrite Hold. apply Nat.ltb_lt in Hlt. now rewrite Hlt.
Qed.

Lemma shouldUseParser_not_longer s p old :
  this_parsers s !! getTraceType p = Some old ->
  getLengthEntries p <= getLengthEntries old ->
  shouldUseParser p s
  = (Returns false, withErrors s (errors s ++ [overrideError p])).
Proof.
  intros Hold Hle. unfold shouldUseParser, bind, this_parsers_get.
  rewrite Hold. apply Nat.ltb_ge in Hle. now rewrite Hle.
Qed.

(** C1. Conflict arbitration: when the map already holds a parser
    [old] under the trace type of the new parser, a strictly longer
    new parser replaces [old] in the map and is added to the result,
    and exactly one OVERRIDE error carrying the descriptors and type
    of [old] is appended; otherwise (fewer or equal entries) the map
    and the result are unchanged, the new parser is rejected, and
    exactly one OVERRIDE error carrying the descriptors and type of
    the new parser is appended. *)
Theorem conflict_arbitration s p old f :
  this_parsers s !! getTraceType p = Some old ->
  (getLengthEntries old < getLengthEntries p ->
     fst (shouldUseParser p s) = Returns true /\
     maybeAddParser p f s
     = (Returns (),
        mkStore (<[getTraceType p := p]> (this_parsers s))
                (errors s ++
                   [mkParserError OVERRIDE (Some (join (getDescriptors old)))
                                  (Some (getTraceType old))])
                (parsers s ++ [(f, p)])
                (world s))) /\
  (getLengthEntries p <= getLengthEntries old ->
     fst (shouldUseParser p s) = Returns false /\
     maybeAddParser p f s
     = (Returns (),
        mkStore (this_parsers s)
                (errors s ++
                   [mkParserError OVERRIDE (Some (join (getDescriptors p)))
                                  (Some (getTraceType p))])
                (parsers s)
                (world s))).
Proof.
  intros Hold. split; intros Hcmp.
  - split.
    + now rewrite (shouldUseParser_longer s p old).
    + unfold maybeAddParser, bind at 1.
      now rewrite (shouldUseParser_longer s p old).
  - split.
    + now rewrite (shouldUseParser_not_longer s p old).
    + unfold maybeAddParser, bind at 1.
      now rewrite (shouldUseParser_not_longer s p old).
Qed.

(** *** Code that cannot throw *)

Lemma never_throws_ret {A : Type} (a : A) : never_throws (ret a).
Proof. intros s. now exists a, s. Qed.

Lemma never_throws_modify g : never_throws (modify (World := World) g).
Proof. intros s. now exists tt, (g s). Qed.

Lemma never_throws_bind {A B : Type} (m : M World A) (k : A -> M World B) :
  never_throws m -> (forall a, never_throws (k a)) -> never_throws (bind m k).
Proof.
  intros Hm Hk s. destruct (Hm s) as (a & s' & Hms).
  destruct (Hk a s') as (b & s'' & Hks).
  exists b, s''. unfold bind. now rewrite Hms.
Qed.

Lemma never_throws_try_catch {A : Type} (body : M World A) handler :
  (forall e, never_throws (handler e)) -> never_throws (try_catch body handler).
Proof.
  intros Hh s. unfold try_catch.
  destruct (body s) as [[a | e] s'].
  - now exists a, s'.
  - apply Hh.
Qed.

Lemma never_throws_shouldUseParser p : never_throws (shouldUseParser (World := World) p).
Proof.
  intros s. unfold shouldUseParser, bind, this_parsers_get.
  destruct (this_parsers s !! getTraceType p) as [old |]; [| now eexists _, _].
  destruct (getLengthEntries old <? getLengthEntries p); now eexists _, _.
Qed.

Lemma never_throws_maybeAddParser p f : never_throws (maybeAddParser (World := World) p f).
Proof.
  apply never_throws_bind; [apply never_throws_shouldUseParser |].
  intros [|]; [| apply never_throws_ret].
  apply never_throws_bind; intros; apply never_throws_modify.
Qed.

Lemma never_throws_forEach {A : Type} (items : list A) (body : A -> M World unit) :
  (forall it, never_throws (body it)) -> never_throws (forEach items body).
Proof.
  intros Hbody. induction items as [| it rest IH]; simpl.
  - apply never_throws_ret.
  - apply never_throws_bind; auto.
Qed.

Lemma never_throws_addCandidates instance f :
  never_throws (addCandidates (World := World) instance f).
Proof. apply never_throws_forEach. intros it. apply never_throws_maybeAddParser. Qed.

Lemma addCandidates_returns instance f s :
  addCandidates instance f s = (Returns (), snd (addCandidates instance f s)).
Proof.
  destruct (never_throws_addCandidates instance f s) as ([] & s' & Hs).
  now rewrite Hs.
Qed.

Lemma maybeAddParser_returns p f s :
  maybeAddParser p f s = (Returns (), snd (maybeAddParser p f s)).
Proof.
  destruct (never_throws_maybeAddParser p f s) as ([] & s' & Hs).
  now rewrite Hs.
Qed.

Lemma addCandidates_plain p f s :
  addCandidates (PlainParser p) f s = maybeAddParser p f s.
Proof.
  unfold addCandidates; simpl. unfold bind.
  rewrite (maybeAddParser_returns p f s). reflexivity.
Qed.

(** *** The inner loop finds the first accepting variant *)

Lemma tryParserTypes_firstAccepted types f s :
  tryParserTypes construct parse types f s
  = match firstAccepted construct parse types f with
    | Some instance => (Returns true, snd (addCandidates instance f s))
    | None => (Returns false, s)
    end.
Proof.
  revert s. induction types as [| k rest IH]; intros s; simpl; [reflexivity |].
  unfold attempt, bind at 1, try_catch, bind at 1, lift.
  destruct (construct k f) as [instance | e]; simpl; [| apply IH].
  unfold bind at 1.
  destruct (parse instance) as [parsed | e]; simpl; [| apply IH].
  unfold bind at 1.
  destruct parsed as [parser | windowParsers].
  - rewrite <- addCandidates_plain, (addCandidates_returns (PlainParser parser) f s).
    reflexivity.
  - change (forEach windowParsers (fun it => maybeAddParser it f))
      with (addCandidates (World := World) (ViewCaptureParser windowParsers) f).
    rewrite (addCandidates_returns (ViewCaptureParser windowParsers) f s).
    reflexivity.
Qed.

Lemma firstAccepted_split pre k post f instance :
  Forall (fun k' => attempt construct parse k' f = None) pre ->
  attempt construct parse k f = Some instance ->
  firstAccepted construct parse (pre ++ k :: post) f = Some instance.
Proof.
  intros Hpre Hk. induction Hpre as [| k' pre Hk' _ IH]; simpl.
  - now rewrite Hk.
  - now rewrite Hk'.
Qed.

Lemma firstAccepted_none types f :
  Forall (fun k => attempt construct parse k f = None) types ->
  firstAccepted construct parse types f = None.
Proof.
  induction 1 as [| k rest Hk _ IH]; simpl; [reflexivity |].
  now rewrite Hk.
Qed.

Lemma notifyProgress_returns listener label percent s :
  notifyProgress listener label percent s
  = (Returns (), snd (notifyProgress listener label percent s)).
Proof. now destruct listener. Qed.

(** C2. Parser selection.  For a file [f] met at position [index], after
    the optional progress call: (1) if [k] is the first variant of
    [PARSERS] that accepts [f] (every variant before it fails in its
    construction or in [parse()]), the file is handled by adding the
    candidates of [k]'s instance and nothing else happens; (2) if no
    variant accepts [f], exactly one UNSUPPORTED_FORMAT error with the
    descriptor of [f] is appended and nothing else changes; (3) and in
    that case the loop goes on with the remaining files from that store. *)
Theorem parser_selection listener len index f s :
  let s0 := snd (notifyProgress listener "Parsing proto files" (percentage index len) s) in
  (forall pre k post instance,
      PARSERS = pre ++ k :: post ->
      Forall (fun k' => attempt construct parse k' f = None) pre ->
      attempt construct parse k f = Some instance ->
      processTraceFile construct parse listener len index f s
      = addCandidates instance f s0) /\
  (Forall (fun k => attempt construct parse k f = None) PARSERS ->
      processTraceFile construct parse listener len index f s
      = (Returns (),
         mkStore (this_parsers s0)
                 (errors s0 ++
                    [mkParserError UNSUPPORTED_FORMAT (Some (getDescriptor f)) None])
                 (parsers s0) (world s0)) /\
      forall rest,
        forEachTraceFile construct parse listener len index (f :: rest) s
        = forEachTraceFile construct parse listener len (S index) rest
            (mkStore (this_parsers s0)
                     (errors s0 ++
                        [mkParserError UNSUPPORTED_FORMAT (Some (getDescriptor f)) None])
                     (parsers s0) (world s0))).
Proof.
  intros s0. split.
  - intros pre k post instance Hsplit Hpre Hk.
    unfold processTraceFile, bind at 1.
    rewrite notifyProgress_returns. fold s0.
    unfold bind at 1. rewrite tryParserTypes_firstAccepted, Hsplit.
    rewrite (firstAccepted_split pre k post f instance Hpre Hk). simpl.
    unfold ret. now rewrite <- addCandidates_returns.
  - intros Hnone.
    assert (Hfile : processTraceFile construct parse listener len index f s
              = (Returns (),
                 mkStore (this_parsers s0)
                   (errors s0 ++
                      [mkParserError UNSUPPORTED_FORMAT (Some (getDescriptor f)) None])
                   (parsers s0) (world s0))).
    { unfold processTraceFile, bind at 1.
      rewrite notifyProgress_returns. fold s0.
      unfold bind at 1. rewrite tryParserTypes_firstAccepted.
      now rewrite (firstAccepted_none PARSERS f Hnone). }
    split; [exact Hfile |].
    intros rest. simpl. unfold bind at 1. now rewrite Hfile.
Qed.

(** *** The arrays only grow, and nothing throws *)

Lemma grows_refl s : grows s s.
Proof. split; reflexivity. Qed.

Lemma grows_trans s1 s2 s3 : grows s1 s2 -> grows s2 s3 -> grows s1 s3.
Proof. intros [He Hp] [He' Hp']. split; etrans; eauto. Qed.

Lemma steady_ret {A : Type} (a : A) : steady (ret a).
Proof. intros s. exists a, s. split; [reflexivity | apply grows_refl]. Qed.

Lemma steady_bind {A B : Type} (m : M World A) (k : A -> M World B) :
  steady m -> (forall a, steady (k a)) -> steady (bind m k).
Proof.
  intros Hm Hk s. destruct (Hm s) as (a & s' & Hms & Hg).
  destruct (Hk a s') as (b & s'' & Hks & Hg').
  exists b, s''. unfold bind. rewrite Hms. split; [exact Hks |].
  eapply grows_trans; eauto.
Qed.

Lemma steady_errors_push e : steady (errors_push (World := World) e).
Proof.
  intros s. eexists _, _. split; [reflexivity |].
  split; simpl; [apply prefix_app_r |]; reflexivity.
Qed.

Lemma steady_parsers_push f p : steady (parsers_push (World := World) f p).
Proof.
  intros s. eexists _, _. split; [reflexivity |].
  split; simpl; [| apply prefix_app_r]; reflexivity.
Qed.

Lemma steady_this_parsers_set t p : steady (this_parsers_set (World := World) t p).
Proof. intros s. eexists _, _. split; [reflexivity | split; reflexivity]. Qed.

Lemma steady_shouldUseParser p : steady (shouldUseParser (World := World) p).
Proof.
  intros s. unfold shouldUseParser, bind, this_parsers_get.
  destruct (this_parsers s !! getTraceType p) as [old |].
  - destruct (getLengthEntries old <? getLengthEntries p); simpl;
      eexists _, _; (split; [reflexivity |]);
      (split; simpl; [apply prefix_app_r |]; reflexivity).
  - eexists _, _. split; [reflexivity | apply grows_refl].
Qed.

Lemma steady_maybeAddParser p f : steady (maybeAddParser (World := World) p f).
Proof.
  apply steady_bind; [apply steady_shouldUseParser |].
  intros [|]; [| apply steady_ret].
  apply steady_bind; [apply steady_this_parsers_set |].
  intros _. apply steady_parsers_push.
Qed.

Lemma steady_forEach {A : Type} (items : list A) (body : A -> M World unit) :
  (forall it, steady (body it)) -> steady (forEach items body).
Proof.
  intros Hbody. induction items as [| it rest IH]; simpl.
  - apply steady_ret.
  - apply steady_bind; auto.
Qed.

Lemma steady_tryParserTypes types f :
  steady (tryParserTypes construct parse types f).
Proof.
  intros s. rewrite tryParserTypes_firstAccepted.
  destruct (firstAccepted construct parse types f) as [instance |].
  - destruct (steady_forEach (candidates instance)
                (fun it => maybeAddParser it f)
                (fun it => steady_maybeAddParser it f) s) as ([] & s' & Hs & Hg).
    exists true, s'. unfold addCandidates. now rewrite Hs.
  - exists false, s. split; [reflexivity | apply grows_refl].
Qed.

Lemma steady_notifyProgress listener label percent :
  steady (notifyProgress (World := World) listener label percent).
Proof.
  destruct listener; simpl; [| apply steady_ret].
  intros s. eexists _, _. split; [reflexivity | split; reflexivity].
Qed.

Lemma steady_processTraceFile listener len index f :
  steady (processTraceFile construct parse listener len index f).
Proof.
  apply steady_bind; [apply steady_notifyProgress |]. intros _.
  apply steady_bind; [apply steady_tryParserTypes |].
  intros [|]; simpl; [apply steady_ret | apply steady_errors_push].
Qed.

Lemma steady_forEachTraceFile listener len index files :
  steady (forEachTraceFile construct parse listener len index files).
Proof.
  revert index. induction files as [| f rest IH]; intros index; simpl.
  - apply steady_ret.
  - apply steady_bind; [apply steady_processTraceFile | auto].
Qed.

Lemma forEachTraceFile_app listener len index pre post s :
  forEachTraceFile construct parse listener len index (pre ++ post) s
  = bind (forEachTraceFile construct parse listener len index pre)
         (fun _ => forEachTraceFile construct parse listener len
                     (index + length pre) post) s.
Proof.
  revert index s. induction pre as [| f pre IH]; intros index s; simpl.
  - unfold bind, ret. now rewrite Nat.add_0_r.
  - unfold bind.
    destruct (processTraceFile construct parse listener len index f s)
      as [[[] | e] s1]; [| reflexivity].
    rewrite IH. unfold bind.
    now replace (index + S (length pre)) with (S index + length pre) by lia.
Qed.

(** *** Every error that arises is recorded *)

Lemma maybeAddParser_arbitrated p f s :
  this_parsers (snd (maybeAddParser p f s)) = fst (arbitrated (this_parsers s) p) /\
  errors (snd (maybeAddParser p f s))
  = errors s ++ snd (arbitrated (this_parsers s) p).
Proof.
  unfold arbitrated.
  destruct (this_parsers s !! getTraceType p) as [old |] eqn:Hold.
  - destruct (decide (getLengthEntries old < getLengthEntries p)) as [Hlt | Hge].
    + split; unfold maybeAddParser, bind at 1;
        rewrite (shouldUseParser_longer s p old Hold Hlt); reflexivity.
    + split; unfold maybeAddParser, bind at 1;
        rewrite (shouldUseParser_not_longer s p old Hold) by lia; reflexivity.
  - split; unfold maybeAddParser, bind at 1;
      rewrite (shouldUseParser_fresh s p Hold); cbn;
      [reflexivity | now rewrite app_nil_r].
Qed.

Lemma forEach_maybeAddParser_due ps f s :
  let s' := snd (forEach ps (fun it => maybeAddParser it f) s) in
  this_parsers s' = fst (dueForParsers (this_parsers s) ps) /\
  errors s' = errors s ++ snd (dueForParsers (this_parsers s) ps).
Proof.
  revert s. induction ps as [| p ps IH]; intros s; cbn [forEach dueForParsers].
  - cbn. split; [reflexivity | now rewrite app_nil_r].
  - unfold bind. rewrite (maybeAddParser_returns p f s).
    destruct (maybeAddParser_arbitrated p f s) as [Hm He].
    destruct (IH (snd (maybeAddParser p f s))) as [IHm IHe].
    cbv zeta. rewrite IHm, IHe, Hm, He.
    destruct (arbitrated (this_parsers s) p) as [m1 e1]. cbn [fst snd].
    destruct (dueForParsers m1 ps) as [m2 e2]. cbn [fst snd].
    now rewrite app_assoc.
Qed.

Lemma processTraceFile_due listener len index f s :
  exists s',
    processTraceFile construct parse listener len index f s = (Returns (), s') /\
    this_parsers s' = fst (dueForFile construct parse (this_parsers s) f) /\
    errors s' = errors s ++ snd (dueForFile construct parse (this_parsers s) f).
Proof.
  unfold processTraceFile, bind at 1. rewrite notifyProgress_returns.
  set (s0 := snd (notifyProgress listener "Parsing proto files"
                    (percentage index len) s)).
  assert (this_parsers s0 = this_parsers s /\ errors s0 = errors s) as [Hm He]
    by (subst s0; destruct listener; split; reflexivity).
  unfold bind at 1. rewrite tryParserTypes_firstAccepted. unfold dueForFile.
  destruct (firstAccepted construct parse PARSERS f) as [instance |]; cbn [negb].
  - eexists. split; [reflexivity |].
    destruct (forEach_maybeAddParser_due (candidates instance) f s0) as [H1 H2].
    unfold addCandidates. rewrite H1, H2, Hm, He. split; reflexivity.
  - eexists. split; [reflexivity |]. cbn. rewrite Hm, He. split; reflexivity.
Qed.

Lemma forEachTraceFile_due listener len index files s :
  exists s',
    forEachTraceFile construct parse listener len index files s = (Returns (), s') /\
    this_parsers s' = fst (dueForFiles construct parse (this_parsers s) files) /\
    errors s' = errors s ++ snd (dueForFiles construct parse (this_parsers s) files).
Proof.
  revert index s. induction files as [| f rest IH]; intros index s;
    cbn [forEachTraceFile dueForFiles].
  - exists s. cbn. repeat split. now rewrite app_nil_r.
  - destruct (processTraceFile_due listener len index f s) as (s1 & Hf & Hm & He).
    destruct (IH (S index) s1) as (s2 & Hrest & Hm2 & He2).
    exists s2. unfold bind. rewrite Hf, Hrest. split; [reflexivity |].
    rewrite Hm2, He2, Hm, He.
    destruct (dueForFile construct parse (this_parsers s) f) as [m1 e1].
    cbn [fst snd].
    destruct (dueForFiles construct parse m1 rest) as [m2 e2]. cbn [fst snd].
    split; [reflexivity | now rewrite app_assoc].
Qed.

Lemma unsupported_is_due m files f :
  f ∈ files ->
  firstAccepted construct parse PARSERS f = None ->
  unsupportedError f ∈ snd (dueForFiles construct parse m files).
Proof.
  intros Hin Hnone. revert m.
  induction files as [| g rest IH]; intros m; [now apply elem_of_nil in Hin |].
  cbn [dueForFiles].
  destruct (dueForFile construct parse m g) as [m1 e1] eqn:Hg.
  pose proof (fun H => IH H m1) as IH'.
  destruct (dueForFiles construct parse m1 rest) as [m2 e2]. cbn [snd] in *.
  apply elem_of_app.
  apply elem_of_cons in Hin as [<- | Hin]; [left | right; now apply IH'].
  unfold dueForFile in Hg. rewrite Hnone in Hg. injection Hg as _ <-.
  apply list_elem_of_here.
Qed.

(** C8. Error propagation totality.  For every file list, split
    anywhere as [pre ++ post], every listener and every behaviour of the
    variants' constructors and [parse()] (throwing included):
    [createParsers] returns and does not throw; what it returns is the
    final content of the two arrays; the errors and pairs gathered
    after the files of [pre] are kept, in order, at the front of the
    returned batch; and the returned errors are exactly the errors that
    arise during the run, in the order in which they arise -- one
    UNSUPPORTED_FORMAT error for each file that no variant accepts, one
    OVERRIDE error for the loser of each arbitration --, those of [pre]
    followed by those of [post].  In particular the error of every
    file that no variant accepts is in the batch. *)
Theorem error_propagation_totality pre post listener s :
  exists s_pre s',
    forEachTraceFile construct parse listener (length (pre ++ post)) 0 pre
      (resetLocals s) = (Returns (), s_pre) /\
    createParsers construct parse (pre ++ post) listener s
      = (Returns (parsers s', errors s'), s') /\
    errors s_pre `prefix_of` errors s' /\
    parsers s_pre `prefix_of` parsers s' /\
    errors s_pre = snd (dueForFiles construct parse (this_parsers s) pre) /\
    errors s'
    = errors s_pre ++ snd (dueForFiles construct parse (this_parsers s_pre) post) /\
    errors s' = snd (dueForFiles construct parse (this_parsers s) (pre ++ post)) /\
    (forall f, f ∈ pre ++ post ->
               firstAccepted construct parse PARSERS f = None ->
               unsupportedError f ∈ errors s').
Proof.
  destruct (steady_forEachTraceFile listener (length (pre ++ post)) 0 pre
              (resetLocals s)) as ([] & s_pre & Hpre & _).
  destruct (steady_forEachTraceFile listener (length (pre ++ post))
              (0 + length pre) post s_pre) as ([] & s' & Hpost & [He Hp]).
  assert (Hall : forEachTraceFile construct parse listener (length (pre ++ post))
                   0 (pre ++ post) (resetLocals s) = (Returns (), s')).
  { rewrite forEachTraceFile_app. unfold bind at 1. now rewrite Hpre. }
  destruct (forEachTraceFile_due listener (length (pre ++ post)) 0 pre
              (resetLocals s)) as (s1 & Hpre' & _ & Hdue_pre).
  rewrite Hpre in Hpre'. injection Hpre' as <-.
  destruct (forEachTraceFile_due listener (length (pre ++ post))
              (0 + length pre) post s_pre) as (s2 & Hpost' & _ & Hdue_post).
  rewrite Hpost in Hpost'. injection Hpost' as <-.
  destruct (forEachTraceFile_due listener (length (pre ++ post)) 0 (pre ++ post)
              (resetLocals s)) as (s3 & Hall' & _ & Hdue_all).
  rewrite Hall in Hall'. injection Hall' as <-.
  cbn in Hdue_pre, Hdue_all.
  exists s_pre, s'. split; [exact Hpre |]. split.
  { unfold createParsers, bind at 1, modify.
    change (mkStore (this_parsers s) [] [] (world s)) with (resetLocals s).
    unfold bind at 1. rewrite Hall. reflexivity. }
  repeat (split; [assumption |]).
  intros f Hin Hnone. rewrite Hdue_all. now apply unsupported_is_due.
Qed.

(** *** Code that neither reads nor writes the listener's world *)

Lemma withWorld_same s : withWorld s (world s) = s.
Proof. now destruct s. Qed.

Lemma world_blind_keeps {A : Type} (m : M World A) s :
  world_blind m -> world (snd (m s)) = world s.
Proof.
  intros Hm. pose proof (Hm s (world s)) as H.
  rewrite withWorld_same in H. rewrite H at 1. reflexivity.
Qed.

Lemma world_blind_ret {A : Type} (a : A) : world_blind (ret a).
Proof. intros s w. reflexivity. Qed.

Lemma world_blind_lift {A : Type} (o : Outcome A) : world_blind (lift o).
Proof. intros s w. reflexivity. Qed.

Lemma world_blind_bind {A B : Type} (m : M World A) (k : A -> M World B) :
  world_blind m -> (forall a, world_blind (k a)) -> world_blind (bind m k).
Proof.
  intros Hm Hk s w. unfold bind. rewrite Hm.
  destruct (m s) as [[a | e] s']; simpl; [apply Hk | reflexivity].
Qed.

Lemma world_blind_try_catch {A : Type} (body : M World A) handler :
  world_blind body -> (forall e, world_blind (handler e)) ->
  world_blind (try_catch body handler).
Proof.
  intros Hb Hh s w. unfold try_catch. rewrite Hb.
  destruct (body s) as [[a | e] s']; simpl; [reflexivity | apply Hh].
Qed.

Lemma world_blind_shouldUseParser p : world_blind (shouldUseParser (World := World) p).
Proof.
  intros s w. unfold shouldUseParser, bind, this_parsers_get. simpl.
  destruct (this_parsers s !! getTraceType p) as [old |]; [| reflexivity].
  destruct (getLengthEntries old <? getLengthEntries p); reflexivity.
Qed.

Lemma world_blind_maybeAddParser p f : world_blind (maybeAddParser (World := World) p f).
Proof.
  apply world_blind_bind; [apply world_blind_shouldUseParser |].
  intros [|]; [| apply world_blind_ret].
  apply world_blind_bind; intros; intros s w; reflexivity.
Qed.

Lemma world_blind_forEach {A : Type} (items : list A) (body : A -> M World unit) :
  (forall it, world_blind (body it)) -> world_blind (forEach items body).
Proof.
  intros Hbody. induction items as [| it rest IH]; simpl.
  - apply world_blind_ret.
  - apply world_blind_bind; auto.
Qed.

Lemma world_blind_tryParserTypes types f :
  world_blind (tryParserTypes construct parse types f).
Proof.
  induction types as [| k rest IH]; simpl; [apply world_blind_ret |].
  apply world_blind_bind; [| intros [|]; [apply world_blind_ret | exact IH]].
  apply world_blind_try_catch; [| intros; apply world_blind_ret].
  apply world_blind_bind; [apply world_blind_lift |]. intros instance.
  apply world_blind_bind; [apply world_blind_lift |]. intros parsed.
  apply world_blind_bind; [| intros; apply world_blind_ret].
  destruct parsed; [apply world_blind_maybeAddParser |].
  apply world_blind_forEach. intros it. apply world_blind_maybeAddParser.
Qed.

Lemma world_blind_processTraceFile len index f :
  world_blind (processTraceFile construct parse None len index f).
Proof.
  apply world_blind_bind; [apply world_blind_ret |]. intros _.
  apply world_blind_bind; [apply world_blind_tryParserTypes |].
  intros [|]; simpl; [apply world_blind_ret |]. intros s w. reflexivity.
Qed.

Lemma world_blind_forEachTraceFile len index files :
  world_blind (forEachTraceFile construct parse None len index files).
Proof.
  revert index. induction files as [| f rest IH]; intros index; simpl.
  - apply world_blind_ret.
  - apply world_blind_bind; [apply world_blind_processTraceFile | auto].
Qed.

Lemma processTraceFile_listener listener len index f s :
  processTraceFile construct parse (Some listener) len index f s
  = processTraceFile construct parse None len index f
      (withWorld s (onProgressUpdate listener "Parsing proto files"
                      (percentage index len) (world s))).
Proof. reflexivity. Qed.

Lemma forEachTraceFile_listener listener len index files s :
  forEachTraceFile construct parse (Some listener) len index files s
  = (fst (forEachTraceFile construct parse None len index files s),
     withWorld (snd (forEachTraceFile construct parse None len index files s))
       (progressCallsFrom listener len index (length files) (world s))).
Proof.
  revert index s. induction files as [| f rest IH]; intros index s.
  - simpl. unfold ret, progressCallsFrom. simpl. now rewrite withWorld_same.
  - cbn [forEachTraceFile]. unfold bind.
    rewrite processTraceFile_listener, world_blind_processTraceFile.
    destruct (processTraceFile construct parse None len index f s)
      as [[[] | e] s1] eqn:Hfile; simpl.
    + rewrite IH. simpl. unfold progressCallsFrom at 2. simpl.
      fold (progressCallsFrom listener len (S index) (length rest)).
      rewrite world_blind_forEachTraceFile. simpl.
      reflexivity.
    + (* unreachable: the iteration does not throw *)
      destruct (steady_processTraceFile None len index f s) as (a & s' & Hs & _).
      rewrite Hs in Hfile. discriminate.
Qed.

Lemma createParsers_unfold files listener s :
  createParsers construct parse files listener s
  = match forEachTraceFile construct parse listener (length files) 0 files
            (resetLocals s) with
    | (Returns _, s') => (Returns (parsers s', errors s'), s')
    | (Throws e, s') => (Throws e, s')
    end.
Proof. reflexivity. Qed.

Lemma progressCalls_delivered (listener : ProgressListener World) n (w : World) :
  progressCalls listener n w = delivered listener (expectedProgress n) w.
Proof.
  unfold progressCalls, progressCallsFrom, delivered, expectedProgress.
  generalize (seq 0 n) as indices. intros indices. revert w.
  induction indices as [| index indices IH]; intros w; [reflexivity |].
  cbn [map fold_left fst snd]. apply IH.
Qed.

(** C10. Progress-listener noninterference.  For every file list, the
    returned (parsers, errors) pair, the two arrays and the factory's
    map are the same with a listener as without one; without a listener
    the world is untouched, and with one it has received exactly the
    calls [onProgressUpdate('Parsing proto files', (index / n) * 100)]
    for [index = 0, ..., n - 1], in this order, [n] being the number of
    files and the percentage being computed in binary64 arithmetic. *)
Theorem progress_listener_noninterference files listener s :
  let observed := createParsers construct parse files (Some listener) s in
  let silent := createParsers construct parse files None s in
  fst observed = fst silent /\
  this_parsers (snd observed) = this_parsers (snd silent) /\
  errors (snd observed) = errors (snd silent) /\
  parsers (snd observed) = parsers (snd silent) /\
  world (snd silent) = world s /\
  world (snd observed)
  = delivered listener (expectedProgress (length files)) (world s).
Proof.
  intros observed silent. subst observed silent.
  rewrite <- progressCalls_delivered.
  rewrite !createParsers_unfold, forEachTraceFile_listener.
  pose proof (world_blind_keeps
                (forEachTraceFile construct parse None (length files) 0 files)
                (resetLocals s)
                (world_blind_forEachTraceFile _ _ _)) as Hkeep.
  destruct (forEachTraceFile construct parse None (length files) 0 files
              (resetLocals s)) as [[[] | e] s1];
    simpl in *; repeat split; auto.
Qed.

(** *** Loading without conflicts *)

Lemma PARSERS_complete k : k ∈ PARSERS.
Proof. destruct k; unfold PARSERS; set_solver. Qed.

Lemma firstAccepted_unique types k f instance :
  k ∈ types ->
  attempt construct parse k f = Some instance ->
  (forall k', k' <> k -> attempt construct parse k' f = None) ->
  firstAccepted construct parse types f = Some instance.
Proof.
  intros Hin Hk Hothers. induction types as [| k0 rest IH]; [set_solver |].
  simpl. destruct (decide (k0 = k)) as [-> | Hne].
  - now rewrite Hk.
  - rewrite (Hothers k0 Hne). apply IH. set_solver.
Qed.

Lemma insertAll_app ps qs m : insertAll (ps ++ qs) m = insertAll qs (insertAll ps m).
Proof. apply fold_left_app. Qed.

Lemma insertAll_lookup_other ps m t :
  t ∉ map getTraceType ps -> insertAll ps m !! t = m !! t.
Proof.
  revert m. induction ps as [| p ps IH]; intros m Hnot; [reflexivity |].
  simpl in *. rewrite IH by set_solver.
  apply lookup_insert_ne. set_solver.
Qed.

Lemma insertAll_lookup ps m p :
  NoDup (map getTraceType ps) -> p ∈ ps ->
  insertAll ps m !! getTraceType p = Some p.
Proof.
  revert m. induction ps as [| q ps IH]; intros m Hnd Hin; [set_solver |].
  simpl in *. apply NoDup_cons in Hnd as [Hq Hnd].
  apply elem_of_cons in Hin as [-> | Hin].
  - rewrite insertAll_lookup_other by exact Hq. apply lookup_insert_eq.
  - now apply IH.
Qed.

Lemma insertAll_dom ps m :
  dom (insertAll ps m) = dom m ∪ list_to_set (map getTraceType ps).
Proof.
  revert m. induction ps as [| p ps IH]; intros m; simpl.
  - set_solver.
  - rewrite IH, dom_insert_L. set_solver.
Qed.

Lemma insertAll_size ps m :
  NoDup (map getTraceType ps) ->
  (forall p, p ∈ ps -> m !! getTraceType p = None) ->
  size (insertAll ps m) = size m + length ps.
Proof.
  revert m. induction ps as [| p ps IH]; intros m Hnd Hfresh; simpl in *; [lia |].
  apply NoDup_cons in Hnd as [Hp Hnd].
  rewrite IH; [| exact Hnd |].
  - rewrite map_size_insert_None by (apply Hfresh; set_solver). lia.
  - intros q Hq. rewrite lookup_insert_ne; [apply Hfresh; set_solver |].
    intros Heq. apply Hp. rewrite Heq. apply list_elem_of_fmap_2. exact Hq.
Qed.

Lemma maybeAddParser_fresh s p f :
  this_parsers s !! getTraceType p = None ->
  maybeAddParser p f s
  = (Returns (),
     mkStore (<[getTraceType p := p]> (this_parsers s)) (errors s)
             (parsers s ++ [(f, p)]) (world s)).
Proof.
  intros Hfresh. unfold maybeAddParser, bind at 1.
  now rewrite shouldUseParser_fresh.
Qed.

Lemma forEach_maybeAddParser_fresh ps f s :
  NoDup (map getTraceType ps) ->
  (forall p, p ∈ ps -> this_parsers s !! getTraceType p = None) ->
  forEach ps (fun it => maybeAddParser it f) s
  = (Returns (),
     mkStore (insertAll ps (this_parsers s)) (errors s)
             (parsers s ++ map (pair f) ps) (world s)).
Proof.
  revert s. induction ps as [| p ps IH]; intros s Hnd Hfresh; simpl in *.
  - unfold ret. rewrite app_nil_r. now destruct s.
  - apply NoDup_cons in Hnd as [Hp Hnd].
    unfold bind. rewrite maybeAddParser_fresh by (apply Hfresh; set_solver).
    rewrite IH; simpl; [now rewrite <- app_assoc | exact Hnd |].
    intros q Hq. rewrite lookup_insert_ne; [apply Hfresh; set_solver |].
    intros Heq. apply Hp. rewrite Heq. apply list_elem_of_fmap_2. exact Hq.
Qed.

Lemma forEachTraceFile_conflict_free listener len files : forall instances index s,
  Forall2 (acceptedByOne construct parse) files instances ->
  NoDup (map getTraceType (concat (map candidates instances))) ->
  (forall p, p ∈ concat (map candidates instances) ->
             this_parsers s !! getTraceType p = None) ->
  exists w,
    forEachTraceFile construct parse listener len index files s
    = (Returns (),
       mkStore (insertAll (concat (map candidates instances)) (this_parsers s))
               (errors s)
               (parsers s ++ pairsOf files instances) w).
Proof.
  induction files as [| f files IH]; intros instances index s Hacc Hnd Hfresh.
  - apply Forall2_nil_inv_l in Hacc as ->. exists (world s). simpl.
    unfold ret, pairsOf. simpl. rewrite app_nil_r. now destruct s.
  - apply Forall2_cons_inv_l in Hacc as (instance & rest & Hf & Hacc & ->).
    simpl in Hnd, Hfresh. rewrite map_app in Hnd.
    apply NoDup_app in Hnd as (Hnd1 & Hdisj & Hnd2).
    destruct Hf as (k & Hk & Hothers).
    cbn [forEachTraceFile]. unfold bind at 1.
    unfold processTraceFile, bind at 1. rewrite notifyProgress_returns.
    set (s0 := snd (notifyProgress listener "Parsing proto files"
                      (percentage index len) s)).
    assert (Hs0 : this_parsers s0 = this_parsers s /\ errors s0 = errors s /\
                  parsers s0 = parsers s) by (subst s0; now destruct listener).
    destruct Hs0 as (Hm0 & He0 & Hp0).
    unfold bind at 1. rewrite tryParserTypes_firstAccepted.
    rewrite (firstAccepted_unique PARSERS k f instance
               (PARSERS_complete k) Hk Hothers).
    unfold addCandidates. rewrite forEach_maybeAddParser_fresh; cycle 1.
    { exact Hnd1. }
    { intros p Hp. rewrite Hm0. apply Hfresh. set_solver. }
    simpl.
    edestruct (IH rest (S index)
                 (mkStore (insertAll (candidates instance) (this_parsers s0))
                    (errors s0) (parsers s0 ++ map (pair f) (candidates instance))
                    (world s0))) as (w & Hrest); [exact Hacc | exact Hnd2 | |].
    { intros p Hp. simpl. rewrite insertAll_lookup_other.
      - rewrite Hm0. apply Hfresh. set_solver.
      - intros Hin. apply (Hdisj (getTraceType p)); [exact Hin |].
        apply list_elem_of_fmap_2. exact Hp. }
    exists w. rewrite Hrest. simpl.
    rewrite insertAll_app, Hm0, He0, Hp0. unfold pairsOf. simpl.
    now rewrite <- app_assoc.
Qed.

Lemma pairsOf_plain files instances :
  length files = length instances ->
  (forall instance, instance ∈ instances -> exists p, instance = PlainParser p) ->
  map fst (pairsOf files instances) = files.
Proof.
  revert instances. induction files as [| f files IH]; intros [| i instances] Hlen Hplain;
    simpl in *; try discriminate; [reflexivity |].
  destruct (Hplain i) as [p ->]; [set_solver |].
  unfold pairsOf in *. simpl. f_equal. apply IH; [lia |].
  intros instance Hin. apply Hplain. set_solver.
Qed.

Lemma pairsOf_parsers files instances :
  length files = length instances ->
  map snd (pairsOf files instances) = concat (map candidates instances).
Proof.
  revert instances. induction files as [| f files IH]; intros [| i instances] Hlen;
    simpl in *; try discriminate; [reflexivity |].
  unfold pairsOf in *. simpl. rewrite map_app, IH by lia. f_equal.
  rewrite map_map. simpl. apply map_id.
Qed.

(** C6 (as amended). Conflict-free load.  Let every file be accepted by
    exactly one variant, let the parsers these instances put forward
    (the parser itself, or the window parsers of a view capture) have
    pairwise distinct trace types, none of them already in the factory's
    map.  Then [createParsers] returns, in file order, one pair per
    parser put forward and no error at all; the pairs are exactly one
    per file when no instance is a view capture; and the map gains one
    entry per parser put forward, stored under its trace type. *)
Theorem conflict_free_load files instances listener s :
  Forall2 (acceptedByOne construct parse) files instances ->
  NoDup (map getTraceType (concat (map candidates instances))) ->
  (forall p, p ∈ concat (map candidates instances) ->
             this_parsers s !! getTraceType p = None) ->
  exists s',
    createParsers construct parse files listener s
    = (Returns (pairsOf files instances, []), s') /\
    map snd (pairsOf files instances) = concat (map candidates instances) /\
    ((forall instance, instance ∈ instances -> exists p, instance = PlainParser p) ->
     map fst (pairsOf files instances) = files) /\
    (forall p, p ∈ concat (map candidates instances) ->
               this_parsers s' !! getTraceType p = Some p) /\
    dom (this_parsers s')
    = dom (this_parsers s)
      ∪ list_to_set (map getTraceType (concat (map candidates instances))) /\
    size (this_parsers s')
    = size (this_parsers s) + length (concat (map candidates instances)).
Proof.
  intros Hacc Hnd Hfresh.
  destruct (forEachTraceFile_conflict_free listener (length files) files
              instances 0 (resetLocals s) Hacc Hnd Hfresh) as (w & Hrun).
  pose proof (Forall2_length _ _ _ Hacc) as Hlen.
  eexists. rewrite createParsers_unfold, Hrun. simpl.
  split; [reflexivity |]. simpl.
  split; [now apply pairsOf_parsers |].
  split; [intros Hplain; now apply pairsOf_plain |].
  split; [intros p Hp; now apply insertAll_lookup |].
  split; [apply insertAll_dom | now apply insertAll_size].
Qed.

End WithEnvironment.

End FactoryFacts.

(** ** Concrete runs of the factory *)

Module FactoryRuns.

Import Factory FactorySpec Samples.

Lemma conflict_arbitration_witness :
  maybeAddParser sf8 (file "sf_8.winscope")
    (mkStore {[SURFACE_FLINGER := sf5]} [] [(file "sf_5.winscope", sf5)] ([] : Log))
  = (Returns (),
     mkStore (<[SURFACE_FLINGER := sf8]> {[SURFACE_FLINGER := sf5]})
       [mkParserError OVERRIDE (Some "sf_5.winscope") (Some SURFACE_FLINGER)]
       [(file "sf_5.winscope", sf5); (file "sf_8.winscope", sf8)] [])
  /\
  maybeAddParser sf3b (file "sf_3_second.winscope")
    (mkStore {[SURFACE_FLINGER := sf3a]} [] [(file "sf_3_first.winscope", sf3a)] ([] : Log))
  = (Returns (),
     mkStore {[SURFACE_FLINGER := sf3a]}
       [mkParserError OVERRIDE (Some "sf_3_second.winscope") (Some SURFACE_FLINGER)]
       [(file "sf_3_first.winscope", sf3a)] []).
Proof.
  split.
  - refine (proj2 (proj1 (FactoryFacts.conflict_arbitration Log
             (mkStore {[SURFACE_FLINGER := sf5]} [] [(file "sf_5.winscope", sf5)] [])
             sf8 sf5 (file "sf_8.winscope") _) _)); [reflexivity | simpl; lia].
  - refine (proj2 (proj2 (FactoryFacts.conflict_arbitration Log
             (mkStore {[SURFACE_FLINGER := sf3a]} [] [(file "sf_3_first.winscope", sf3a)] [])
             sf3b sf3a (file "sf_3_second.winscope") _) _)); [reflexivity | simpl; lia].
Defined.

Lemma rejected_by_all_notes :
  Forall (fun k => attempt construct parse k (file "notes.txt") = None) PARSERS.
Proof. repeat constructor. Defined.

(** A file whose only candidate variant constructs but fails to parse is
    unsupported as well. *)
Lemma rejected_by_all_truncated :
  Forall (fun k => attempt construct parse k (file "truncated.winscope") = None) PARSERS.
Proof. repeat constructor. Defined.

Lemma parser_selection_witness :
  processTraceFile construct parse None 2 0 (file "sf_5.winscope") emptyStore
  = addCandidates (PlainParser sf5) (file "sf_5.winscope") emptyStore
  /\
  processTraceFile construct parse None 2 1 (file "notes.txt") emptyStore
  = (Returns (),
     mkStore ∅ [mkParserError UNSUPPORTED_FORMAT (Some "notes.txt") None] [] [])
  /\
  forEachTraceFile construct parse None 2 0
    [file "notes.txt"; file "sf_5.winscope"] emptyStore
  = forEachTraceFile construct parse None 2 1 [file "sf_5.winscope"]
      (mkStore ∅ [mkParserError UNSUPPORTED_FORMAT (Some "notes.txt") None] [] []).
Proof.
  split; [| split].
  - refine (proj1 (FactoryFacts.parser_selection Log construct parse None 2 0
                     (file "sf_5.winscope") emptyStore)
              [ParserAccessibility; ParserInputMethodClients;
               ParserInputMethodManagerService; ParserInputMethodService;
               ParserProtoLog; ParserScreenRecording; ParserScreenRecordingLegacy]
              ParserSurfaceFlinger
              [ParserTransactions; ParserWindowManager; ParserWindowManagerDump;
               ParserEventLog; ParserTransitionsWm; ParserTransitionsShell;
               ParserViewCapture]
              (PlainParser sf5) eq_refl _ eq_refl).
    repeat constructor.
  - exact (proj1 (proj2 (FactoryFacts.parser_selection Log construct parse None 2 1
                           (file "notes.txt") emptyStore)
                    rejected_by_all_notes)).
  - exact (proj2 (proj2 (FactoryFacts.parser_selection Log construct parse None 2 0
                           (file "notes.txt") emptyStore)
                    rejected_by_all_notes)
             [file "sf_5.winscope"]).
Defined.

Example percentage_1_of_4 : percentage 1 4 = 25%float.
Proof. reflexivity. Qed.

(** The 5-entry trace loaded first, the 8-entry trace second. *)
Example override_5_then_8 :
  fst (createParsers construct parse
         [file "sf_5.winscope"; file "sf_8.winscope"] None emptyStore)
  = Returns ([(file "sf_5.winscope", sf5); (file "sf_8.winscope", sf8)],
             [mkParserError OVERRIDE (Some "sf_5.winscope") (Some SURFACE_FLINGER)]).
Proof. reflexivity. Qed.

(** Equal entry counts: the first-loaded parser stays. *)
Example override_tie :
  createParsers construct parse
    [file "sf_3_first.winscope"; file "sf_3_second.winscope"] None emptyStore
  = (Returns ([(file "sf_3_first.winscope", sf3a)],
              [mkParserError OVERRIDE (Some "sf_3_second.winscope")
                 (Some SURFACE_FLINGER)]),
     mkStore {[SURFACE_FLINGER := sf3a]}
       [mkParserError OVERRIDE (Some "sf_3_second.winscope") (Some SURFACE_FLINGER)]
       [(file "sf_3_first.winscope", sf3a)] []).
Proof. reflexivity. Qed.

Lemma error_propagation_totality_witness :
  exists pairs,
    fst (createParsers construct parse
           [file "sf_5.winscope"; file "notes.txt";
            file "sf_8.winscope"; file "sf_3_first.winscope"]
           (Some recorder) emptyStore)
    = Returns
        (pairs,
         [mkParserError UNSUPPORTED_FORMAT (Some "notes.txt") None;
          mkParserError OVERRIDE (Some "sf_5.winscope") (Some SURFACE_FLINGER);
          mkParserError OVERRIDE (Some "sf_3_first.winscope")
            (Some SURFACE_FLINGER)]).
Proof.
  destruct (FactoryFacts.error_propagation_totality Log construct parse
              [file "sf_5.winscope"; file "notes.txt"]
              [file "sf_8.winscope"; file "sf_3_first.winscope"]
              (Some recorder) emptyStore)
    as (s_pre & s' & _ & Hrun & _ & _ & _ & _ & Hall & _).
  exists (parsers s'). cbn [app] in Hrun. rewrite Hrun. cbn [fst].
  rewrite Hall. reflexivity.
Defined.

Lemma progress_listener_noninterference_witness :
  fst (createParsers construct parse
         [file "sf_5.winscope"; file "notes.txt"; file "wm.winscope"]
         (Some recorder) emptyStore)
  = fst (createParsers construct parse
           [file "sf_5.winscope"; file "notes.txt"; file "wm.winscope"]
           None emptyStore) /\
  world (snd (createParsers construct parse
                [file "sf_5.winscope"; file "notes.txt"; file "wm.winscope"]
                (Some recorder) emptyStore))
  = [("Parsing proto files", 0%float);
     ("Parsing proto files", 0x1.0aaaaaaaaaaaap+5%float);
     ("Parsing proto files", 0x1.0aaaaaaaaaaaap+6%float)].
Proof.
  destruct (FactoryFacts.progress_listener_noninterference Log construct parse
              [file "sf_5.winscope"; file "notes.txt"; file "wm.winscope"]
              recorder emptyStore)
    as (Hresult & _ & _ & _ & _ & Hworld).
  split; [exact Hresult |]. rewrite Hworld. reflexivity.
Defined.

Example progress_calls_of_three_files :
  world (snd (createParsers construct parse
                [file "sf_5.winscope"; file "notes.txt"; file "wm.winscope"]
                (Some recorder) emptyStore))
  = [("Parsing proto files", 0%float);
     ("Parsing proto files", 0x1.0aaaaaaaaaaaap+5%float);
     ("Parsing proto files", 0x1.0aaaaaaaaaaaap+6%float)].
Proof. reflexivity. Qed.

Lemma acceptedByOne_sf5 :
  acceptedByOne construct parse (file "sf_5.winscope") (PlainParser sf5).
Proof.
  exists ParserSurfaceFlinger. split; [reflexivity |].
  intros k' Hne. destruct k'; try reflexivity. now contradiction Hne.
Defined.

Lemma acceptedByOne_wm :
  acceptedByOne construct parse (file "wm.winscope") (PlainParser wm2).
Proof.
  exists ParserWindowManager. split; [reflexivity |].
  intros k' Hne. destruct k'; try reflexivity. now contradiction Hne.
Defined.

Lemma acceptedByOne_launcher :
  acceptedByOne construct parse (file "launcher.vc") (ViewCaptureParser launcherWindows).
Proof.
  exists ParserViewCapture. split; [reflexivity |].
  intros k' Hne. destruct k'; try reflexivity. now contradiction Hne.
Defined.

Lemma conflict_free_load_witness :
  exists s',
    createParsers construct parse
      [file "sf_5.winscope"; file "wm.winscope"; file "launcher.vc"] None emptyStore
    = (Returns ([(file "sf_5.winscope", sf5); (file "wm.winscope", wm2);
                 (file "launcher.vc", mkParser VIEW_CAPTURE_LAUNCHER ["launcher.vc"] 6);
                 (file "launcher.vc", mkParser VIEW_CAPTURE_TASKBAR ["launcher.vc"] 6)],
                []), s') /\
    size (this_parsers s') = 4.
Proof.
  destruct (FactoryFacts.conflict_free_load Log construct parse
              [file "sf_5.winscope"; file "wm.winscope"; file "launcher.vc"]
              [PlainParser sf5; PlainParser wm2; ViewCaptureParser launcherWindows]
              None emptyStore)
    as (s' & Hrun & _ & _ & _ & _ & Hsize).
  - repeat constructor.
    + exact acceptedByOne_sf5.
    + exact acceptedByOne_wm.
    + exact acceptedByOne_launcher.
  - simpl. repeat (constructor; [set_solver |]). constructor.
  - intros p _. apply lookup_empty.
  - exists s'. split; [exact Hrun | exact Hsize].
Defined.

(** C6 as stated fails on a view capture: one file, accepted by exactly
    one variant, whose two window parsers have distinct trace types,
    yields two pairs. *)
Lemma conflict_free_load_counterexample :
  let files := [file "launcher.vc"] in
  Forall (fun f => exists instance, acceptedByOne construct parse f instance) files /\
  exists pairs errs s',
    createParsers construct parse files None emptyStore
    = (Returns (pairs, errs), s') /\
    NoDup (map (fun fp => getTraceType (snd fp)) pairs) /\
    errs = [] /\
    length pairs = 2 /\
    length pairs <> length files.
Proof.
  split.
  - repeat constructor. eexists. exact acceptedByOne_launcher.
  - eexists _, _, _. split; [reflexivity |].
    split; [| split; [reflexivity | split; [reflexivity | simpl; lia]]].
    simpl. repeat (constructor; [set_solver |]). constructor.
Qed.

End FactoryRuns.

(** ** The trace pipeline *)

Module PipelineFacts.

Import Pipeline PipelineSpec.

Section WithCollaborators.

Variable World : Type.
Variable construct : ParserType -> TraceFile -> Outcome ParserInstance.
Variable parse : ParserInstance -> Outcome ParserInstance.
Variable filter : list TraceFile -> FilterResult.
Variable perfettoCreateParsers : TraceFile -> Outcome (list Parser).
Variable tracesCreateParsers : list Parser -> Outcome (list Parser).
Variables TRANSITION WM_TRANSITION SHELL_TRANSITION : nat.

Local Abbreviation load :=
  (loadTraceFiles (World := World) construct parse filter perfettoCreateParsers
     tracesCreateParsers TRANSITION WM_TRANSITION SHELL_TRANSITION).

(** A classifier that partitions its input finds nothing in no files. *)
Lemma empty_list_noUsableInput : classifies filter -> noUsableInput filter [].
Proof.
  intros Hclass. destruct (Hclass []) as [Hperfetto Hlegacy]. split.
  - destruct (perfetto (filter [])) as [f |] eqn:Hf; [| reflexivity].
    specialize (Hperfetto f eq_refl). set_solver.
  - destruct (legacy (filter [])) as [| f rest] eqn:Hl; [reflexivity |].
    specialize (Hlegacy f). set_solver.
Qed.

(** The factory itself reports nothing for no files. *)
Lemma createParsers_nil listener (s : Factory.Store World) :
  fst (Factory.createParsers construct parse [] listener s) = Returns ([], []).
Proof. reflexivity. Qed.

(** C7. No-input behaviour: when the classifier finds no usable input
    (as for an empty file list, or when every file is unusable),
    [loadTraceFiles] returns exactly one error, NO_INPUT_FILES, and
    leaves the pipeline as it was; loaded into a new pipeline this is an
    empty trace collection, no parser and no file. *)
Theorem no_input_behaviour tp w traceFiles listener :
  noUsableInput filter traceFiles ->
  load tp w traceFiles listener
  = (Returns [mkParserError NO_INPUT_FILES None None], (tp, w)) /\
  traces (fst (snd (load newTracePipeline w traceFiles listener))) = ∅ /\
  parsers (fst (snd (load newTracePipeline w traceFiles listener))) = [] /\
  files (fst (snd (load newTracePipeline w traceFiles listener))) = ∅.
Proof.
  intros [Hperfetto Hlegacy].
  assert (Hload : forall tp0, load tp0 w traceFiles listener
            = (Returns [mkParserError NO_INPUT_FILES None None], (tp0, w))).
  { intros tp0. unfold loadTraceFiles. rewrite Hperfetto, Hlegacy. reflexivity. }
  rewrite !Hload. repeat split.
Qed.

End WithCollaborators.

End PipelineFacts.

Module PipelineRuns.

Import Pipeline PipelineSpec Samples.

Lemma no_input_behaviour_witness :
  loadTraceFiles construct parse filter perfettoCreateParsers tracesCreateParsers
    TRANSITION WM_TRANSITION SHELL_TRANSITION newTracePipeline ([] : Log)
    [] (Some recorder)
  = (Returns [mkParserError NO_INPUT_FILES None None], (newTracePipeline, []))
  /\
  loadTraceFiles construct parse filter perfettoCreateParsers tracesCreateParsers
    TRANSITION WM_TRANSITION SHELL_TRANSITION newTracePipeline ([] : Log)
    [file "bugreport.zip"; file "empty.zip"] None
  = (Returns [mkParserError NO_INPUT_FILES None None], (newTracePipeline, [])).
Proof.
  split.
  - refine (proj1 (PipelineFacts.no_input_behaviour Log construct parse filter
                     perfettoCreateParsers tracesCreateParsers
                     TRANSITION WM_TRANSITION SHELL_TRANSITION
                     newTracePipeline [] [] (Some recorder) _)).
    split; reflexivity.
  - refine (proj1 (PipelineFacts.no_input_behaviour Log construct parse filter
                     perfettoCreateParsers tracesCreateParsers
                     TRANSITION WM_TRANSITION SHELL_TRANSITION
                     newTracePipeline [] [file "bugreport.zip"; file "empty.zip"]
                     None _)).
    split; reflexivity.
Defined.

(** A load with usable input, for comparison: the layer trace and the
    window-manager trace are kept, the text file is reported. *)
Example load_two_traces :
  let result :=
    loadTraceFiles construct parse filter perfettoCreateParsers tracesCreateParsers
      TRANSITION WM_TRANSITION SHELL_TRANSITION newTracePipeline ([] : Log)
      [file "sf_5.winscope"; file "notes.txt"; file "wm.winscope"] None in
  fst result = Returns [mkParserError UNSUPPORTED_FORMAT (Some "notes.txt") None] /\
  traces (fst (snd result)) = {[SURFACE_FLINGER := sf5; WINDOW_MANAGER := wm2]}.
Proof. split; reflexivity. Qed.

End PipelineRuns.

(** ** The diff engine *)

Module PresenterFacts.

Import Presenter PresenterSpec.

(** Induction on property trees, with the hypothesis for all children. *)
Lemma PropertyTreeNode_forall_ind (P : PropertyTreeNode -> Prop) :
  (forall node, Forall P (getAllChildren node) -> P node) ->
  forall node, P node.
Proof.
  intros Hstep.
  fix IH 1. intros [id nm src v children]. apply Hstep. simpl.
  induction children as [| c rest IHrest]; constructor; [apply IH | exact IHrest].
Qed.

Lemma HierarchyTreeNode_forall_ind (P : HierarchyTreeNode -> Prop) :
  (forall node, Forall P (hierarchyChildren node) -> P node) ->
  forall node, P node.
Proof.
  intros Hstep.
  fix IH 1. intros [id nm root props children]. apply Hstep. simpl.
  induction children as [| c rest IHrest]; constructor; [apply IH | exact IHrest].
Qed.

Lemma getChildByName_Some node n c :
  getChildByName node n = Some c -> c ∈ getAllChildren node /\ name c = n.
Proof.
  unfold getChildByName. intros Hfind. apply find_some in Hfind as [Hin Heq].
  split; [now apply list_elem_of_In | now apply String.eqb_eq].
Qed.

Lemma getChildByName_None node n :
  getChildByName node n = None <->
  forall c, c ∈ getAllChildren node -> name c <> n.
Proof.
  unfold getChildByName. split.
  - intros Hfind c Hin Heq.
    pose proof (find_none _ _ Hfind c (proj1 (list_elem_of_In _ _) Hin)) as Hc.
    simpl in Hc. apply String.eqb_neq in Hc. contradiction.
  - intros Hall. destruct (find _ _) as [c |] eqn:Hfind; [| reflexivity].
    apply find_some in Hfind as [Hin Heq]. apply String.eqb_eq in Heq.
    exfalso. apply (Hall c); [now apply list_elem_of_In | exact Heq].
Qed.

Section WithFormatter.

Variable formattedValue : PropertyTreeNode -> string.

Local Abbreviation isPropertyNodeModified :=
  (Presenter.isPropertyNodeModified formattedValue).
Local Abbreviation isChildPropertyModified :=
  (Presenter.isChildPropertyModified formattedValue).
Local Abbreviation isHierarchyTreeModified :=
  (Presenter.isHierarchyTreeModified formattedValue).
Local Abbreviation childLoop := (PresenterSpec.childLoop formattedValue).
Local Abbreviation differsHere := (PresenterSpec.differsHere formattedValue).
Local Abbreviation Differs := (PresenterSpec.Differs formattedValue).
Local Abbreviation SameRendering := (PresenterSpec.SameRendering formattedValue).
Local Abbreviation HierarchyMatches := (PresenterSpec.HierarchyMatches formattedValue).

Lemma isChildPropertyModified_loop newProperties oldProperties :
  isChildPropertyModified newProperties oldProperties
  = childLoop oldProperties (getAllChildren newProperties).
Proof.
  destruct newProperties as [id nm src v children]. simpl.
  induction children as [| c rest IH]; [reflexivity |].
  simpl. rewrite IH. reflexivity.
Qed.

Lemma isPropertyNodeModified_rendering a b :
  isPropertyNodeModified (Some a) (Some b) = false <->
  formattedValue a = formattedValue b.
Proof.
  simpl. rewrite negb_false_iff, String.eqb_eq. split; congruence.
Qed.

Lemma leaf_test c :
  (length (getAllChildren c) =? 0)%nat = true <-> getAllChildren c = [].
Proof.
  rewrite Nat.eqb_eq. destruct (getAllChildren c); simpl; split; congruence.
Qed.

Lemma childLoop_skip old c rest :
  isExcluded c = true -> childLoop old (c :: rest) = childLoop old rest.
Proof.
  unfold isExcluded. intros Hex. cbn [PresenterSpec.childLoop].
  destruct (includes DENYLIST_PROPERTY_NAMES (name c)); [reflexivity |].
  simpl in Hex. now rewrite Hex.
Qed.

Lemma childLoop_step old c rest :
  isExcluded c = false ->
  (differsHere old c /\ childLoop old (c :: rest) = true) \/
  (~ differsHere old c /\ childLoop old (c :: rest) = childLoop old rest).
Proof.
  unfold isExcluded, PresenterSpec.differsHere. intros Hex.
  apply orb_false_iff in Hex as [Hdeny Hcalc].
  cbn [PresenterSpec.childLoop]. unfold Presenter.isPropertyNodeModified.
  rewrite Hdeny, Hcalc.
  destruct (getChildByName old (name c)) as [c' |]; [| now left].
  destruct (length (getAllChildren c) =? 0)%nat eqn:Hleaf.
  - apply leaf_test in Hleaf.
    destruct (negb (String.eqb (formattedValue c') (formattedValue c))) eqn:Hmod.
    + left. split; [| reflexivity]. left. split; [exact Hleaf |].
      apply negb_true_iff, String.eqb_neq in Hmod. congruence.
    + right. split; [| reflexivity].
      apply negb_false_iff, String.eqb_eq in Hmod.
      intros [[_ Hne] | [Hne _]]; congruence.
  - assert (Hinner : getAllChildren c <> []).
    { intros Hnil. apply leaf_test in Hnil. congruence. }
    destruct (Presenter.isChildPropertyModified formattedValue c c') eqn:Hrec.
    + left. split; [| reflexivity]. right. now split.
    + right. split; [| reflexivity].
      intros [[Hnil _] | [_ Habs]]; [contradiction | discriminate].
Qed.

(** One level of the loop: which child makes it answer [true]. *)
Lemma childLoop_true old rest :
  childLoop old rest = true <->
  exists c, c ∈ rest /\ isExcluded c = false /\ differsHere old c.
Proof.
  induction rest as [| c rest IH].
  - simpl. split; [discriminate | intros (c & Hin & _); set_solver].
  - destruct (isExcluded c) eqn:Hex.
    + rewrite childLoop_skip, IH by exact Hex. split.
      * intros (c0 & Hin & H). exists c0. split; [set_solver | exact H].
      * intros (c0 & Hin & Hex0 & H). apply elem_of_cons in Hin as [-> | Hin].
        -- congruence.
        -- exists c0. auto.
    + destruct (childLoop_step old c rest Hex) as [[Hhere ->] | [Hnot ->]].
      * split; [intros _ | reflexivity]. exists c. split; [set_solver | auto].
      * rewrite IH. split.
        -- intros (c0 & Hin & H). exists c0. split; [set_solver | exact H].
        -- intros (c0 & Hin & Hex0 & H). apply elem_of_cons in Hin as [-> | Hin].
           ++ contradiction.
           ++ exists c0. auto.
Qed.

Lemma Differs_modified new old :
  Differs new old -> isChildPropertyModified new old = true.
Proof.
  induction 1 as [new old c Hin Hex Hnone
                 | new old c c' Hin Hex Hget Hleaf Hne
                 | new old c c' Hin Hex Hget Hinner _ IH];
    rewrite isChildPropertyModified_loop; apply childLoop_true; exists c;
    (split; [exact Hin |]); (split; [exact Hex |]);
    unfold PresenterSpec.differsHere.
  - apply getChildByName_None in Hnone. now rewrite Hnone.
  - rewrite Hget. left. now split.
  - rewrite Hget. right. now split.
Qed.

Lemma modified_Differs new :
  forall old, isChildPropertyModified new old = true -> Differs new old.
Proof.
  induction new as [new IH] using PropertyTreeNode_forall_ind.
  intros old Hmod. rewrite isChildPropertyModified_loop in Hmod.
  apply childLoop_true in Hmod as (c & Hin & Hex & Hc).
  unfold PresenterSpec.differsHere in Hc.
  destruct (getChildByName old (name c)) as [c' |] eqn:Hget.
  - destruct Hc as [[Hleaf Hne] | [Hinner Hrec]].
    + eapply Differs_leaf; eauto.
    + eapply Differs_inner; eauto.
      rewrite Forall_forall in IH. apply (IH c Hin c' Hrec).
  - eapply Differs_missing; eauto. now apply getChildByName_None.
Qed.

(** C4. Diff comparison semantics.  (1) Two present leaves compare
    equal exactly when their rendered values are equal, whatever their
    raw values.  (2) A property tree counts as modified exactly when
    some descendant of the new tree, reached through properties that
    are neither deny-listed nor calculated, has no same-name
    counterpart in the old tree or is a leaf rendered differently from
    it.  (3) In particular a non-excluded child of the new tree without
    a same-name child in the old tree makes it modified. *)
Theorem diff_comparison_semantics :
  (forall a b,
      isPropertyNodeModified (Some a) (Some b) = false <->
      formattedValue a = formattedValue b) /\
  (forall new old,
      isChildPropertyModified new old = true <-> Differs new old) /\
  (forall new old c,
      c ∈ getAllChildren new ->
      includes DENYLIST_PROPERTY_NAMES (name c) = false ->
      source c <> CALCULATED ->
      (forall c', c' ∈ getAllChildren old -> name c' <> name c) ->
      isChildPropertyModified new old = true).
Proof.
  split; [exact isPropertyNodeModified_rendering |].
  split.
  - intros new old. split; [apply modified_Differs | apply Differs_modified].
  - intros new old c Hin Hdeny Hsrc Hnone.
    apply Differs_modified. eapply Differs_missing; eauto.
    unfold isExcluded. rewrite Hdeny. simpl. now apply bool_decide_eq_false.
Qed.

(** *** Trees of the same rendering are not modified *)

Lemma SameRendering_not_Differs new old :
  Differs new old -> SameRendering new old -> False.
Proof.
  induction 1 as [new old c Hin Hex Hnone
                 | new old c c0 Hin Hex Hget Hleaf Hne
                 | new old c c0 Hin Hex Hget Hinner _ IH];
    intros Hsame; inversion Hsame as [? ? Hall]; subst;
    destruct (Hall c Hin Hex) as (c' & Hin' & Hname & Huniq & Hfmt & Hrec).
  - exact (Hnone c' Hin' Hname).
  - apply getChildByName_Some in Hget as [Hin0 Hname0].
    rewrite (Huniq c0 Hin0 Hname0) in Hne. congruence.
  - apply getChildByName_Some in Hget as [Hin0 Hname0].
    rewrite (Huniq c0 Hin0 Hname0) in IH. exact (IH Hrec).
Qed.

Lemma SameRendering_unmodified new old :
  SameRendering new old -> isChildPropertyModified new old = false.
Proof.
  intros Hsame.
  destruct (Presenter.isChildPropertyModified formattedValue new old) eqn:Hmod;
    [| reflexivity].
  exfalso. apply modified_Differs in Hmod.
  exact (SameRendering_not_Differs new old Hmod Hsame).
Qed.

Lemma NoDup_names_unique (children : list PropertyTreeNode) c c' :
  NoDup (map name children) -> c ∈ children -> c' ∈ children ->
  name c' = name c -> c' = c.
Proof.
  induction children as [| d rest IH]; intros Hnd Hc Hc' Hname; [set_solver |].
  simpl in Hnd. apply NoDup_cons in Hnd as [Hd Hnd].
  apply elem_of_cons in Hc as [-> | Hc]; apply elem_of_cons in Hc' as [-> | Hc'].
  - reflexivity.
  - exfalso. apply Hd. rewrite <- Hname. now apply list_elem_of_fmap_2.
  - exfalso. apply Hd. rewrite Hname. now apply list_elem_of_fmap_2.
  - now apply IH.
Qed.

Lemma SameRendering_refl node : UniqueNames node -> SameRendering node node.
Proof.
  induction node as [node IH] using PropertyTreeNode_forall_ind.
  intros Huniq. inversion Huniq as [? Hnd Hall]; subst.
  constructor. intros c Hin _. exists c.
  rewrite Forall_forall in IH, Hall.
  split; [exact Hin |]. split; [reflexivity |].
  split; [| split; [reflexivity | apply IH; auto]].
  intros c'' Hin'' Hname. now apply (NoDup_names_unique (getAllChildren node)).
Qed.

Lemma HierarchyMatches_refl N : WellNamed N -> HierarchyMatches N N.
Proof.
  induction N as [N IH] using HierarchyTreeNode_forall_ind.
  intros Hwell. inversion Hwell as [? Hprops Hall]; subst.
  constructor; [now apply SameRendering_refl |].
  rewrite Forall_forall in IH, Hall.
  apply Forall2_same_length_lookup_2; [reflexivity |].
  intros i n n' Hn Hn'. rewrite Hn in Hn'. injection Hn' as <-.
  apply IH; [| apply Hall]; eapply list_elem_of_lookup_2; eauto.
Qed.

Lemma PairedIn_matches N O n o :
  HierarchyMatches N O -> PairedIn N O n o -> HierarchyMatches n o.
Proof.
  intros Hmatch Hpair. induction Hpair as [| n o i n' o' _ IH Hn Ho]; [exact Hmatch |].
  inversion IH as [? ? _ Hchildren]; subst.
  exact (Forall2_lookup_lr _ _ _ _ _ _ Hchildren Hn Ho).
Qed.

Lemma PairedIn_same N n o : PairedIn N N n o -> n = o.
Proof.
  induction 1 as [| n o i n' o' _ IH Hn Ho]; [reflexivity |].
  subst. congruence.
Qed.

Lemma HierarchyMatches_unmodified n o :
  HierarchyMatches n o ->
  isHierarchyTreeModified (Some n) (Some o) = false /\
  isChildPropertyModified (getAllProperties n) (getAllProperties o) = false.
Proof.
  intros Hmatch. inversion Hmatch as [? ? Hprops _]; subst.
  pose proof (SameRendering_unmodified _ _ Hprops) as Hun.
  split; [| exact Hun]. simpl. destruct (isRoot n); [reflexivity | exact Hun].
Qed.

(** C3. Diff engine idempotence.  (1) If the hierarchy trees [N] and
    [O] have the same shape and, node by node, properties whose
    non-excluded part renders to the same values, then for every pair
    of nodes at the same position, at any depth, the hierarchy check and
    the property check answer "not modified" -- whatever the deny-listed
    and the calculated properties of the two trees are.  (2) In
    particular this holds for a tree against itself, sibling property
    names being unique as the data model requires. *)
Theorem diff_idempotence N O :
  (HierarchyMatches N O ->
   forall n o, PairedIn N O n o ->
     isHierarchyTreeModified (Some n) (Some o) = false /\
     isChildPropertyModified (getAllProperties n) (getAllProperties o) = false) /\
  (WellNamed N ->
   forall n o, PairedIn N N n o ->
     n = o /\
     isHierarchyTreeModified (Some n) (Some n) = false /\
     isChildPropertyModified (getAllProperties n) (getAllProperties n) = false).
Proof.
  split.
  - intros Hmatch n o Hpair.
    apply HierarchyMatches_unmodified. eapply PairedIn_matches; eauto.
  - intros Hwell n o Hpair.
    pose proof (PairedIn_same N n o Hpair) as ->.
    split; [reflexivity |].
    apply HierarchyMatches_unmodified.
    eapply PairedIn_matches; [apply HierarchyMatches_refl |]; eauto.
Qed.

(** C5. A root is never itself flagged: for two present hierarchy
    nodes, when the new one is a root the check answers "not modified",
    whatever the properties of the two nodes. *)
Theorem root_never_modified newTree oldTree :
  isRoot newTree = true ->
  isHierarchyTreeModified (Some newTree) (Some oldTree) = false.
Proof. intros Hroot. simpl. now rewrite Hroot. Qed.

(** The presence test comes first: a root without a counterpart is
    reported (as added), like any other node. *)
Lemma root_without_counterpart newTree :
  isHierarchyTreeModified (Some newTree) None = true.
Proof. reflexivity. Qed.

End WithFormatter.

End PresenterFacts.

Module PresenterRuns.

Import Presenter PresenterSpec Samples.

Lemma layer_SameRendering : SameRendering render layerNew layerOld.
Proof.
  constructor. intros c Hin Hex. each_child Hin; try discriminate Hex.
  - exists (leaf "flags" PROTO (VString "FLAG_B")).
    split; [set_solver |]. split; [reflexivity |].
    split; [| split; [reflexivity |]].
    + intros c'' Hin'' Hname. each_child Hin''; try discriminate Hname; reflexivity.
    + constructor. intros c Hin. now apply elem_of_nil in Hin.
  - eexists. split; [do 4 right; left |]. split; [reflexivity |].
    split; [| split; [reflexivity |]].
    + intros c'' Hin'' Hname. each_child Hin''; try discriminate Hname; reflexivity.
    + constructor. intros c Hin _. each_child Hin.
      * exists (leaf "left" PROTO (VNumber 0)).
        split; [set_solver |]. split; [reflexivity |].
        split; [| split; [reflexivity |]].
        -- intros c'' Hin'' Hname. each_child Hin''; try discriminate Hname; reflexivity.
        -- constructor. intros c Hin. now apply elem_of_nil in Hin.
      * exists (leaf "top" PROTO (VNumber 1)).
        split; [set_solver |]. split; [reflexivity |].
        split; [| split; [reflexivity |]].
        -- intros c'' Hin'' Hname. each_child Hin''; try discriminate Hname; reflexivity.
        -- constructor. intros c Hin. now apply elem_of_nil in Hin.
Defined.

Lemma hierarchy_matches : HierarchyMatches render hierarchyNew hierarchyOld.
Proof.
  constructor.
  - constructor. intros c Hin. now apply elem_of_nil in Hin.
  - constructor; [| constructor]. constructor; [exact layer_SameRendering | constructor].
Defined.

Lemma layerNew_UniqueNames : UniqueNames layerNew.
Proof.
  constructor.
  - simpl. repeat (constructor; [set_solver |]). constructor.
  - repeat constructor; simpl; try set_solver.
Defined.

Lemma hierarchyNew_WellNamed : WellNamed hierarchyNew.
Proof.
  constructor.
  - constructor; constructor.
  - constructor; [| constructor]. constructor; [exact layerNew_UniqueNames | constructor].
Defined.

Lemma diff_idempotence_witness :
  (isHierarchyTreeModified render (Some layerNodeNew) (Some layerNodeOld) = false /\
   isChildPropertyModified render layerNew layerOld = false) /\
  (layerNodeNew = layerNodeNew /\
   isHierarchyTreeModified render (Some layerNodeNew) (Some layerNodeNew) = false /\
   isChildPropertyModified render layerNew layerNew = false).
Proof.
  split.
  - refine (proj1 (PresenterFacts.diff_idempotence render hierarchyNew hierarchyOld)
              hierarchy_matches layerNodeNew layerNodeOld _).
    apply (PairedIn_child _ _ hierarchyNew hierarchyOld 0);
      [constructor | reflexivity | reflexivity].
  - refine (proj2 (PresenterFacts.diff_idempotence render hierarchyNew hierarchyNew)
              hierarchyNew_WellNamed layerNodeNew layerNodeNew _).
    apply (PairedIn_child _ _ hierarchyNew hierarchyNew 0);
      [constructor | reflexivity | reflexivity].
Defined.

(** Why unique sibling names are asked for: with two siblings of one
    name the second is compared with the first. *)
Example duplicate_names_self_diff :
  isChildPropertyModified render twoFlags twoFlags = true.
Proof. reflexivity. Qed.

Lemma diff_comparison_semantics_witness :
  isPropertyNodeModified render
    (Some (leaf "flags" PROTO (VNumber 2)))
    (Some (leaf "flags" PROTO (VString "FLAG_B"))) = false /\
  isChildPropertyModified render layerMoved layerOld = true /\
  isChildPropertyModified render layerNew rootProperties = true.
Proof.
  destruct (PresenterFacts.diff_comparison_semantics render) as (Hleaf & Hiff & Hmissing).
  split; [| split].
  - apply Hleaf. reflexivity.
  - apply Hiff.
    apply (Differs_inner render layerMoved layerOld
             (mkPropertyTreeNode "layer.bounds" "bounds" PROTO VUndefined
                [leaf "left" PROTO (VNumber 0); leaf "top" PROTO (VNumber 2)])
             (mkPropertyTreeNode "layer.bounds" "bounds" PROTO VUndefined
                [leaf "left" PROTO (VNumber 0); leaf "top" PROTO (VNumber 1)]));
      [set_solver | reflexivity | reflexivity | discriminate |].
    apply (Differs_leaf render _ _ (leaf "top" PROTO (VNumber 2))
             (leaf "top" PROTO (VNumber 1)));
      [set_solver | reflexivity | reflexivity | reflexivity | discriminate].
  - apply (Hmissing layerNew rootProperties (leaf "flags" PROTO (VNumber 2)));
      [set_solver | reflexivity | discriminate |].
    intros c' Hin. now apply elem_of_nil in Hin.
Defined.

(** The modified leaf is reported, and so is its parent. *)
Example moved_leaf_is_modified :
  isPropertyNodeModified render
    (Some (leaf "top" PROTO (VNumber 2))) (Some (leaf "top" PROTO (VNumber 1))) = true.
Proof. reflexivity. Qed.

Lemma root_never_modified_witness :
  isChildPropertyModified render layerMoved layerOld = true /\
  isHierarchyTreeModified render (Some changedRootNew) (Some changedRootOld) = false.
Proof.
  split; [reflexivity |].
  apply (PresenterFacts.root_never_modified render changedRootNew changedRootOld).
  reflexivity.
Defined.

End PresenterRuns.

(** ** Root properties of a transition *)

Module AddRootPropertiesFacts.

Import AddRootProperties.

Section WithFactory.

Variable makeCalculatedProperty :
  string -> string -> PropertyValue -> PropertyTreeNode.

(** C9. Derived transition root properties.  For a tree with [wmData]
    and [shellData] children: (1) if an id candidate and an offset
    candidate exist, the result is exactly two calculated properties,
    [id] (from the [id] child of [wmData] when present, else of
    [shellData]) and [realToElapsedTimeOffsetNs] (from the child of
    [shellData] when present, else of [wmData]; with an [aborted] child
    in the tree, from [wmData] first, else [shellData]); (2) if neither
    side has an id, or neither has an offset, the operation throws. *)
Theorem derived_root_properties value wmData shellData :
  getChildByName value "wmData" = Some wmData ->
  getChildByName value "shellData" = Some shellData ->
  let wmId := getChildByName wmData "id" in
  let shellId := getChildByName shellData "id" in
  let wmOffset := getChildByName wmData "realToElapsedTimeOffsetNs" in
  let shellOffset := getChildByName shellData "realToElapsedTimeOffsetNs" in
  let aborted := getChildByName value "aborted" in
  (forall idNode offsetNode,
      wmId = Some idNode \/ (wmId = None /\ shellId = Some idNode) ->
      (aborted = None /\
       (shellOffset = Some offsetNode \/
        (shellOffset = None /\ wmOffset = Some offsetNode))) \/
      (is_Some aborted /\
       (wmOffset = Some offsetNode \/
        (wmOffset = None /\ shellOffset = Some offsetNode))) ->
      makeProperties makeCalculatedProperty value
      = Returns
          [makeCalculatedProperty (node_id value) "id" (getValue idNode);
           makeCalculatedProperty (node_id value) "realToElapsedTimeOffsetNs"
             (getValue offsetNode)]) /\
  ((wmId = None /\ shellId = None) \/ (wmOffset = None /\ shellOffset = None) ->
   exists e, makeProperties makeCalculatedProperty value = Throws e).
Proof.
  intros Hwm Hshell wmId shellId wmOffset shellOffset aborted.
  unfold makeProperties. rewrite Hwm, Hshell. simpl.
  fold wmId shellId wmOffset shellOffset aborted.
  split.
  - intros idNode offsetNode Hid Hoffset.
    assert (Hidc : wmId ?? shellId = Some idNode).
    { destruct Hid as [-> | [-> ->]]; reflexivity. }
    rewrite Hidc. simpl.
    destruct Hoffset as [[-> Hoff] | [[a ->] Hoff]];
      destruct Hoff as [-> | [-> ->]]; simpl; try reflexivity.
    all: destruct wmOffset; destruct shellOffset; reflexivity.
  - intros [[-> ->] | [-> ->]]; simpl; [eexists; reflexivity |].
    destruct (wmId ?? shellId); simpl; [| eexists; reflexivity].
    destruct aborted; simpl; eexists; reflexivity.
Qed.

End WithFactory.

End AddRootPropertiesFacts.

Module AddRootPropertiesRuns.

Import AddRootProperties Samples.

Example played_transition :
  makeProperties makeCalculatedProperty transitionPlayed
  = Returns
      [mkPropertyTreeNode "transition.id" "id" CALCULATED (VNumber 35) [];
       mkPropertyTreeNode "transition.realToElapsedTimeOffsetNs"
         "realToElapsedTimeOffsetNs" CALCULATED (VNumber 2000) []].
Proof. reflexivity. Qed.

Example aborted_transition :
  makeProperties makeCalculatedProperty transitionAborted
  = Returns
      [mkPropertyTreeNode "transition.id" "id" CALCULATED (VNumber 35) [];
       mkPropertyTreeNode "transition.realToElapsedTimeOffsetNs"
         "realToElapsedTimeOffsetNs" CALCULATED (VNumber 1000) []].
Proof. reflexivity. Qed.

Lemma derived_root_properties_witness :
  makeProperties makeCalculatedProperty transitionShellOnly
  = Returns
      [makeCalculatedProperty "transition" "id" (VNumber 36);
       makeCalculatedProperty "transition" "realToElapsedTimeOffsetNs" (VNumber 2000)]
  /\
  makeProperties makeCalculatedProperty transitionAborted
  = Returns
      [makeCalculatedProperty "transition" "id" (VNumber 35);
       makeCalculatedProperty "transition" "realToElapsedTimeOffsetNs" (VNumber 1000)]
  /\
  exists e, makeProperties makeCalculatedProperty transitionNoId = Throws e.
Proof.
  split; [| split].
  - refine (proj1 (AddRootPropertiesFacts.derived_root_properties
                     makeCalculatedProperty transitionShellOnly
                     (group "wmData" [])
                     (group "shellData"
                        [field "id" 36; field "realToElapsedTimeOffsetNs" 2000])
                     eq_refl eq_refl)
              (field "id" 36) (field "realToElapsedTimeOffsetNs" 2000) _ _).
    + right. split; reflexivity.
    + left. split; [reflexivity | left; reflexivity].
  - refine (proj1 (AddRootPropertiesFacts.derived_root_properties
                     makeCalculatedProperty transitionAborted
                     (group "wmData"
                        [field "id" 35; field "realToElapsedTimeOffsetNs" 1000])
                     (group "shellData"
                        [field "id" 36; field "realToElapsedTimeOffsetNs" 2000])
                     eq_refl eq_refl)
              (field "id" 35) (field "realToElapsedTimeOffsetNs" 1000) _ _).
    + left. reflexivity.
    + right. split; [eexists; reflexivity | left; reflexivity].
  - refine (proj2 (AddRootPropertiesFacts.derived_root_properties
                     makeCalculatedProperty transitionNoId
                     (group "wmData" [field "realToElapsedTimeOffsetNs" 1000])
                     (group "shellData" [])
                     eq_refl eq_refl) _).
    left. split; reflexivity.
Defined.

End AddRootPropertiesRuns.

(** ** More on the parser factory *)

Module FactoryMore.

Import Factory FactorySpec FactoryInvariants.

Section WithEnvironment.

Variable World : Type.
Variable construct : ParserType -> TraceFile -> Outcome ParserInstance.
Variable parse : ParserInstance -> Outcome ParserInstance.

Implicit Types (s : Store World) (p : Parser) (f : TraceFile).

Local Abbreviation follows := (FactoryInvariants.follows (World := World)).
Local Abbreviation firstAccepted := (FactorySpec.firstAccepted construct parse).
Local Abbreviation processTraceFile := (Factory.processTraceFile construct parse).
Local Abbreviation forEachTraceFile := (Factory.forEachTraceFile construct parse).
Local Abbreviation createParsers := (Factory.createParsers construct parse).

(** *** What one [maybeAddParser] does to the store *)

Lemma maybeAddParser_cases p f s :
  (this_parsers s !! getTraceType p = None /\
   snd (maybeAddParser p f s)
   = mkStore (<[getTraceType p := p]> (this_parsers s)) (errors s)
             (parsers s ++ [(f, p)]) (world s)) \/
  (exists old,
     this_parsers s !! getTraceType p = Some old /\
     getLengthEntries old < getLengthEntries p /\
     snd (maybeAddParser p f s)
     = mkStore (<[getTraceType p := p]> (this_parsers s))
               (errors s ++ [overrideError old])
               (parsers s ++ [(f, p)]) (world s)) \/
  (exists old,
     this_parsers s !! getTraceType p = Some old /\
     getLengthEntries p <= getLengthEntries old /\
     snd (maybeAddParser p f s)
     = mkStore (this_parsers s) (errors s ++ [overrideError p])
               (parsers s) (world s)).
Proof.
  destruct (this_parsers s !! getTraceType p) as [old |] eqn:Hold.
  - right. destruct (Nat.lt_ge_cases (getLengthEntries old) (getLengthEntries p))
      as [Hlt | Hge].
    + left. exists old. repeat split; [exact Hlt |].
      unfold maybeAddParser, bind at 1.
      now rewrite (FactoryFacts.shouldUseParser_longer World s p old Hold Hlt).
    + right. exists old. repeat split; [exact Hge |].
      unfold maybeAddParser, bind at 1.
      now rewrite (FactoryFacts.shouldUseParser_not_longer World s p old Hold Hge).
  - left. split; [reflexivity |].
    now rewrite (FactoryFacts.maybeAddParser_fresh World s p f Hold).
Qed.

(** *** The loops, store by store *)

Lemma notifyProgress_fields listener label percent s :
  let s0 := snd (notifyProgress listener label percent s) in
  this_parsers s0 = this_parsers s /\ errors s0 = errors s /\
  parsers s0 = parsers s.
Proof. destruct listener; repeat split. Qed.

Lemma processTraceFile_store listener len index f s :
  let s0 := snd (notifyProgress listener "Parsing proto files"
                   (percentage index len) s) in
  processTraceFile listener len index f s
  = (Returns (),
     match firstAccepted PARSERS f with
     | Some instance => snd (addCandidates instance f s0)
     | None => withErrors s0 (errors s0 ++ [unsupportedError f])
     end).
Proof.
  intros s0. unfold Factory.processTraceFile, bind at 1.
  rewrite FactoryFacts.notifyProgress_returns. fold s0.
  unfold bind at 1. rewrite FactoryFacts.tryParserTypes_firstAccepted.
  destruct (firstAccepted PARSERS f); reflexivity.
Qed.

Lemma forEachTraceFile_cons listener len index f rest s :
  forEachTraceFile listener len index (f :: rest) s
  = forEachTraceFile listener len (S index) rest
      (snd (processTraceFile listener len index f s)).
Proof.
  cbn [Factory.forEachTraceFile]. unfold bind at 1.
  now rewrite processTraceFile_store.
Qed.

Lemma forEachTraceFile_returns listener len index files s :
  fst (forEachTraceFile listener len index files s) = Returns ().
Proof.
  destruct (FactoryFacts.steady_forEachTraceFile World construct parse
              listener len index files s) as ([] & s' & Hs & _).
  now rewrite Hs.
Qed.

Lemma createParsers_store files listener s :
  createParsers files listener s
  = (let s' := snd (forEachTraceFile listener (length files) 0 files
                      (resetLocals s)) in
     (Returns (parsers s', errors s'), s')).
Proof.
  rewrite FactoryFacts.createParsers_unfold.
  pose proof (forEachTraceFile_returns listener (length files) 0 files
                (resetLocals s)) as Hret.
  destruct (Factory.forEachTraceFile construct parse listener (length files) 0
              files (resetLocals s)) as [o s'].
  simpl in *. now subst o.
Qed.

(** *** Relations kept by every step *)

Section Following.

Variable R : Store World -> Store World -> Prop.
Context `{!PreOrder R}.

Lemma follows_addCandidates instance f :
  (forall p, follows R (maybeAddParser p f)) ->
  follows R (addCandidates instance f).
Proof.
  intros Hstep. unfold addCandidates.
  induction (candidates instance) as [| p ps IH]; intros s; simpl.
  - reflexivity.
  - unfold bind.
    rewrite (FactoryFacts.maybeAddParser_returns World p f s).
    etrans; [apply (Hstep p s) | apply IH].
Qed.

Lemma follows_processTraceFile listener len index f :
  (forall label percent, follows R (notifyProgress listener label percent)) ->
  (forall p, follows R (maybeAddParser p f)) ->
  (forall e, follows R (errors_push e)) ->
  follows R (processTraceFile listener len index f).
Proof.
  intros Hnotify Hadd Hpush s. rewrite processTraceFile_store. cbn [snd].
  etrans; [apply (Hnotify "Parsing proto files" (percentage index len) s) |].
  destruct (firstAccepted PARSERS f) as [instance |].
  - now apply follows_addCandidates.
  - apply (Hpush (unsupportedError f)).
Qed.

Lemma follows_forEachTraceFile listener len files :
  (forall label percent, follows R (notifyProgress listener label percent)) ->
  (forall p f, f ∈ files -> follows R (maybeAddParser p f)) ->
  (forall e, follows R (errors_push e)) ->
  forall index, follows R (forEachTraceFile listener len index files).
Proof.
  intros Hnotify Hadd Hpush.
  induction files as [| f rest IH]; intros index s.
  - reflexivity.
  - rewrite forEachTraceFile_cons.
    etrans; [apply follows_processTraceFile; auto |].
    + intros p. apply Hadd. apply list_elem_of_here.
    + apply IH. intros p f' Hin. apply Hadd. now apply list_elem_of_further.
Qed.

End Following.

(** Relations on the map alone. *)
Lemma createParsers_map_relation (Rm : relation (gmap nat Parser)) `{!PreOrder Rm} :
  (forall m p, m !! getTraceType p = None -> Rm m (<[getTraceType p := p]> m)) ->
  (forall m p old,
      m !! getTraceType p = Some old ->
      getLengthEntries old < getLengthEntries p ->
      Rm m (<[getTraceType p := p]> m)) ->
  forall files listener s,
    Rm (this_parsers s) (this_parsers (snd (createParsers files listener s))).
Proof.
  intros Hfresh Hlonger files listener s.
  rewrite createParsers_store. cbn [snd].
  change (this_parsers s) with (this_parsers (resetLocals s)).
  set (R := fun s1 s2 : Store World => Rm (this_parsers s1) (this_parsers s2)).
  assert (HR : PreOrder R).
  { split; [intros x; unfold R; reflexivity |].
    intros x y z Hxy Hyz; unfold R in *; etrans; eauto. }
  apply (follows_forEachTraceFile R).
  - intros label percent s1. unfold R.
    destruct (notifyProgress_fields listener label percent s1) as (-> & _).
    reflexivity.
  - intros p f _ s1. unfold R.
    destruct (maybeAddParser_cases p f s1)
      as [[Hnone ->] | [(old & Hold & Hlt & ->) | (old & Hold & Hle & ->)]];
      simpl; [now apply Hfresh | now apply (Hlonger _ _ old) | reflexivity].
  - intros e s1. unfold R. reflexivity.
Qed.

(** X1. A removed type is free again: after [removeParser] of the type
    of [p], whatever was registered under it, [p] is taken without any
    error, registered under its type and paired with its file; the
    other types of the map are as before. *)
Theorem removeParser_frees_type s p f :
  let s1 := snd (removeParser (getTraceType p) s) in
  maybeAddParser p f s1
  = (Returns (),
     mkStore (<[getTraceType p := p]> (this_parsers s)) (errors s)
             (parsers s ++ [(f, p)]) (world s)) /\
  (forall t, t <> getTraceType p -> this_parsers s1 !! t = this_parsers s !! t).
Proof.
  intros s1. split.
  - rewrite (FactoryFacts.maybeAddParser_fresh World s1 p f).
    + subst s1. simpl. now rewrite insert_delete_eq.
    + subst s1. simpl. apply lookup_delete_eq.
  - intros t Hne. subst s1. simpl. now apply lookup_delete_ne.
Qed.

Instance keyed_preserved_preorder :
  PreOrder (fun m m' : gmap nat Parser => keyed m -> keyed m').
Proof. split; [intros m; auto | intros m1 m2 m3 H12 H23; auto]. Qed.

Lemma keyed_insert m p : keyed m -> keyed (<[getTraceType p := p]> m).
Proof.
  intros Hkeyed t q. rewrite lookup_insert.
  case_decide; [intros [= <-]; congruence | apply Hkeyed].
Qed.

(** X2. Every parser of the map is stored under its own trace type:
    this is true of a new factory and [createParsers] keeps it. *)
Theorem createParsers_keeps_keyed files listener s :
  keyed (this_parsers s) ->
  keyed (this_parsers (snd (createParsers files listener s))).
Proof.
  apply (createParsers_map_relation
           (fun m m' : gmap nat Parser => keyed m -> keyed m')).
  - intros m p _. apply keyed_insert.
  - intros m p old _ _. apply keyed_insert.
Qed.

Instance dominated_preorder : PreOrder dominated.
Proof.
  split.
  - intros m t old Hold. exists old. split; [exact Hold | lia].
  - intros m1 m2 m3 H12 H23 t old Hold.
    destruct (H12 t old Hold) as (q & Hq & Hle).
    destruct (H23 t q Hq) as (q' & Hq' & Hle').
    exists q'. split; [exact Hq' | lia].
Qed.

Lemma dominated_insert_fresh m p :
  m !! getTraceType p = None -> dominated m (<[getTraceType p := p]> m).
Proof.
  intros Hnone t old Hold. exists old. split; [| lia].
  rewrite lookup_insert_ne; [exact Hold | congruence].
Qed.

Lemma dominated_insert_longer m p old :
  m !! getTraceType p = Some old ->
  getLengthEntries old < getLengthEntries p ->
  dominated m (<[getTraceType p := p]> m).
Proof.
  intros Hold Hlt t old' Hold'. rewrite lookup_insert. case_decide as Heq.
  - subst t. exists p. split; [reflexivity |].
    rewrite Hold in Hold'. injection Hold' as <-. lia.
  - exists old'. split; [exact Hold' | lia].
Qed.

Lemma covers_dominated m m' p : covers m p -> dominated m m' -> covers m' p.
Proof.
  intros (q & Hq & Hle) Hdom. destruct (Hdom _ q Hq) as (q' & Hq' & Hle').
  exists q'. split; [exact Hq' | lia].
Qed.

Lemma dominated_maybeAddParser p f :
  follows (fun s1 s2 => dominated (this_parsers s1) (this_parsers s2))
          (maybeAddParser p f).
Proof.
  intros s.
  destruct (maybeAddParser_cases p f s)
    as [[Hnone ->] | [(old & Hold & Hlt & ->) | (old & Hold & Hle & ->)]]; simpl.
  - now apply dominated_insert_fresh.
  - now apply (dominated_insert_longer _ _ old).
  - reflexivity.
Qed.

Instance dominated_store_preorder :
  PreOrder (fun s1 s2 : Store World =>
              dominated (this_parsers s1) (this_parsers s2)).
Proof.
  split; [intros x; reflexivity |].
  intros x y z Hxy Hyz. etrans; eauto.
Qed.

Lemma covers_maybeAddParser p f s :
  covers (this_parsers (snd (maybeAddParser p f s))) p.
Proof.
  destruct (maybeAddParser_cases p f s)
    as [[Hnone ->] | [(old & Hold & Hlt & ->) | (old & Hold & Hle & ->)]]; simpl.
  - exists p. split; [apply lookup_insert_eq | lia].
  - exists p. split; [apply lookup_insert_eq | lia].
  - exists old. split; [exact Hold | exact Hle].
Qed.

Lemma covers_addCandidates instance f p s :
  p ∈ candidates instance ->
  covers (this_parsers (snd (addCandidates instance f s))) p.
Proof.
  unfold addCandidates. revert s.
  induction (candidates instance) as [| q ps IH]; intros s Hin; [set_solver |].
  simpl. unfold bind. rewrite (FactoryFacts.maybeAddParser_returns World q f s).
  apply elem_of_cons in Hin as [-> | Hin]; [| now apply IH].
  eapply covers_dominated; [apply covers_maybeAddParser |].
  change (forEach ps (fun it => maybeAddParser it f))
    with (addCandidates (World := World) (ViewCaptureParser ps) f).
  apply (follows_addCandidates
           (fun s1 s2 => dominated (this_parsers s1) (this_parsers s2))).
  intros q'. apply dominated_maybeAddParser.
Qed.

Lemma dominated_forEachTraceFile listener len index files s :
  dominated (this_parsers s)
            (this_parsers (snd (forEachTraceFile listener len index files s))).
Proof.
  apply (follows_forEachTraceFile
           (fun s1 s2 => dominated (this_parsers s1) (this_parsers s2))).
  - intros label percent s1.
    destruct (notifyProgress_fields listener label percent s1) as (-> & _).
    reflexivity.
  - intros p f _. apply dominated_maybeAddParser.
  - intros e s1. reflexivity.
Qed.

Lemma covers_forEachTraceFile listener len files : forall index s f instance p,
  f ∈ files ->
  firstAccepted PARSERS f = Some instance ->
  p ∈ candidates instance ->
  covers (this_parsers (snd (forEachTraceFile listener len index files s))) p.
Proof.
  induction files as [| f0 rest IH]; intros index s f instance p Hin Hacc Hp;
    [set_solver |].
  rewrite forEachTraceFile_cons.
  apply elem_of_cons in Hin as [-> | Hin]; [| now apply (IH _ _ f instance)].
  eapply covers_dominated; [| apply dominated_forEachTraceFile].
  rewrite processTraceFile_store. cbn [snd]. rewrite Hacc.
  now apply covers_addCandidates.
Qed.

(** X3. The longest capture wins.  After [createParsers], a type that
    was registered is still registered, with at least as many entries;
    and for every parser put forward by an accepted input file the map
    holds, under that parser's type, a parser with at least as many
    entries. *)
Theorem longest_capture_wins files listener s f instance p :
  f ∈ files ->
  firstAccepted PARSERS f = Some instance ->
  p ∈ candidates instance ->
  let m' := this_parsers (snd (createParsers files listener s)) in
  (exists q, m' !! getTraceType p = Some q /\
             getLengthEntries p <= getLengthEntries q) /\
  (forall t old, this_parsers s !! t = Some old ->
     exists q, m' !! t = Some q /\ getLengthEntries old <= getLengthEntries q).
Proof.
  intros Hin Hacc Hp m'. subst m'. rewrite createParsers_store. cbn [snd].
  split.
  - now apply (covers_forEachTraceFile _ _ _ _ _ f instance).
  - change (this_parsers s) with (this_parsers (resetLocals s)).
    apply dominated_forEachTraceFile.
Qed.

(** *** Which errors are reported *)

Lemma addCandidates_errors instance f s :
  exists extra,
    errors (snd (addCandidates instance f s)) = errors s ++ extra /\
    Forall (fun e => type e = OVERRIDE) extra.
Proof.
  unfold addCandidates. revert s.
  induction (candidates instance) as [| p ps IH]; intros s; simpl.
  - exists []. split; [now rewrite app_nil_r | constructor].
  - unfold bind. rewrite (FactoryFacts.maybeAddParser_returns World p f s).
    destruct (IH (snd (maybeAddParser p f s))) as (extra & -> & Hall).
    destruct (maybeAddParser_cases p f s)
      as [[Hnone ->] | [(old & Hold & Hlt & ->) | (old & Hold & Hle & ->)]]; simpl.
    + now exists extra.
    + exists (overrideError old :: extra).
      split; [now rewrite <- app_assoc | now constructor].
    + exists (overrideError p :: extra).
      split; [now rewrite <- app_assoc | now constructor].
Qed.

Lemma filter_isUnsupported_override extra :
  Forall (fun e => type e = OVERRIDE) extra ->
  List.filter isUnsupported extra = [].
Proof.
  induction 1 as [| e extra He _ IH]; [reflexivity |].
  simpl. unfold isUnsupported at 1. rewrite He. simpl. exact IH.
Qed.

Lemma unsupported_forEachTraceFile listener len files : forall index s,
  List.filter isUnsupported
    (errors (snd (forEachTraceFile listener len index files s)))
  = List.filter isUnsupported (errors s)
    ++ map unsupportedError (List.filter (rejected construct parse) files).
Proof.
  induction files as [| f rest IH]; intros index s.
  - simpl. now rewrite app_nil_r.
  - rewrite forEachTraceFile_cons, IH, processTraceFile_store. cbn [snd].
    destruct (notifyProgress_fields listener "Parsing proto files"
                (percentage index len) s) as (_ & He & _).
    cbn [List.filter]. unfold rejected at 2.
    destruct (firstAccepted PARSERS f) as [instance |].
    + destruct (addCandidates_errors instance f
                  (snd (notifyProgress listener "Parsing proto files"
                          (percentage index len) s))) as (extra & -> & Hall).
      rewrite List.filter_app, (filter_isUnsupported_override extra Hall), He.
      now rewrite app_nil_r.
    + simpl. rewrite List.filter_app, He. simpl. now rewrite <- app_assoc.
Qed.

(** X4. The UNSUPPORTED_FORMAT errors that [createParsers] returns are,
    in file order, exactly one per input file that no variant accepts,
    each carrying that file's descriptor. *)
Theorem unsupported_errors_are_the_rejected_files files listener s :
  exists pairs errs,
    fst (createParsers files listener s) = Returns (pairs, errs) /\
    List.filter isUnsupported errs
    = map (fun f => mkParserError UNSUPPORTED_FORMAT (Some (getDescriptor f)) None)
          (List.filter (rejected construct parse) files).
Proof.
  rewrite createParsers_store. cbn [fst]. eexists _, _.
  split; [reflexivity |].
  now rewrite unsupported_forEachTraceFile.
Qed.

(** *** Loading what is already loaded *)

Lemma addCandidates_registered instance f s :
  (forall p, p ∈ candidates instance ->
             this_parsers s !! getTraceType p = Some p) ->
  snd (addCandidates instance f s)
  = withErrors s (errors s ++ map overrideError (candidates instance)).
Proof.
  unfold addCandidates. revert s.
  induction (candidates instance) as [| p ps IH]; intros s Hreg; simpl.
  - rewrite app_nil_r. now destruct s.
  - unfold bind. rewrite (FactoryFacts.maybeAddParser_returns World p f s).
    assert (Hstep : snd (maybeAddParser p f s)
                    = withErrors s (errors s ++ [overrideError p])).
    { unfold maybeAddParser, bind at 1.
      rewrite (FactoryFacts.shouldUseParser_not_longer World s p p);
        [reflexivity | apply Hreg; apply list_elem_of_here | lia]. }
    rewrite Hstep, IH.
    + unfold withErrors. simpl. now rewrite <- app_assoc.
    + intros q Hq. simpl. apply Hreg. now apply list_elem_of_further.
Qed.

Lemma reload_forEachTraceFile listener len files : forall index s,
  (forall f instance p,
      f ∈ files -> firstAccepted PARSERS f = Some instance ->
      p ∈ candidates instance ->
      this_parsers s !! getTraceType p = Some p) ->
  let s' := snd (forEachTraceFile listener len index files s) in
  this_parsers s' = this_parsers s /\
  parsers s' = parsers s /\
  errors s' = errors s ++ concat (map (reloadErrors construct parse) files).
Proof.
  induction files as [| f rest IH]; intros index s Hreg.
  - simpl. now rewrite app_nil_r.
  - cbv zeta. rewrite forEachTraceFile_cons.
    destruct (notifyProgress_fields listener "Parsing proto files"
                (percentage index len) s) as (Hm & He & Hp).
    assert (Hfile :
      let s1 := snd (processTraceFile listener len index f s) in
      this_parsers s1 = this_parsers s /\ parsers s1 = parsers s /\
      errors s1 = errors s ++ reloadErrors construct parse f).
    { rewrite processTraceFile_store. cbn [snd]. unfold reloadErrors.
      destruct (firstAccepted PARSERS f) as [instance |] eqn:Hacc.
      - rewrite addCandidates_registered.
        + simpl. now rewrite Hm, He, Hp.
        + intros p Hin. rewrite Hm.
          apply (Hreg f instance p); [apply list_elem_of_here | exact Hacc | exact Hin].
      - simpl. now rewrite Hm, He, Hp. }
    destruct Hfile as (Hm1 & Hp1 & He1).
    destruct (IH (S index) (snd (processTraceFile listener len index f s)))
      as (Hm2 & Hp2 & He2).
    { intros f' instance p Hin Hacc Hcand. rewrite Hm1.
      apply (Hreg f' instance p); [now apply list_elem_of_further | exact Hacc | exact Hcand]. }
    rewrite Hm2, Hp2, He2, Hm1, Hp1, He1. simpl.
    now rewrite <- app_assoc.
Qed.

(** X5. Loading what is already loaded.  When every parser the files
    put forward is already registered under its type (as after a first
    load of the same files), [createParsers] returns no pair, leaves the
    map as it is, and reports each parser put forward by one OVERRIDE
    error (and each file no variant accepts by UNSUPPORTED_FORMAT), in
    order. *)
Theorem reload_is_rejected files listener s :
  (forall f instance p,
      f ∈ files -> firstAccepted PARSERS f = Some instance ->
      p ∈ candidates instance ->
      this_parsers s !! getTraceType p = Some p) ->
  fst (createParsers files listener s)
  = Returns ([], concat (map (reloadErrors construct parse) files)) /\
  this_parsers (snd (createParsers files listener s)) = this_parsers s.
Proof.
  intros Hreg. rewrite createParsers_store. cbn [fst snd].
  destruct (reload_forEachTraceFile listener (length files) files 0
              (resetLocals s) Hreg) as (Hm & Hp & He).
  rewrite Hm, Hp, He. split; reflexivity.
Qed.

(** *** Where pairs and map entries come from *)

Lemma provenance_forEachTraceFile listener len all (m0 : gmap nat Parser) files :
  forall index s,
  (forall f, f ∈ files -> f ∈ all) ->
  (Forall (putForward construct parse all) (parsers s) /\
   (forall t p, this_parsers s !! t = Some p ->
                m0 !! t = Some p \/ exists f, (f, p) ∈ parsers s)) ->
  let s' := snd (forEachTraceFile listener len index files s) in
  Forall (putForward construct parse all) (parsers s') /\
  (forall t p, this_parsers s' !! t = Some p ->
               m0 !! t = Some p \/ exists f, (f, p) ∈ parsers s').
Proof.
  induction files as [| f rest IH]; intros index s Hsub Hinv; [exact Hinv |].
  cbv zeta. rewrite forEachTraceFile_cons.
  apply IH; [intros f' Hin; apply Hsub; now apply list_elem_of_further |].
  rewrite processTraceFile_store. cbn [snd].
  destruct (notifyProgress_fields listener "Parsing proto files"
              (percentage index len) s) as (Hm & He & Hp).
  set (s0 := snd (notifyProgress listener "Parsing proto files"
                    (percentage index len) s)) in *.
  assert (Hinv0 : Forall (putForward construct parse all) (parsers s0) /\
                  (forall t p, this_parsers s0 !! t = Some p ->
                     m0 !! t = Some p \/ exists f, (f, p) ∈ parsers s0)).
  { now rewrite Hm, Hp. }
  clearbody s0. clear Hinv Hm He Hp.
  destruct (firstAccepted PARSERS f) as [instance |] eqn:Hacc; [| exact Hinv0].
  unfold addCandidates.
  assert (Hcand : forall p, p ∈ candidates instance ->
                            putForward construct parse all (f, p)).
  { intros p Hin. split; [apply Hsub, list_elem_of_here |].
    exists instance. now split. }
  revert s0 Hinv0 Hcand.
  induction (candidates instance) as [| p ps IHps]; intros s0 Hinv0 Hcand;
    [exact Hinv0 |].
  simpl. unfold bind. rewrite (FactoryFacts.maybeAddParser_returns World p f s0).
  apply IHps; [| intros q Hq; apply Hcand; now apply list_elem_of_further].
  destruct Hinv0 as [Hpairs Hmap].
  destruct (maybeAddParser_cases p f s0)
    as [[Hnone ->] | [(old & Hold & Hlt & ->) | (old & Hold & Hle & ->)]]; simpl.
  - split.
    + apply Forall_app. split; [exact Hpairs |].
      constructor; [apply Hcand, list_elem_of_here | constructor].
    + intros t q. rewrite lookup_insert. case_decide.
      * intros [= <-]. right. exists f. set_solver.
      * intros Hq. destruct (Hmap t q Hq) as [? | [f' Hf']]; [now left |].
        right. exists f'. set_solver.
  - split.
    + apply Forall_app. split; [exact Hpairs |].
      constructor; [apply Hcand, list_elem_of_here | constructor].
    + intros t q. rewrite lookup_insert. case_decide.
      * intros [= <-]. right. exists f. set_solver.
      * intros Hq. destruct (Hmap t q Hq) as [? | [f' Hf']]; [now left |].
        right. exists f'. set_solver.
  - now split.
Qed.

(** X6. Where pairs and map entries come from.  Every pair that
    [createParsers] returns joins an input file with a parser put
    forward by the first variant accepting that file; and every parser
    of the map afterwards was either in the map before, under the same
    type, or is the parser of a returned pair. *)
Theorem pairs_and_entries_provenance files listener s :
  let result := createParsers files listener s in
  let pairs := parsers (snd result) in
  fst result = Returns (pairs, errors (snd result)) /\
  (forall f p, (f, p) ∈ pairs ->
     f ∈ files /\
     exists instance, firstAccepted PARSERS f = Some instance /\
                      p ∈ candidates instance) /\
  (forall t p, this_parsers (snd result) !! t = Some p ->
     this_parsers s !! t = Some p \/ exists f, (f, p) ∈ pairs).
Proof.
  cbv zeta. rewrite createParsers_store. cbn [fst snd].
  split; [reflexivity |].
  destruct (provenance_forEachTraceFile listener (length files) files
              (this_parsers s) files 0 (resetLocals s))
    as [Hpairs Hmap].
  - auto.
  - split; [constructor | intros t p Hp; now left].
  - split; [| exact Hmap].
    intros f p Hin. rewrite Forall_forall in Hpairs.
    exact (Hpairs (f, p) Hin).
Qed.

End WithEnvironment.

End FactoryMore.

(** ** More on the trace pipeline *)

Module PipelineMore.

Import Pipeline PipelineSpec PipelineTimestamps PipelineInvariants.

Lemma setTraces_from_lookup (ps : list Parser) (m : gmap nat Parser) t :
  fold_left (fun traces parser => <[getTraceType parser := parser]> traces) ps m !! t
  = match lastOfType t ps with
    | Some p => Some p
    | None => m !! t
    end.
Proof.
  unfold lastOfType. revert m.
  induction ps as [| p ps IH]; intros m; [reflexivity |].
  simpl. rewrite IH. destruct (Nat.eqb_spec (getTraceType p) t) as [Heq | Hne].
  - rewrite last_cons. destruct (last (List.filter _ ps)); [reflexivity |].
    subst t. apply lookup_insert_eq.
  - destruct (last (List.filter _ ps)); [reflexivity |].
    now apply lookup_insert_ne.
Qed.

Lemma lastOfType_None t ps : lastOfType t ps = None <-> hasType t ps = false.
Proof.
  unfold lastOfType, hasType. induction ps as [| p ps IH]; [easy |].
  simpl. destruct (getTraceType p =? t)%nat; simpl; [| exact IH].
  split; [| discriminate].
  rewrite last_cons. destruct (last (List.filter _ ps)); discriminate.
Qed.

Section WithCollaborators.

Variable World : Type.
Variable construct : ParserType -> TraceFile -> Outcome ParserInstance.
Variable parse : ParserInstance -> Outcome ParserInstance.
Variable filter : list TraceFile -> FilterResult.
Variable perfettoCreateParsers : TraceFile -> Outcome (list Parser).
Variable tracesCreateParsers : list Parser -> Outcome (list Parser).
Variables TRANSITION WM_TRANSITION SHELL_TRANSITION : nat.

Local Abbreviation load :=
  (loadTraceFiles (World := World) construct parse filter perfettoCreateParsers
     tracesCreateParsers TRANSITION WM_TRANSITION SHELL_TRANSITION).

Lemma setTraces_lookup ps t : setTraces ps !! t = lastOfType t ps.
Proof.
  unfold setTraces. rewrite setTraces_from_lookup, lookup_empty.
  now destruct (lastOfType t ps).
Qed.

(** The shape of a load that found usable input and returned. *)
Lemma load_returns_inv tp w traceFiles listener errs tp' w' :
  ~ noUsableInput filter traceFiles ->
  load tp w traceFiles listener = (Returns errs, (tp', w')) ->
  exists derived,
    tracesCreateParsers (parsers tp') = Returns derived /\
    traces tp'
    = (let all := setTraces (parsers tp' ++ derived) in
       if bool_decide (is_Some (all !! TRANSITION))
       then delete SHELL_TRANSITION (delete WM_TRANSITION all)
       else all) /\
    commonTimestampType tp' = commonTimestampType tp /\
    parsers tp `prefix_of` parsers tp' /\
    filterErrors (filter traceFiles) `prefix_of` errs.
Proof.
  intros Husable. unfold loadTraceFiles.
  destruct (bool_decide (perfetto (filter traceFiles) = None)
            && (length (legacy (filter traceFiles)) =? 0)%nat) eqn:Hnone.
  { exfalso. apply Husable. apply andb_true_iff in Hnone as [Hp Hl].
    apply bool_decide_eq_true in Hp. apply Nat.eqb_eq in Hl.
    split; [exact Hp | now apply length_zero_iff_nil]. }
  set (parsers1 := match perfetto (filter traceFiles) with
                   | Some file =>
                       match perfettoCreateParsers file with
                       | Returns perfettoParsers => Returns (parsers tp ++ perfettoParsers)
                       | Throws e => Throws e
                       end
                   | None => Returns (parsers tp)
                   end).
  assert (Hprefix : forall ps, parsers1 = Returns ps -> parsers tp `prefix_of` ps).
  { subst parsers1. intros ps.
    destruct (perfetto (filter traceFiles)) as [file |].
    - destruct (perfettoCreateParsers file); intros [= <-]. apply prefix_app_r. reflexivity.
    - intros [= <-]. reflexivity. }
  destruct parsers1 as [ps1 | e]; [| discriminate].
  specialize (Hprefix ps1 eq_refl).
  destruct (Factory.createParsers _ _ _ _ _) as [[[pairs legacyErrors] | e] s1];
    [| discriminate].
  destruct (tracesCreateParsers (ps1 ++ map snd pairs)) as [derived | e] eqn:Hderived;
    [| discriminate].
  intros [= <- <- <-]. cbn [parsers traces commonTimestampType].
  exists derived. split; [exact Hderived |]. split; [reflexivity |].
  split; [reflexivity |]. split.
  - etrans; [exact Hprefix | apply prefix_app_r; reflexivity].
  - apply prefix_app_r. reflexivity.
Qed.

(** X7. Derived-trace removal.  After a load that found usable input
    and returned, if a parser of type TRANSITION is among the kept
    parsers or the derived ones, the trace collection has a TRANSITION
    trace and neither a WM_TRANSITION nor a SHELL_TRANSITION trace (the
    three being distinct members of the enum). *)
Theorem transition_collapses_sub_traces tp w traceFiles listener errs tp' w' derived :
  ~ noUsableInput filter traceFiles ->
  load tp w traceFiles listener = (Returns errs, (tp', w')) ->
  tracesCreateParsers (parsers tp') = Returns derived ->
  hasType TRANSITION (parsers tp' ++ derived) = true ->
  TRANSITION <> WM_TRANSITION ->
  TRANSITION <> SHELL_TRANSITION ->
  is_Some (traces tp' !! TRANSITION) /\
  traces tp' !! WM_TRANSITION = None /\
  traces tp' !! SHELL_TRANSITION = None.
Proof.
  intros Husable Hload Hderived Hhas Hwm Hshell.
  destruct (load_returns_inv _ _ _ _ _ _ _ Husable Hload)
    as (derived' & Hderived' & -> & _).
  rewrite Hderived in Hderived'. injection Hderived' as <-.
  cbv zeta.
  assert (Hsome : is_Some (setTraces (parsers tp' ++ derived) !! TRANSITION)).
  { rewrite setTraces_lookup.
    destruct (lastOfType TRANSITION (parsers tp' ++ derived)) eqn:Hlast; [eauto |].
    apply lastOfType_None in Hlast. congruence. }
  rewrite bool_decide_eq_true_2 by exact Hsome.
  split; [| split].
  - rewrite !lookup_delete_ne by congruence. exact Hsome.
  - destruct (decide (SHELL_TRANSITION = WM_TRANSITION)) as [-> | Hne].
    + apply lookup_delete_eq.
    + rewrite lookup_delete_ne by exact Hne. apply lookup_delete_eq.
  - apply lookup_delete_eq.
Qed.

(** X8. Which trace a type gets.  After a load that found usable input
    and returned, the trace stored under a type is built from the last
    parser of that type among the kept parsers followed by the derived
    ones -- a parser loaded later shadows an earlier one of its type --
    except that WM_TRANSITION and SHELL_TRANSITION have no trace when a
    TRANSITION parser is present. *)
Theorem trace_of_a_type tp w traceFiles listener errs tp' w' derived t :
  ~ noUsableInput filter traceFiles ->
  load tp w traceFiles listener = (Returns errs, (tp', w')) ->
  tracesCreateParsers (parsers tp') = Returns derived ->
  traces tp' !! t
  = if hasType TRANSITION (parsers tp' ++ derived)
       && ((t =? WM_TRANSITION)%nat || (t =? SHELL_TRANSITION)%nat)
    then None
    else lastOfType t (parsers tp' ++ derived).
Proof.
  intros Husable Hload Hderived.
  destruct (load_returns_inv _ _ _ _ _ _ _ Husable Hload)
    as (derived' & Hderived' & -> & _).
  rewrite Hderived in Hderived'. injection Hderived' as <-.
  cbv zeta.
  destruct (hasType TRANSITION (parsers tp' ++ derived)) eqn:Hhas.
  - assert (Hsome : is_Some (setTraces (parsers tp' ++ derived) !! TRANSITION)).
    { rewrite setTraces_lookup.
      destruct (lastOfType TRANSITION (parsers tp' ++ derived)) eqn:Hlast; [eauto |].
      apply lastOfType_None in Hlast. congruence. }
    rewrite bool_decide_eq_true_2 by exact Hsome. simpl.
    destruct (Nat.eqb_spec t SHELL_TRANSITION) as [-> | Hs].
    + rewrite orb_true_r. apply lookup_delete_eq.
    + rewrite orb_false_r, lookup_delete_ne by congruence.
      destruct (Nat.eqb_spec t WM_TRANSITION) as [-> | Hw].
      * apply lookup_delete_eq.
      * rewrite lookup_delete_ne by congruence. apply setTraces_lookup.
  - assert (Hnone : ~ is_Some (setTraces (parsers tp' ++ derived) !! TRANSITION)).
    { rewrite setTraces_lookup. apply lastOfType_None in Hhas. rewrite Hhas.
      intros [x Hx]. discriminate. }
    rewrite bool_decide_eq_false_2 by exact Hnone. simpl.
    apply setTraces_lookup.
Qed.

Lemma load_keeps_cache tp w traceFiles listener :
  commonTimestampType (fst (snd (load tp w traceFiles listener)))
  = commonTimestampType tp.
Proof.
  unfold loadTraceFiles.
  destruct (bool_decide _ && _); [reflexivity |].
  destruct (perfetto (filter traceFiles)) as [file |].
  - destruct (perfettoCreateParsers file); [| reflexivity].
    destruct (Factory.createParsers _ _ _ _ _) as [[[pairs legacyErrors] | e] s1];
      [| reflexivity].
    destruct (tracesCreateParsers _); reflexivity.
  - destruct (Factory.createParsers _ _ _ _ _) as [[[pairs legacyErrors] | e] s1];
      [| reflexivity].
    destruct (tracesCreateParsers _); reflexivity.
Qed.

(** X9. [loadTraceFiles] returns whenever the factory of the unified
    format and the factory of derived parsers return: no behaviour of
    the trial parsers makes it throw.  The parsers kept so far stay, in
    order, at the front of the pipeline's list, and the cached timestamp
    type is not touched. *)
Theorem load_returns tp w traceFiles listener :
  (forall file, exists ps, perfettoCreateParsers file = Returns ps) ->
  (forall ps, exists derived, tracesCreateParsers ps = Returns derived) ->
  exists errs tp' w',
    load tp w traceFiles listener = (Returns errs, (tp', w')) /\
    parsers tp `prefix_of` parsers tp' /\
    commonTimestampType tp' = commonTimestampType tp.
Proof.
  intros Hperfetto Hderived.
  pose proof (load_keeps_cache tp w traceFiles listener) as Hcache.
  unfold loadTraceFiles in *.
  destruct (bool_decide _ && _).
  { eexists _, _, _. split; [reflexivity |]. split; reflexivity. }
  assert (Hps1 : exists ps1,
            match perfetto (filter traceFiles) with
            | Some file =>
                match perfettoCreateParsers file with
                | Returns perfettoParsers => Returns (parsers tp ++ perfettoParsers)
                | Throws e => Throws e
                end
            | None => Returns (parsers tp)
            end = Returns ps1 /\ parsers tp `prefix_of` ps1).
  { destruct (perfetto (filter traceFiles)) as [file |].
    - destruct (Hperfetto file) as [ps ->]. eexists. split; [reflexivity |].
      apply prefix_app_r. reflexivity.
    - eexists. split; reflexivity. }
  destruct Hps1 as (ps1 & Hps1 & Hprefix). rewrite Hps1 in *.
  destruct (Factory.createParsers construct parse (legacy (filter traceFiles))
              listener (Factory.mkStore (parserFactory tp) [] [] w))
    as [[[pairs legacyErrors] | e] s1] eqn:Hfactory.
  - destruct (Hderived (ps1 ++ map snd pairs)) as [derived Hd].
    rewrite Hd in *. eexists _, _, _. split; [reflexivity |]. cbn [parsers].
    split; [| exact Hcache].
    etrans; [exact Hprefix | apply prefix_app_r; reflexivity].
  - rewrite FactoryMore.createParsers_store in Hfactory. discriminate.
Qed.

End WithCollaborators.


Section WithTimestamps.

Variable Timestamps : Type.
Variable getTimestamps : Parser -> TimestampType -> option Timestamps.

Local Abbreviation getCommon := (getCommonTimestampType Timestamps getTimestamps).
Local Abbreviation allHave := (PipelineTimestamps.allHave Timestamps getTimestamps).

Lemma forallb_allHave tp t :
  forallb (fun it => isDefined (getTimestamps it t)) (parsers tp) = true <->
  allHave tp t.
Proof.
  rewrite forallb_forall. unfold PipelineTimestamps.allHave. split.
  - intros H p Hin. apply list_elem_of_In in Hin. specialize (H p Hin).
    destruct (getTimestamps p t); [eauto | discriminate].
  - intros H p Hin. apply list_elem_of_In in Hin.
    destruct (H p Hin) as [x ->]. reflexivity.
Qed.

(** X11. Choice of the timestamp domain.  With nothing cached: REAL is
    chosen when every parser has REAL timestamps (also when ELAPSED is
    available everywhere, and when there is no parser at all); ELAPSED
    when some parser lacks REAL and every parser has ELAPSED; otherwise
    the call throws and caches nothing.  A chosen type is cached. *)
Theorem timestamp_type_choice tp :
  commonTimestampType tp = None ->
  (allHave tp REAL ->
     getCommon tp = (Returns REAL, setCommonTimestampType tp REAL)) /\
  (~ allHave tp REAL -> allHave tp ELAPSED ->
     getCommon tp = (Returns ELAPSED, setCommonTimestampType tp ELAPSED)) /\
  (~ allHave tp REAL -> ~ allHave tp ELAPSED ->
     exists e, getCommon tp = (Throws e, tp)) /\
  (parsers tp = [] -> fst (getCommon tp) = Returns REAL).
Proof.
  intros Hcache. unfold getCommonTimestampType. rewrite Hcache.
  cbn [findCommonTimestampType].
  pose proof (forallb_allHave tp REAL) as Hreal.
  pose proof (forallb_allHave tp ELAPSED) as Helapsed.
  destruct (forallb (fun it => isDefined (getTimestamps it REAL)) (parsers tp))
    eqn:Hr.
  - split; [reflexivity |]. split; [intros Hn; exfalso; apply Hn; tauto |].
    split; [intros Hn; exfalso; apply Hn; tauto | reflexivity].
  - assert (Hnr : ~ allHave tp REAL) by (intros H; apply Hreal in H; discriminate).
    split; [intros H; contradiction |].
    destruct (forallb (fun it => isDefined (getTimestamps it ELAPSED)) (parsers tp))
      eqn:He.
    + split; [reflexivity |]. split; [intros _ Hn; exfalso; apply Hn; tauto |].
      intros Hnil. rewrite Hnil in Hr. discriminate.
    + split; [intros _ H; apply Helapsed in H; discriminate |].
      split; [intros _ _; eexists; reflexivity |].
      intros Hnil. rewrite Hnil in Hr. discriminate.
Qed.

Section WithCollaborators.

Variable World : Type.
Variable construct : ParserType -> TraceFile -> Outcome ParserInstance.
Variable parse : ParserInstance -> Outcome ParserInstance.
Variable filter : list TraceFile -> FilterResult.
Variable perfettoCreateParsers : TraceFile -> Outcome (list Parser).
Variable tracesCreateParsers : list Parser -> Outcome (list Parser).
Variables TRANSITION WM_TRANSITION SHELL_TRANSITION : nat.

Local Abbreviation load :=
  (loadTraceFiles (World := World) construct parse filter perfettoCreateParsers
     tracesCreateParsers TRANSITION WM_TRANSITION SHELL_TRANSITION).

(** X12. The chosen timestamp type sticks.  Once
    [getCommonTimestampType] has returned a type, it returns that type
    again after any further [loadTraceFiles] and [removeTrace], whatever
    timestamps the parsers then have; only [clear] forgets it. *)
Theorem timestamp_type_is_cached tp t tp1 :
  getCommon tp = (Returns t, tp1) ->
  getCommon tp1 = (Returns t, tp1) /\
  (forall w traceFiles listener,
      let tp2 := fst (snd (load tp1 w traceFiles listener)) in
      getCommon tp2 = (Returns t, tp2)) /\
  (forall traceType,
      getCommon (removeTrace tp1 traceType)
      = (Returns t, removeTrace tp1 traceType)) /\
  commonTimestampType (clear tp1) = None.
Proof.
  intros Hfirst.
  assert (Hcached : commonTimestampType tp1 = Some t).
  { unfold getCommonTimestampType in Hfirst.
    destruct (commonTimestampType tp) as [t0 |] eqn:Hc.
    - injection Hfirst as <- <-. exact Hc.
    - simpl in Hfirst.
      repeat match type of Hfirst with
             | (if ?c then _ else _) = _ => destruct c
             end;
        try discriminate; injection Hfirst as <- <-; reflexivity. }
  assert (Hagain : forall tp2, commonTimestampType tp2 = Some t ->
                               getCommon tp2 = (Returns t, tp2)).
  { intros tp2 H2. unfold getCommonTimestampType. now rewrite H2. }
  split; [now apply Hagain |].
  split; [| split; [| reflexivity]].
  - intros w traceFiles listener. cbv zeta. apply Hagain.
    now rewrite (load_keeps_cache World construct parse filter
                   perfettoCreateParsers tracesCreateParsers
                   TRANSITION WM_TRANSITION SHELL_TRANSITION).
  - intros traceType. now apply Hagain.
Qed.

End WithCollaborators.

End WithTimestamps.

End PipelineMore.

(** ** More on the SurfaceFlinger presenter *)

Module PresenterViewsFacts.

Import Presenter PresenterViews PresenterViewsSpec.

Lemma includes_elem_of (items : list string) x :
  includes items x = true <-> x ∈ items.
Proof.
  unfold includes. rewrite existsb_exists. split.
  - intros (y & Hin & Heq). apply String.eqb_eq in Heq. subst y.
    now apply list_elem_of_In.
  - intros Hin. exists x. split; [now apply list_elem_of_In | apply String.eqb_refl].
Qed.

Lemma includes_not_elem_of (items : list string) x :
  includes items x = false <-> x ∉ items.
Proof.
  rewrite <- includes_elem_of. destruct (includes items x); split; congruence.
Qed.

Lemma filter_all {A : Type} (keep : A -> bool) (l : list A) :
  (forall x, x ∈ l -> keep x = true) -> List.filter keep l = l.
Proof.
  induction l as [| x l IH]; intros Hall; [reflexivity |].
  simpl. rewrite (Hall x) by apply list_elem_of_here.
  f_equal. apply IH. intros y Hy. apply Hall. now apply list_elem_of_further.
Qed.

Lemma elem_of_list_filter_bool {A : Type} (keep : A -> bool) (l : list A) x :
  x ∈ List.filter keep l <-> x ∈ l /\ keep x = true.
Proof. now rewrite !list_elem_of_In, filter_In. Qed.

(** X13. [updatePinnedIds] toggles one id: afterwards the id is pinned
    exactly when it was not before, every other id is pinned exactly
    when it was; a list without repetition stays so; and toggling an
    unpinned id twice gives the list back. *)
Theorem updatePinnedIds_toggles pinnedIds newId :
  (forall x, x ∈ updatePinnedIds pinnedIds newId <->
             (x <> newId /\ x ∈ pinnedIds) \/ (x = newId /\ newId ∉ pinnedIds)) /\
  (NoDup pinnedIds -> NoDup (updatePinnedIds pinnedIds newId)) /\
  (newId ∉ pinnedIds ->
   updatePinnedIds (updatePinnedIds pinnedIds newId) newId = pinnedIds).
Proof.
  unfold updatePinnedIds at 1 2.
  split; [| split].
  - intros x. destruct (includes pinnedIds newId) eqn:Hinc.
    + apply includes_elem_of in Hinc.
      rewrite elem_of_list_filter_bool, negb_true_iff, String.eqb_neq. tauto.
    + apply includes_not_elem_of in Hinc.
      rewrite elem_of_app, list_elem_of_singleton. split.
      * intros [Hx | ->]; [left | right; tauto].
        split; [intros -> | exact Hx]. contradiction.
      * intros [[_ Hx] | [-> _]]; tauto.
  - intros Hnd. destruct (includes pinnedIds newId) eqn:Hinc.
    + apply NoDup_ListNoDup, List.NoDup_filter. now apply NoDup_ListNoDup.
    + apply includes_not_elem_of in Hinc.
      apply NoDup_app. split; [exact Hnd |]. split.
      * intros x Hx Hx'. apply list_elem_of_singleton in Hx'. subst x. contradiction.
      * apply NoDup_singleton.
  - intros Hnot. unfold updatePinnedIds.
    rewrite (proj2 (includes_not_elem_of pinnedIds newId) Hnot).
    assert (Hin : includes (pinnedIds ++ [newId]) newId = true).
    { apply includes_elem_of. set_solver. }
    rewrite Hin, List.filter_app. simpl. rewrite String.eqb_refl. simpl.
    rewrite app_nil_r. apply filter_all.
    intros x Hx. apply negb_true_iff, String.eqb_neq. intros ->. contradiction.
Qed.

(** *** The pinned nodes of a tree *)

Lemma getPinnedItems_preorder pinnedIds tree :
  getPinnedItems pinnedIds tree
  = List.filter (fun n => includes pinnedIds (hierarchyId n)) (preorder tree).
Proof.
  induction tree as [tree IH] using PresenterFacts.HierarchyTreeNode_forall_ind.
  destruct tree as [id nm root props children]. simpl in IH.
  cbn [getPinnedItems preorder List.filter hierarchyId].
  set (self := mkHierarchyTreeNode id nm root props children).
  assert (Hloop : forall acc,
    (fix loop (pinnedNodes rest : list HierarchyTreeNode) {struct rest} :=
       match rest with
       | [] => pinnedNodes
       | child :: rest0 => loop (pinnedNodes ++ getPinnedItems pinnedIds child) rest0
       end) acc children
    = acc ++ List.filter (fun n => includes pinnedIds (hierarchyId n))
               ((fix all (rest : list HierarchyTreeNode) :=
                   match rest with
                   | [] => []
                   | child :: rest0 => preorder child ++ all rest0
                   end) children)).
  { clear self. induction children as [| child rest IHrest]; intros acc.
    - simpl. now rewrite app_nil_r.
    - apply Forall_cons in IH as [Hchild Hrest].
      rewrite IHrest by exact Hrest.
      rewrite Hchild, List.filter_app, app_assoc. reflexivity. }
  rewrite Hloop. destruct (includes pinnedIds id); reflexivity.
Qed.

Lemma preorder_head tree : tree ∈ preorder tree.
Proof. destruct tree. simpl. apply list_elem_of_here. Qed.

Lemma preorder_children tree x :
  x ∈ preorder tree <->
  x = tree \/ exists child, child ∈ hierarchyChildren tree /\ x ∈ preorder child.
Proof.
  destruct tree as [id nm root props children].
  cbn [preorder hierarchyChildren]. rewrite elem_of_cons.
  apply or_iff_compat_l.
  induction children as [| child rest IH].
  - split; [intros H; now apply elem_of_nil in H |].
    intros (c & Hc & _). now apply elem_of_nil in Hc.
  - rewrite elem_of_app, IH. split.
    + intros [Hx | (c & Hc & Hx)].
      * exists child. split; [apply list_elem_of_here | exact Hx].
      * exists c. split; [now apply list_elem_of_further | exact Hx].
    + intros (c & Hc & Hx). apply elem_of_cons in Hc as [-> | Hc]; [now left |].
      right. now exists c.
Qed.

Lemma NodeOf_trans tree m n : NodeOf tree m -> NodeOf m n -> NodeOf tree n.
Proof.
  intros Hm Hn. induction Hn as [| parent n _ IH Hin]; [exact Hm |].
  now apply (NodeOf_child tree parent).
Qed.

Lemma preorder_NodeOf tree : forall n, n ∈ preorder tree -> NodeOf tree n.
Proof.
  induction tree as [tree IH] using PresenterFacts.HierarchyTreeNode_forall_ind.
  intros n Hn. apply preorder_children in Hn as [-> | (child & Hchild & Hn)].
  - constructor.
  - rewrite Forall_forall in IH.
    apply (NodeOf_trans tree child n).
    + apply (NodeOf_child tree tree); [constructor | exact Hchild].
    + now apply IH.
Qed.

Lemma preorder_closed tree : forall m x,
  m ∈ preorder tree -> x ∈ preorder m -> x ∈ preorder tree.
Proof.
  induction tree as [tree IH] using PresenterFacts.HierarchyTreeNode_forall_ind.
  intros m x Hm Hx. apply preorder_children in Hm as [-> | (child & Hchild & Hm)];
    [exact Hx |].
  apply preorder_children. right. exists child. split; [exact Hchild |].
  rewrite Forall_forall in IH. now apply (IH child Hchild m).
Qed.

Lemma NodeOf_preorder tree n : NodeOf tree n -> n ∈ preorder tree.
Proof.
  induction 1 as [| parent n _ IH Hin]; [apply preorder_head |].
  apply (preorder_closed tree parent); [exact IH |].
  apply preorder_children. right. exists n. split; [exact Hin | apply preorder_head].
Qed.

(** X14. [getPinnedItems] returns the pinned nodes of the tree, and only
    them: a node is in the result exactly when it is the tree or one of
    its descendants and its id is pinned; the result lists them parents
    first, as they are met going down the tree. *)
Theorem getPinnedItems_are_the_pinned_nodes pinnedIds tree :
  (forall n, n ∈ getPinnedItems pinnedIds tree <->
             NodeOf tree n /\ hierarchyId n ∈ pinnedIds) /\
  getPinnedItems pinnedIds tree
  = List.filter (fun n => includes pinnedIds (hierarchyId n)) (preorder tree).
Proof.
  split; [| apply getPinnedItems_preorder].
  intros n. rewrite getPinnedItems_preorder, elem_of_list_filter_bool,
    includes_elem_of.
  split; intros [Hn Hid]; (split; [| exact Hid]).
  - now apply preorder_NodeOf.
  - now apply NodeOf_preorder.
Qed.

Lemma map_filter_ids (items : list HierarchyTreeNode) pinnedId :
  map hierarchyId
    (List.filter (fun pinned => negb (String.eqb (hierarchyId pinned) pinnedId)) items)
  = List.filter (fun pinned => negb (String.eqb pinned pinnedId))
      (map hierarchyId items).
Proof.
  induction items as [| item items IH]; [reflexivity |].
  simpl. destruct (negb (String.eqb (hierarchyId item) pinnedId)); simpl; now rewrite IH.
Qed.

(** X15. [onPinnedItemChange] keeps the pinned ids and the pinned items
    in step: if the ids of the pinned items are the pinned ids before
    the call, they are afterwards; the item is then pinned exactly when
    it was not before; and the view is handed the new list once. *)
Theorem onPinnedItemChange_keeps_ids_in_step st pinnedItem :
  map hierarchyId (pinnedItems st) = pinnedIds st ->
  let st' := onPinnedItemChange st pinnedItem in
  map hierarchyId (pinnedItems st') = pinnedIds st' /\
  (hierarchyId pinnedItem ∈ pinnedIds st' <->
   hierarchyId pinnedItem ∉ pinnedIds st) /\
  uiData_pinnedItems st' = pinnedItems st' /\
  notified st' = notified st ++ [pinnedItems st'].
Proof.
  intros Hstep. cbv zeta. unfold onPinnedItemChange.
  cbn [pinnedItems pinnedIds uiData_pinnedItems notified].
  split; [| split; [| split; reflexivity]].
  - unfold updatePinnedIds. rewrite Hstep.
    destruct (includes (pinnedIds st) (hierarchyId pinnedItem)).
    + now rewrite map_filter_ids, Hstep.
    + now rewrite map_app, Hstep.
  - destruct (updatePinnedIds_toggles (pinnedIds st) (hierarchyId pinnedItem))
      as (Helem & _).
    rewrite Helem. tauto.
Qed.

(** *** Layer summaries *)

Lemma split_lacks separator a :
  lacks separator a -> split separator a = [a].
Proof.
  induction a as [| c a IH]; [reflexivity |].
  intros [Hc Ha]. simpl. rewrite (proj2 (Ascii.eqb_neq c separator) Hc).
  now rewrite IH.
Qed.

Lemma split_append separator a b :
  lacks separator a ->
  split separator (a ++ String separator b)%string = a :: split separator b.
Proof.
  induction a as [| c a IH].
  - intros _. simpl. now rewrite Ascii.eqb_refl.
  - intros [Hc Ha]. simpl. rewrite (proj2 (Ascii.eqb_neq c separator) Hc).
    now rewrite IH.
Qed.

Lemma split_first_lacks separator s :
  lacks separator (nth 0 (split separator s) EmptyString).
Proof.
  induction s as [| c s IH]; [exact I |].
  simpl. destruct (Ascii.eqb_spec c separator) as [-> | Hne]; [exact I |].
  destruct (split separator s) as [| part parts]; simpl in *; auto.
Qed.

Section WithFormatter.

Variable formattedValue : PropertyTreeNode -> string.

Local Abbreviation getLayerSummary := (PresenterViews.getLayerSummary formattedValue).
Local Abbreviation getSummaryOfVisibility :=
  (PresenterViews.getSummaryOfVisibility formattedValue).

(** X16. [getLayerSummary] splits the rendered layer at its spaces: the
    node id is the rendering itself; the layer id is its first word and
    never contains a space; without a space there is no name; the name
    is the second word only, so that of a rendering "id name" it is the
    name, and of "id name rest..." the part after the second space is
    lost. *)
Theorem getLayerSummary_words layer :
  nodeId (getLayerSummary layer) = formattedValue layer /\
  lacks " " (layerId (getLayerSummary layer)) /\
  (lacks " " (formattedValue layer) ->
   getLayerSummary layer
   = mkSfLayerSummary (formattedValue layer) (formattedValue layer) None) /\
  (forall id name,
      lacks " " id -> lacks " " name ->
      formattedValue layer = (id ++ " " ++ name)%string ->
      getLayerSummary layer
      = mkSfLayerSummary id (formattedValue layer) (Some name)) /\
  (forall id name rest,
      lacks " " id -> lacks " " name ->
      formattedValue layer = (id ++ " " ++ name ++ " " ++ rest)%string ->
      getLayerSummary layer
      = mkSfLayerSummary id (formattedValue layer) (Some name)).
Proof.
  unfold PresenterViews.getLayerSummary. cbn [nodeId layerId].
  split; [reflexivity |]. split; [apply split_first_lacks |].
  split; [| split].
  - intros Hlacks. now rewrite split_lacks.
  - intros id name Hid Hname ->.
    change (id ++ " " ++ name)%string with (id ++ String " " name)%string.
    rewrite split_append by exact Hid. now rewrite split_lacks.
  - intros id name rest Hid Hname ->.
    change (id ++ " " ++ name ++ " " ++ rest)%string
      with (id ++ String " " (name ++ String " " rest))%string.
    rewrite split_append by exact Hid. now rewrite split_append.
Qed.

Lemma pushLayers_keys tree property label summary :
  map key (pushLayers formattedValue tree property label summary)
  = map key summary ++ (if hasListed tree property then [label] else []).
Proof.
  unfold pushLayers, hasListed.
  destruct (getChildByName tree property) as [node |]; [| now rewrite app_nil_r].
  destruct (0 <? length (getAllChildren node))%nat.
  - now rewrite map_app.
  - now rewrite app_nil_r.
Qed.

Lemma pushLayers_wf tree property label summary (P : SfSummaryProperty -> Prop) :
  Forall P summary ->
  (forall layers, layers <> [] -> P (mkSfSummaryProperty label None (Some layers))) ->
  Forall P (pushLayers formattedValue tree property label summary).
Proof.
  intros Hsummary Hnew. unfold pushLayers.
  destruct (getChildByName tree property) as [node |]; [| exact Hsummary].
  destruct (getAllChildren node) as [| child rest] eqn:Hchildren; [exact Hsummary |].
  simpl. apply Forall_app. split; [exact Hsummary |].
  constructor; [| constructor]. apply Hnew. discriminate.
Qed.

(** X17. [getSummaryOfVisibility] lists, in this fixed order and each at
    most once, "Invisible due to", "Occluded by", "Partially occluded
    by" and "Covered by", an entry being present exactly when its
    property exists and has children (none at all for a tree without
    them); the first kind of entry carries a text and no layers, the
    others a non-empty list of layers and no text. *)
Theorem getSummaryOfVisibility_entries tree :
  map key (getSummaryOfVisibility tree)
  = (if hasListed tree "visibilityReason" then ["Invisible due to"] else [])
    ++ (if hasListed tree "occludedBy" then ["Occluded by"] else [])
    ++ (if hasListed tree "partiallyOccludedBy" then ["Partially occluded by"] else [])
    ++ (if hasListed tree "coveredBy" then ["Covered by"] else []) /\
  Forall (fun entry =>
            (key entry = "Invisible due to" /\ is_Some (simpleValue entry) /\
             layerValues entry = None) \/
            (key entry <> "Invisible due to" /\ simpleValue entry = None /\
             exists layers, layerValues entry = Some layers /\ layers <> []))
         (getSummaryOfVisibility tree).
Proof.
  unfold PresenterViews.getSummaryOfVisibility. split.
  - rewrite !pushLayers_keys, <- !app_assoc. f_equal.
    unfold hasListed. destruct (getChildByName tree "visibilityReason") as [node |];
      [| reflexivity].
    destruct (0 <? length (getAllChildren node))%nat; reflexivity.
  - repeat apply pushLayers_wf;
      try (intros layers Hne; right; split; [discriminate |];
           split; [reflexivity |]; exists layers; now split).
    destruct (getChildByName tree "visibilityReason") as [node |]; [| constructor].
    destruct (0 <? length (getAllChildren node))%nat; [| constructor].
    constructor; [| constructor]. left. simpl. eauto.
Qed.

End WithFormatter.

(** *** Display identifiers *)

Lemma CodeUnitsLe_refl a : CodeUnitsLe a a.
Proof. induction a; now constructor. Qed.

















End PresenterViewsFacts.

(** ** More on the diff engine *)

Module PresenterMore.

Import Presenter PresenterSpec.

Section WithFormatter.

Variable formattedValue : PropertyTreeNode -> string.

Lemma childLoop_same_namesakes old old' rest :
  (forall c, c ∈ rest ->
     getChildByName old (name c) = getChildByName old' (name c)) ->
  childLoop formattedValue old rest = childLoop formattedValue old' rest.
Proof.
  induction rest as [| c rest IH]; intros Hsame; [reflexivity |].
  cbn [childLoop].
  rewrite <- (Hsame c) by apply list_elem_of_here.
  rewrite IH by (intros c' Hc'; apply Hsame; now apply list_elem_of_further).
  reflexivity.
Qed.

(** X19. The comparison looks at the old tree only through the
    namesakes of the new tree's properties: two old trees that give the
    same answer to [getChildByName] for every child name of the new
    tree are judged alike.  So a property that only the old tree has --
    one that was removed -- is never reported. *)
Theorem only_namesakes_are_compared new old old' :
  (forall c, c ∈ getAllChildren new ->
     getChildByName old (name c) = getChildByName old' (name c)) ->
  isChildPropertyModified formattedValue new old
  = isChildPropertyModified formattedValue new old'.
Proof.
  intros Hsame.
  rewrite !PresenterFacts.isChildPropertyModified_loop.
  now apply childLoop_same_namesakes.
Qed.

End WithFormatter.

End PresenterMore.

(** ** Layer snapshots of the unified format *)

Module ParserSurfaceFlingerPerfettoFacts.

Import ParserSurfaceFlingerPerfetto.

Lemma has_keys (m : list (nat * list Arg)) layerId :
  has m layerId = true <-> layerId ∈ map fst m.
Proof.
  unfold has. rewrite existsb_exists, list_elem_of_In, in_map_iff. split.
  - intros (e & Hin & Heq). apply Nat.eqb_eq in Heq. eauto.
  - intros (e & Heq & Hin). exists e. split; [exact Hin | now apply Nat.eqb_eq].
Qed.

Lemma addArgTo_keys (m : list (nat * list Arg)) layerId a :
  map fst (addArgTo m layerId a) = map fst m.
Proof.
  induction m as [| [k builder] rest IH]; [reflexivity |].
  simpl. destruct (k =? layerId)%nat; simpl; [reflexivity | now rewrite IH].
Qed.

Lemma addArgTo_In (m : list (nat * list Arg)) layerId a k args :
  List.NoDup (map fst m) ->
  In (k, args) (addArgTo m layerId a) <->
  (k <> layerId /\ In (k, args) m) \/
  (k = layerId /\ exists before, args = before ++ [a] /\ In (k, before) m).
Proof.
  induction m as [| [k0 builder] rest IH]; intros Hnd.
  - simpl. split; [tauto |]. intros [[_ []] | (_ & before & _ & [])].
  - simpl in Hnd. inversion Hnd as [| ? ? Hk0 Hnd']; subst.
    assert (Hfresh : forall args', ~ In (k0, args') rest).
    { intros args' Hin. apply Hk0, in_map_iff. now exists (k0, args'). }
    simpl. destruct (Nat.eqb_spec k0 layerId) as [-> | Hne]; simpl.
    + split.
      * intros [Heq | Hin].
        -- injection Heq as <- <-. right. split; [reflexivity |].
           exists builder. split; [reflexivity | now left].
        -- left. split; [| now right]. intros ->. now apply (Hfresh args).
      * intros [[Hk [Heq | Hin]] | (-> & before & -> & [Heq | Hin])].
        -- injection Heq as <- <-. congruence.
        -- now right.
        -- injection Heq as <-. now left.
        -- exfalso. now apply (Hfresh before).
    + rewrite (IH Hnd'). split.
      * intros [Heq | [[Hk Hin] | (-> & before & -> & Hin)]].
        -- injection Heq as <- <-. left. split; [exact Hne | now left].
        -- left. split; [exact Hk | now right].
        -- right. split; [reflexivity |]. exists before. split; [reflexivity | now right].
      * intros [[Hk [Heq | Hin]] | (-> & before & -> & [Heq | Hin])].
        -- now left.
        -- right. left. now split.
        -- injection Heq as <- <-. congruence.
        -- right. right. split; [reflexivity |]. exists before. now split.
Qed.

Lemma addArgTo_lookup (m : list (nat * list Arg)) layerId a k args :
  NoDup (map fst m) ->
  (k, args) ∈ addArgTo m layerId a <->
  (k <> layerId /\ (k, args) ∈ m) \/
  (k = layerId /\ exists before, args = before ++ [a] /\ (k, before) ∈ m).
Proof.
  intros Hnd. apply NoDup_ListNoDup in Hnd.
  rewrite !list_elem_of_In, (addArgTo_In m layerId a k args Hnd).
  split; (intros [H | (Hk & before & Hargs & Hin)]; [now left | right]);
    (split; [exact Hk |]); exists before; (split; [exact Hargs |]);
    now apply list_elem_of_In.
Qed.

(** The state of the builders after the rows [seen]. *)
Definition Grouped (seen : list LayerRow) (m : list (nat * list Arg)) : Prop :=
  NoDup (map fst m) /\
  (forall layerId, layerId ∈ map fst m <->
                   exists row, row ∈ seen /\ layer_id row = layerId) /\
  (forall layerId args, (layerId, args) ∈ m -> args = argsOfLayer layerId seen).

Lemma argsOfLayer_snoc layerId seen row :
  argsOfLayer layerId (seen ++ [row])
  = argsOfLayer layerId seen
    ++ (if (layer_id row =? layerId)%nat then [rowArg row] else []).
Proof.
  unfold argsOfLayer. rewrite List.filter_app, map_app. simpl.
  now destruct (layer_id row =? layerId)%nat.
Qed.

Lemma argsOfLayer_absent layerId seen :
  (forall row, row ∈ seen -> layer_id row <> layerId) ->
  argsOfLayer layerId seen = [].
Proof.
  intros Habsent. unfold argsOfLayer.
  induction seen as [| row seen IH]; [reflexivity |].
  simpl. destruct (Nat.eqb_spec (layer_id row) layerId) as [Heq | Hne].
  - exfalso. apply (Habsent row); [apply list_elem_of_here | exact Heq].
  - apply IH. intros r Hr. apply Habsent. now apply list_elem_of_further.
Qed.

Lemma addRow_Grouped seen m row :
  Grouped seen m -> Grouped (seen ++ [row]) (addRow m row).
Proof.
  intros (Hnd & Hkeys & Hargs). unfold addRow.
  set (m1 := if negb (has m (layer_id row)) then m ++ [(layer_id row, [])] else m).
  assert (H1 : NoDup (map fst m1) /\
               layer_id row ∈ map fst m1 /\
               (forall layerId, layerId ∈ map fst m1 <->
                  layerId = layer_id row \/ layerId ∈ map fst m) /\
               (forall layerId args, (layerId, args) ∈ m1 ->
                  args = argsOfLayer layerId seen)).
  { subst m1. destruct (has m (layer_id row)) eqn:Hhas; cbn [negb].
    - apply has_keys in Hhas.
      split; [exact Hnd |]. split; [exact Hhas |]. split; [| exact Hargs].
      intros layerId. split; [intros H; now right |].
      intros [-> | H]; [exact Hhas | exact H].
    - assert (Hnew : layer_id row ∉ map fst m).
      { intros Hin. apply has_keys in Hin. congruence. }
      rewrite map_app. cbn [map fst].
      split; [| split; [| split]].
      + apply NoDup_app. split; [exact Hnd |]. split; [| apply NoDup_singleton].
        intros k Hk Hk'. apply list_elem_of_singleton in Hk'. now subst k.
      + apply elem_of_app. right. apply list_elem_of_here.
      + intros layerId. rewrite elem_of_app, list_elem_of_singleton. tauto.
      + intros layerId args Hin.
        apply elem_of_app in Hin as [Hin | Hin]; [now apply Hargs |].
        apply list_elem_of_singleton in Hin. injection Hin as -> ->.
        symmetry. apply argsOfLayer_absent. intros r Hr Heq. apply Hnew.
        apply Hkeys. now exists r. }
  clearbody m1. destruct H1 as (Hnd1 & Hin1 & Hkeys1 & Hargs1).
  split; [now rewrite addArgTo_keys |]. split.
  - intros layerId. rewrite addArgTo_keys, Hkeys1, Hkeys. split.
    + intros [-> | (r & Hr & Heq)]; [exists row; set_solver | exists r; set_solver].
    + intros (r & Hr & Heq). apply elem_of_app in Hr as [Hr | Hr]; [right; eauto |].
      apply list_elem_of_singleton in Hr. subst r. now left.
  - intros layerId args Hin. rewrite argsOfLayer_snoc.
    apply (addArgTo_lookup m1 _ _ _ _ Hnd1) in Hin
      as [[Hne Hin] | (-> & before & -> & Hin)].
    + rewrite (Hargs1 _ _ Hin).
      destruct (Nat.eqb_spec (layer_id row) layerId); [congruence |].
      now rewrite app_nil_r.
    + rewrite (Hargs1 _ _ Hin), Nat.eqb_refl. reflexivity.
Qed.

Lemma groupRows_Grouped rows : Grouped rows (groupRows rows).
Proof.
  unfold groupRows.
  assert (Hgen : forall seen m, Grouped seen m ->
                   Grouped (seen ++ rows) (fold_left addRow rows m)).
  { induction rows as [| row rows IH]; intros seen m Hm; simpl.
    - now rewrite app_nil_r.
    - replace (seen ++ row :: rows) with ((seen ++ [row]) ++ rows)
        by now rewrite <- app_assoc.
      apply IH. now apply addRow_Grouped. }
  apply (Hgen [] []). repeat split.
  - constructor.
  - intros H. now apply elem_of_nil in H.
  - intros (r & Hr & _). now apply elem_of_nil in Hr.
  - intros layerId args H. now apply elem_of_nil in H.
Qed.

Lemma addRow_keys (m : list (nat * list Arg)) row :
  map fst (addRow m row)
  = if has m (layer_id row) then map fst m else map fst m ++ [layer_id row].
Proof.
  unfold addRow. rewrite addArgTo_keys.
  destruct (has m (layer_id row)); cbn [negb]; [reflexivity |].
  now rewrite map_app.
Qed.

(** The layer ids in the order in which they first occur. *)
Lemma groupRows_keys rows :
  map fst (groupRows rows) = rev (remove_dups (rev (map layer_id rows))).
Proof.
  induction rows as [| row rows IH] using rev_ind; [reflexivity |].
  unfold groupRows in *. rewrite fold_left_app. cbn [fold_left].
  rewrite addRow_keys, map_app, rev_app_distr. cbn [map rev app remove_dups].
  assert (Hseen : has (fold_left addRow rows []) (layer_id row) = true
                  <-> layer_id row ∈ rev (map layer_id rows)).
  { rewrite has_keys, IH, <- (elem_of_remove_dups (rev (map layer_id rows))).
    rewrite !list_elem_of_In. symmetry. apply in_rev. }
  destruct (decide_rel elem_of (layer_id row) (rev (map layer_id rows)))
    as [Hin | Hnotin].
  - apply Hseen in Hin. rewrite Hin. exact IH.
  - destruct (has _ (layer_id row)) eqn:Hhas.
    + exfalso. apply Hnotin, Hseen. reflexivity.
    + cbn [rev]. now rewrite IH.
Qed.

Section WithBuilder.

Variable FakeProto : Type.
Variable build : list Arg -> FakeProto.

(** X20. [querySnapshotLayers] builds one proto per layer.  The protos
    come in the order in which the layer ids first occur in the rows,
    each layer id once, and the proto of a layer is built from the
    arguments of the rows of that layer, all of them, in row order. *)
Theorem querySnapshotLayers_groups_by_layer rows :
  let layerIds := rev (remove_dups (rev (map layer_id rows))) in
  querySnapshotLayers FakeProto build rows
  = map (fun layerId => build (argsOfLayer layerId rows)) layerIds /\
  NoDup layerIds /\
  (forall layerId, layerId ∈ layerIds <->
                   exists row, row ∈ rows /\ layer_id row = layerId).
Proof.
  cbv zeta. rewrite <- groupRows_keys.
  destruct (groupRows_Grouped rows) as (Hnd & Hkeys & Hargs).
  split; [| split; [exact Hnd | exact Hkeys]].
  unfold querySnapshotLayers. rewrite map_map.
  apply map_ext_in. intros [layerId args] Hin.
  simpl. f_equal. apply Hargs. now apply list_elem_of_In.
Qed.

End WithBuilder.

End ParserSurfaceFlingerPerfettoFacts.

(** ** Concrete runs of the further properties *)

Module MoreRuns.

Import Factory FactorySpec FactoryInvariants Samples MoreSamples.

Lemma keyed_empty : keyed (∅ : gmap nat Parser).
Proof. intros t p H. rewrite lookup_empty in H. discriminate H. Defined.

Lemma createParsers_keeps_keyed_witness :
  keyed (this_parsers
           (snd (createParsers construct parse
                   [file "sf_5.winscope"; file "launcher.vc"; file "sf_8.winscope"]
                   None emptyStore))).
Proof.
  apply (FactoryMore.createParsers_keeps_keyed Log construct parse
           [file "sf_5.winscope"; file "launcher.vc"; file "sf_8.winscope"]
           None emptyStore).
  exact keyed_empty.
Defined.

Lemma longest_capture_wins_witness :
  (exists q,
     this_parsers
       (snd (createParsers construct parse
               [file "sf_8.winscope"; file "sf_5.winscope"] None emptyStore))
     !! getTraceType sf5 = Some q /\
     getLengthEntries sf5 <= getLengthEntries q) /\
  (forall t old, this_parsers emptyStore !! t = Some old ->
     exists q,
       this_parsers
         (snd (createParsers construct parse
                 [file "sf_8.winscope"; file "sf_5.winscope"] None emptyStore))
       !! t = Some q /\
       getLengthEntries old <= getLengthEntries q).
Proof.
  apply (FactoryMore.longest_capture_wins Log construct parse
           [file "sf_8.winscope"; file "sf_5.winscope"] None emptyStore
           (file "sf_5.winscope") (PlainParser sf5) sf5).
  - apply list_elem_of_further, list_elem_of_here.
  - reflexivity.
  - apply list_elem_of_here.
Defined.

Example shorter_capture_loaded_second :
  this_parsers
    (snd (createParsers construct parse
            [file "sf_8.winscope"; file "sf_5.winscope"] None emptyStore))
  = {[SURFACE_FLINGER := sf8]}.
Proof. reflexivity. Qed.

Lemma loadedStore_registered f instance p :
  f ∈ [file "sf_5.winscope"; file "notes.txt"; file "wm.winscope"] ->
  firstAccepted construct parse PARSERS f = Some instance ->
  p ∈ candidates instance ->
  this_parsers loadedStore !! getTraceType p = Some p.
Proof.
  intros Hf Hacc Hp. each_child Hf; vm_compute in Hacc;
    try discriminate Hacc; injection Hacc as <-; each_child Hp; reflexivity.
Defined.

Lemma reload_is_rejected_witness :
  fst (createParsers construct parse
         [file "sf_5.winscope"; file "notes.txt"; file "wm.winscope"]
         None loadedStore)
  = Returns ([],
             [mkParserError OVERRIDE (Some "sf_5.winscope") (Some SURFACE_FLINGER);
              mkParserError UNSUPPORTED_FORMAT (Some "notes.txt") None;
              mkParserError OVERRIDE (Some "wm.winscope") (Some WINDOW_MANAGER)]) /\
  this_parsers
    (snd (createParsers construct parse
            [file "sf_5.winscope"; file "notes.txt"; file "wm.winscope"]
            None loadedStore))
  = this_parsers loadedStore.
Proof.
  apply (FactoryMore.reload_is_rejected Log construct parse
           [file "sf_5.winscope"; file "notes.txt"; file "wm.winscope"]
           None loadedStore).
  exact loadedStore_registered.
Defined.

Import Pipeline PipelineSpec PipelineTimestamps PipelineInvariants.

Abbreviation loadWithTransitions :=
  (loadTraceFiles constructWithTransitions parse filter perfettoCreateParsers
     deriveTransition TRANSITION WM_TRANSITION SHELL_TRANSITION
     newTracePipeline ([] : Log) transitionFiles None).

Lemma transitionFiles_usable : ~ noUsableInput filter transitionFiles.
Proof. intros [_ Hlegacy]. discriminate Hlegacy. Defined.

Lemma transition_collapses_sub_traces_witness :
  is_Some (traces (fst (snd loadWithTransitions)) !! TRANSITION) /\
  traces (fst (snd loadWithTransitions)) !! WM_TRANSITION = None /\
  traces (fst (snd loadWithTransitions)) !! SHELL_TRANSITION = None.
Proof.
  apply (PipelineMore.transition_collapses_sub_traces Log constructWithTransitions
           parse filter perfettoCreateParsers deriveTransition
           TRANSITION WM_TRANSITION SHELL_TRANSITION
           newTracePipeline [] transitionFiles None
           [] (fst (snd loadWithTransitions)) []
           [mkParser TRANSITION ["transitions"] 4]).
  - exact transitionFiles_usable.
  - reflexivity.
  - reflexivity.
  - reflexivity.
  - discriminate.
  - discriminate.
Defined.

Example traces_after_transitions :
  traces (fst (snd loadWithTransitions))
  = {[SURFACE_FLINGER := sf5; TRANSITION := mkParser TRANSITION ["transitions"] 4]}.
Proof. reflexivity. Qed.

Abbreviation loadTwice :=
  (loadTraceFiles construct parse filter perfettoCreateParsers
     tracesCreateParsers TRANSITION WM_TRANSITION SHELL_TRANSITION
     newTracePipeline ([] : Log)
     [file "sf_5.winscope"; file "wm.winscope"; file "sf_8.winscope"] None).

Lemma trace_of_a_type_witness :
  traces (fst (snd loadTwice)) !! SURFACE_FLINGER = Some sf8 /\
  parsers (fst (snd loadTwice)) = [sf5; wm2; sf8].
Proof.
  split; [| reflexivity].
  refine (PipelineMore.trace_of_a_type Log construct parse filter
            perfettoCreateParsers tracesCreateParsers
            TRANSITION WM_TRANSITION SHELL_TRANSITION
            newTracePipeline [] [file "sf_5.winscope"; file "wm.winscope";
                                 file "sf_8.winscope"] None
            [mkParserError OVERRIDE (Some "sf_5.winscope") (Some SURFACE_FLINGER)]
            (fst (snd loadTwice)) [] [] SURFACE_FLINGER _ _ _).
  - intros [_ Hlegacy]. discriminate Hlegacy.
  - reflexivity.
  - reflexivity.
Defined.

Lemma load_returns_witness :
  exists errs tp' w',
    loadTraceFiles construct parse filter perfettoCreateParsers
      tracesCreateParsers TRANSITION WM_TRANSITION SHELL_TRANSITION
      loadedPipeline ([] : Log)
      [file "truncated.winscope"; file "trace.perfetto-trace"] (Some recorder)
    = (Returns errs, (tp', w')) /\
    parsers loadedPipeline `prefix_of` parsers tp' /\
    commonTimestampType tp' = commonTimestampType loadedPipeline.
Proof.
  apply (PipelineMore.load_returns Log construct parse filter
           perfettoCreateParsers tracesCreateParsers
           TRANSITION WM_TRANSITION SHELL_TRANSITION).
  - intros f. eexists. reflexivity.
  - intros ps. eexists. reflexivity.
Defined.

Lemma loadedPipeline_not_all_real :
  ~ allHave (list nat) sampleTimestamps loadedPipeline REAL.
Proof.
  intros Hall. destruct (Hall wm2) as [x Hx]; [| discriminate Hx].
  apply list_elem_of_further, list_elem_of_here.
Defined.

Lemma loadedPipeline_all_elapsed :
  allHave (list nat) sampleTimestamps loadedPipeline ELAPSED.
Proof. intros p _. eexists. reflexivity. Defined.

Lemma timestamp_type_choice_witness :
  getCommonTimestampType (list nat) sampleTimestamps loadedPipeline
  = (Returns ELAPSED, setCommonTimestampType loadedPipeline ELAPSED).
Proof.
  refine (proj1 (proj2 (PipelineMore.timestamp_type_choice (list nat)
                          sampleTimestamps loadedPipeline eq_refl)) _ _).
  - exact loadedPipeline_not_all_real.
  - exact loadedPipeline_all_elapsed.
Defined.

(** After the choice, loading a trace changes nothing to it. *)
Lemma timestamp_type_is_cached_witness :
  let tp2 :=
    fst (snd (loadTraceFiles construct parse filter perfettoCreateParsers
                tracesCreateParsers TRANSITION WM_TRANSITION SHELL_TRANSITION
                (setCommonTimestampType loadedPipeline ELAPSED) ([] : Log)
                [file "launcher.vc"] None)) in
  getCommonTimestampType (list nat) sampleTimestamps tp2 = (Returns ELAPSED, tp2).
Proof.
  refine (proj1 (proj2 (PipelineMore.timestamp_type_is_cached (list nat)
                          sampleTimestamps Log construct parse filter
                          perfettoCreateParsers tracesCreateParsers
                          TRANSITION WM_TRANSITION SHELL_TRANSITION
                          loadedPipeline ELAPSED
                          (setCommonTimestampType loadedPipeline ELAPSED) _))
            [] [file "launcher.vc"] None).
  reflexivity.
Defined.

Import PresenterViews PresenterViewsSpec.

Lemma onPinnedItemChange_keeps_ids_in_step_witness :
  map hierarchyId (pinnedItems (onPinnedItemChange pinsOfLayer hierarchyNew))
  = pinnedIds (onPinnedItemChange pinsOfLayer hierarchyNew) /\
  pinnedIds (onPinnedItemChange pinsOfLayer hierarchyNew) = ["layer"; "root"] /\
  pinnedIds (onPinnedItemChange (onPinnedItemChange pinsOfLayer hierarchyNew)
               layerNodeNew) = ["root"].
Proof.
  split; [| split; reflexivity].
  refine (proj1 (PresenterViewsFacts.onPinnedItemChange_keeps_ids_in_step
                   pinsOfLayer hierarchyNew _)).
  reflexivity.
Defined.

Lemma only_namesakes_are_compared_witness :
  Presenter.isChildPropertyModified render layerNew layerOldWithMore
  = Presenter.isChildPropertyModified render layerNew layerOld.
Proof.
  apply (PresenterMore.only_namesakes_are_compared render layerNew
           layerOldWithMore layerOld).
  intros c Hin. each_child Hin; reflexivity.
Defined.

Example pinned_nodes_of_the_sample :
  getPinnedItems ["layer"; "gone"] hierarchyNew = [layerNodeNew].
Proof. reflexivity. Qed.

Example layer_summary_of_a_long_name :
  getLayerSummary Samples.render (leaf "occludedBy" PROTO (VString "12 Task name#12"))
  = mkSfLayerSummary "12" "12 Task name#12" (Some "Task").
Proof. reflexivity. Qed.

Example displays_of_the_sample :
  getDisplays sampleRects
  = [mkDisplayIdentifier (DisplayIdString (codeUnits "4619827259835644672")) 0
       (codeUnits "Display - main");
     mkDisplayIdentifier (DisplayIdNumber (-1)) 3 (codeUnits "Offscreen Display");
     mkDisplayIdentifier (DisplayIdNumber (-1)) 5 (codeUnits "Offscreen Display 2")].
Proof. reflexivity. Qed.

Example code_units_of_an_offscreen_name :
  displayName
    (mkDisplayIdentifier (DisplayIdNumber (-1)) 5 (codeUnits "Offscreen Display 2"))
  = [79; 102; 102; 115; 99; 114; 101; 101; 110; 32;
     68; 105; 115; 112; 108; 97; 121; 32; 50]%N.
Proof. reflexivity. Qed.

(** A surrogate pair sorts before U+FF21, although its code point is
    the larger one. *)
Example displays_with_wide_labels :
  map displayName (getDisplays wideLabelRects)
  = [[0xD83D; 0xDE00]%N; [0xFF21%N]].
Proof. reflexivity. Qed.

End MoreRuns.
